(** * Combat and character-state core of human-vs-bots

    A shallow embedding of the Player, Enemy, EnemyAIController, HealthBar
    and of GameScene's [update()] with its hit resolution, followed by the
    properties of the combat core.

    Conventions of the embedding.
    - A JavaScript [number] that measures time, health, position or speed
      is an exact rational ([Q]); counters that the code only compares
      with [===] against integer literals are [Z].  The source computes
      with IEEE doubles.  The two agree where no operation rounds, as on
      whole numbers ([Num.whole]): the properties that turn on the exact
      value of a timer are stated for whole times, and [Double] has the
      timers over doubles, with what rounding does at other frame times.
    - A class is a record of its fields; a method is a function from the
      record to the record (and a result where the method returns one).
    - The Phaser sprite and its Arcade body are flattened into the record
      of the entity that owns them: position, flip, current animation key
      and frame, velocity, acceleration, [blocked.down], body size.
    - Closures handed to [sprite.once('animationcomplete', ...)],
      [scene.time.delayedCall], [scene.tweens.add], [setTimeout] are
      defunctionalised: one constructor per closure of the source, kept in
      the queue the library keeps them in, and run by the function that
      stands for the library firing them.
    - Input queries and [Math.random()] are oracles: their results for the
      current frame are arguments.
    - An exception is a result.  A method of the enemy whose [sprite.play]
      can throw gives the enemy as the call leaves it, by returning or by
      throwing, and has a twin [...Throws]; GameScene's [update()] gives
      [None] when it throws.
    - Sound, particles, tint and scale tweens are display collaborators
      and are left out.  The HealthBar is a record of its own: the records
      of the entities do not hold their bar, and [HealthBar.takeDamage]
      pairs an entity with the bar that [setHealthBar] gave it. *)

From Stdlib Require Import QArith Qabs Qround Qpower Lqa ZArith Lia Bool List String.
From Stdlib Require Import Floats.
From coqutil Require Import Datatypes.RecordSettersUsingExistingGetters.
Import ListNotations.
Open Scope Q_scope.

(** ** Numbers *)

Module Num.

Definition ltb (a b : Q) : bool := negb (Qle_bool b a).
Definition leb (a b : Q) : bool := Qle_bool a b.
Definition gtb (a b : Q) : bool := ltb b a.
Definition geb (a b : Q) : bool := leb b a.

(** [Math.max(a, b)] *)
Definition Math_max (a b : Q) : Q := if ltb a b then b else a.

(** [Math.abs(a)] *)
Definition Math_abs (a : Q) : Q := Qabs a.

(** [Math.floor(a)] *)
Definition Math_floor (a : Q) : Z := Qfloor a.

(** [Math.min(a, b)] *)
Definition Math_min (a b : Q) : Q := if ltb b a then b else a.

(** [Math.ceil(a)] *)
Definition Math_ceil (a : Q) : Z := Qceiling a.

(** A whole number of size at most 2^52.  Sums and differences of two such
    numbers are whole numbers of size at most 2^53, which doubles hold
    exactly: on them the [+], [-] and comparisons of the source give what
    the same operations give here. *)
Definition whole (a : Q) : bool :=
  (Qnum a mod Zpos (Qden a) =? 0)%Z &&
  (Z.abs (Qnum a) / Zpos (Qden a) <=? 2 ^ 52)%Z.

End Num.

Notation "a <? b" := (Num.ltb a b) : Q_scope.
Notation "a <=? b" := (Num.leb a b) : Q_scope.
Notation "a >? b" := (Num.gtb a b) : Q_scope.
Notation "a >=? b" := (Num.geb a b) : Q_scope.

(** ** The timers of the player over doubles

    The statements of Player.ts that count a timer down, transcribed over
    Rocq's primitive [float], the IEEE double of JavaScript, as they stand
    in the source ([x > 0] is [0 <? x]). *)

Module Double.

(** The rational that a finite double stands for. *)
Definition toQ (x : float) : Q :=
  match Prim2SF x with
  | S754_finite s m e =>
      let n := if s then Z.neg m else Z.pos m in
      if (0 <=? e)%Z then inject_Z (n * 2 ^ e) else n # Z.to_pos (2 ^ (- e))
  | _ => 0
  end.

Record Timers := {
  comboCount : Z;
  comboTimer : float;
  comboDelayTimer : float;
  isInvincible : bool;
  invincibilityTimer : float;
  jumpBufferTimer : float;
}.

(** The first statements of [update()]. *)
Definition updateTimers (delta : float) (t : Timers) : Timers :=
  let t :=
    if PrimFloat.ltb 0 (comboTimer t) then
      let t := t <| comboTimer := PrimFloat.sub (comboTimer t) delta |> in
      if PrimFloat.leb (comboTimer t) 0 then t <| comboCount := 0%Z |> else t
    else t in
  let t :=
    if PrimFloat.ltb 0 (comboDelayTimer t)
    then t <| comboDelayTimer := PrimFloat.sub (comboDelayTimer t) delta |>
    else t in
  if PrimFloat.ltb 0 (invincibilityTimer t) then
    let t := t <| invincibilityTimer := PrimFloat.sub (invincibilityTimer t) delta |> in
    if PrimFloat.leb (invincibilityTimer t) 0 then t <| isInvincible := false |> else t
  else t.

(** The first statement of handleJump. *)
Definition countDownJumpBuffer (delta : float) (t : Timers) : Timers :=
  if PrimFloat.ltb 0 (jumpBufferTimer t)
  then t <| jumpBufferTimer := PrimFloat.sub (jumpBufferTimer t) delta |>
  else t.

(** A frame in which no key is pressed and nothing hits the player:
    [update()] counts the timers down and handleJump the jump buffer. *)
Definition idleFrame (delta : float) (t : Timers) : Timers :=
  countDownJumpBuffer delta (updateTimers delta t).

Fixpoint idleFrames (n : nat) (delta : float) (t : Timers) : Timers :=
  match n with
  | O => t
  | S n => idleFrames n delta (idleFrame delta t)
  end.

(** What performPunch writes to the combo fields. *)
Definition performPunch (t : Timers) : Timers :=
  t <| comboCount := 1%Z |> <| comboTimer := 800%float |>
    <| comboDelayTimer := 250%float |>.

(** The test of handleAttack for the combo:
    [comboCount === 1 && comboDelayTimer <= 0]. *)
Definition comboReady (t : Timers) : bool :=
  (comboCount t =? 1)%Z && PrimFloat.leb (comboDelayTimer t) 0.

(** What queueCounterDodge writes to the invincibility fields. *)
Definition queueCounterDodge (delayMs : float) (t : Timers) : Timers :=
  t <| isInvincible := true |>
    <| invincibilityTimer := PrimFloat.add delayMs 600%float |>.

(** What handleJump writes to the buffer when the jump key is pressed. *)
Definition pressJump (t : Timers) : Timers :=
  t <| jumpBufferTimer := 150%float |>.

(** The test of handleJump for the buffer: [jumpBufferTimer > 0]. *)
Definition jumpBuffered (t : Timers) : bool :=
  PrimFloat.ltb 0 (jumpBufferTimer t).

(** A player with no timer running. *)
Definition rest : Timers := {|
  comboCount := 0;
  comboTimer := 0%float;
  comboDelayTimer := 0%float;
  isInvincible := false;
  invincibilityTimer := 0%float;
  jumpBufferTimer := 0%float;
|}.

End Double.

(** ** Phaser values shared by the entities *)

(** [Phaser.Geom.Rectangle] *)
Record Rectangle := {
  rect_x : Q;
  rect_y : Q;
  rect_width : Q;
  rect_height : Q;
}.

(** The [AnimationFrame] a sprite is showing: its position in the animation
    (Phaser counts from 1) and the name of its texture frame. *)
Record AnimationFrame := {
  index : Z;
  frame_name : string;
}.

(** [sprite.play(key)] starts the animation at its first frame; every
    animation of the game starts with texture frame 0. *)
Definition firstFrame : AnimationFrame := {| index := 1; frame_name := "0" |}.

(** ** Player (Player.ts) *)

Module Player.

Module CONFIG.
Definition MOVE_SPEED : Q := 300.
Definition ACCELERATION : Q := 1500.
Definition DRAG : Q := 1000.
Definition JUMP_VELOCITY : Q := -450.
Definition MAX_JUMPS : Z := 2.
Definition JUMP_BUFFER_TIME : Q := 150.
Definition FRAME_WIDTH : Q := 200.
Definition FRAME_HEIGHT : Q := 400.
Definition SCALE : Q := 65 # 100.
Definition BODY_WIDTH : Q := 80.
Definition BODY_HEIGHT : Q := 200.
Definition MAX_HEALTH : Q := 100.
Definition INVINCIBILITY_DURATION : Q := 500.
Definition KNOCKBACK_FORCE : Q := 250.
End CONFIG.

Module DAMAGE.
Definition PUNCH : Q := 10.
Definition UPPERCUT : Q := 20.
Definition AERIAL_PUNCH : Q := 15.
End DAMAGE.

Definition COMBO_WINDOW : Q := 800.
Definition COMBO_MIN_DELAY : Q := 250.

Inductive PlayerState :=
| IDLE | RUNNING | JUMPING | FALLING | ATTACKING | HURT | DEAD | DODGING.

Definition PlayerState_eqb (a b : PlayerState) : bool :=
  match a, b with
  | IDLE, IDLE | RUNNING, RUNNING | JUMPING, JUMPING | FALLING, FALLING
  | ATTACKING, ATTACKING | HURT, HURT | DEAD, DEAD | DODGING, DODGING => true
  | _, _ => false
  end.

(** ['punch' | 'uppercut' | 'aerial-punch'] *)
Inductive AttackType := Punch | Uppercut | AerialPunch.

(** The closures registered with [sprite.once('animationcomplete', ...)]:
    - [ReturnToIdle]: [() => { currentState = IDLE; sprite.play('juan-idle') }]
      (triggerHurt, triggerHurtStomach, performDodge, performMatrixDodge,
      performCounterDodge);
    - [AttackFinished]: [() => { currentAttackType = null; onAttackComplete() }]
      (performPunch, performUppercut, performAerialPunch). *)
Inductive AnimCallback := ReturnToIdle | AttackFinished.

(** The closure registered with [scene.time.delayedCall] in
    queueCounterDodge: [() => { performCounterDodge(true, 0) }]. *)
Inductive TimerCallback := DelayedCounterDodge.

Record t := {
  jumpsRemaining : Z;
  currentState : PlayerState;
  facingRight : bool;
  comboCount : Z;
  comboTimer : Q;
  comboDelayTimer : Q;
  bufferedAttack : option AttackType;
  jumpBufferTimer : Q;
  maxHealth : Q;
  currentHealth : Q;
  isInvincible : bool;
  invincibilityTimer : Q;
  currentAttackType : option AttackType;
  counterDodgeQueued : bool;
  (* sprite *)
  x : Q;
  y : Q;
  flipX : bool;
  animKey : string;
  currentFrame : option AnimationFrame;
  animationcomplete : list AnimCallback;
  (* sprite.body *)
  velocityX : Q;
  velocityY : Q;
  accelerationX : Q;
  accelerationY : Q;
  blockedDown : bool;
  bodyWidth : Q;
  bodyHeight : Q;
  (* scene.time *)
  delayedCalls : list (Q * TimerCallback);
}.

(** What InputManager answers during one frame. *)
Record Input := {
  isDebugHurtPressed : bool;
  isDebugHurtStomachPressed : bool;
  isCounterDodgePressed : bool;
  isDodgePressed : bool;
  isMatrixDodgePressed : bool;
  isPunchPressed : bool;
  isUppercutPressed : bool;
  isMovingLeft : bool;
  isMovingRight : bool;
  isJumpPressed : bool;
}.

(** What the two callbacks installed by setEnemyWarningChecker answer
    when called ([None]: the callback is still [null]), and the value of
    [Math.random()]. *)
Record Env := {
  isAnyEnemyShowingWarning : option bool;
  getTimeUntilEnemyAttack : option Q;
  random : Q;
}.

(** [new Player(scene, x, y, inputManager)]; the body measures the
    configured size times the scale of the sprite. *)
Definition new (x0 y0 : Q) : t := {|
  jumpsRemaining := CONFIG.MAX_JUMPS;
  currentState := IDLE;
  facingRight := true;
  comboCount := 0;
  comboTimer := 0;
  comboDelayTimer := 0;
  bufferedAttack := None;
  jumpBufferTimer := 0;
  maxHealth := CONFIG.MAX_HEALTH;
  currentHealth := CONFIG.MAX_HEALTH;
  isInvincible := false;
  invincibilityTimer := 0;
  currentAttackType := None;
  counterDodgeQueued := false;
  x := x0;
  y := y0;
  flipX := false;
  animKey := "juan-idle";
  currentFrame := Some firstFrame;
  animationcomplete := [];
  velocityX := 0;
  velocityY := 0;
  accelerationX := 0;
  accelerationY := 0;
  blockedDown := false;
  bodyWidth := CONFIG.BODY_WIDTH * CONFIG.SCALE;
  bodyHeight := CONFIG.BODY_HEIGHT * CONFIG.SCALE;
  delayedCalls := [];
|}.

(** [this.sprite.play(key)] *)
Definition play (key : string) (p : t) : t :=
  p <| animKey := key |> <| currentFrame := Some firstFrame |>.

(** [this.sprite.once('animationcomplete', cb)] *)
Definition once (cb : AnimCallback) (p : t) : t :=
  p <| animationcomplete ::= fun l => l ++ [cb] |>.

Definition isOnGround (p : t) : bool := blockedDown p.

Definition triggerHurt (p : t) : t :=
  if PlayerState_eqb (currentState p) HURT then p
  else
    let p := p <| currentState := HURT |> in
    let p := play "juan-getting-punched" p in
    once ReturnToIdle p.

Definition triggerHurtStomach (p : t) : t :=
  if PlayerState_eqb (currentState p) HURT then p
  else
    let p := p <| currentState := HURT |> in
    let p := play "juan-getting-punched-stomach" p in
    once ReturnToIdle p.

Definition handleDebugHurt (inp : Input) (p : t) : t :=
  let p := if isDebugHurtPressed inp then triggerHurt p else p in
  if isDebugHurtStomachPressed inp then triggerHurtStomach p else p.

Definition performDodge (p : t) : t :=
  let p := p <| currentState := DODGING |> in
  let p := play "juan-dodge" p in
  once ReturnToIdle p.

(** The guard shared by handleDodge, handleMatrixDodge and (with the queue
    flag) handleCounterDodge. *)
Definition lockedForDodge (p : t) : bool :=
  PlayerState_eqb (currentState p) DODGING ||
  PlayerState_eqb (currentState p) ATTACKING ||
  PlayerState_eqb (currentState p) HURT.

Definition handleDodge (inp : Input) (p : t) : t :=
  if lockedForDodge p then p
  else if isDodgePressed inp then performDodge p
  else p.

Definition performMatrixDodge (p : t) : t :=
  let p := p <| currentState := DODGING |> in
  let p := play "juan-matrix-dodge" p in
  once ReturnToIdle p.

Definition handleMatrixDodge (inp : Input) (p : t) : t :=
  if lockedForDodge p then p
  else if isMatrixDodgePressed inp then performMatrixDodge p
  else p.

Definition dodgeAnimations : list string :=
  ["juan-dodge"; "juan-matrix-dodge"; "juan-kipup"]%string.

(** [performCounterDodge(successful, _delay)]; [rnd] is [Math.random()].
    The scale pulse of a successful counter is display only, so
    [successful] does not change the state computed here. *)
Definition performCounterDodge (successful : bool) (rnd : Q) (p : t) : t :=
  let p := p <| currentState := DODGING |> in
  let p := p <| counterDodgeQueued := false |> in
  let randomIndex := Num.Math_floor (rnd * 3) in
  let animKey := nth (Z.to_nat randomIndex) dodgeAnimations "undefined"%string in
  let p := play animKey p in
  once ReturnToIdle p.

Definition queueCounterDodge (env : Env) (p : t) : t :=
  let delayMs := match getTimeUntilEnemyAttack env with
                 | Some d => d
                 | None => 0
                 end in
  let p := p <| counterDodgeQueued := true |> in
  let p := p <| isInvincible := true |> in
  let p := p <| invincibilityTimer := delayMs + 600 |> in
  if delayMs >? 0 then
    p <| delayedCalls ::= fun l => l ++ [(delayMs, DelayedCounterDodge)] |>
  else
    performCounterDodge true (random env) p.

Definition handleCounterDodge (inp : Input) (env : Env) (p : t) : t :=
  if lockedForDodge p || counterDodgeQueued p then p
  else if isCounterDodgePressed inp then
    let enemyIsAttacking := match isAnyEnemyShowingWarning env with
                            | Some b => b
                            | None => false
                            end in
    if enemyIsAttacking then queueCounterDodge env p
    else performCounterDodge false (random env) p
  else p.

Definition performPunch (p : t) : t :=
  let p := p <| currentState := ATTACKING |> in
  let p := p <| currentAttackType := Some Punch |> in
  let p := play "juan-punch" p in
  let p := p <| comboCount := 1%Z |> in
  let p := p <| comboTimer := COMBO_WINDOW |> in
  let p := p <| comboDelayTimer := COMBO_MIN_DELAY |> in
  once AttackFinished p.

Definition performUppercut (p : t) : t :=
  let p := p <| currentState := ATTACKING |> in
  let p := p <| currentAttackType := Some Uppercut |> in
  let p := play "juan-uppercut" p in
  once AttackFinished p.

Definition performAerialPunch (p : t) : t :=
  let p := p <| currentState := ATTACKING |> in
  let p := p <| currentAttackType := Some AerialPunch |> in
  let p := play "juan-aerial-punch" p in
  once AttackFinished p.

Definition handleAttack (inp : Input) (p : t) : t :=
  if PlayerState_eqb (currentState p) HURT then p
  else
    let punchPressed := isPunchPressed inp in
    let uppercutPressed := isUppercutPressed inp in
    let isAttacking := PlayerState_eqb (currentState p) ATTACKING in
    let isAirborne := negb (isOnGround p) in
    if isAirborne && negb isAttacking && punchPressed then
      performAerialPunch p
    else if punchPressed && (comboCount p =? 1)%Z && (comboDelayTimer p <=? 0) then
      let p := p <| bufferedAttack := None |> in
      let p := performUppercut p in
      let p := p <| comboCount := 0%Z |> in
      p <| comboTimer := 0 |>
    else if isAttacking then
      if punchPressed then
        p <| bufferedAttack := Some (if isAirborne then AerialPunch else Punch) |>
      else if uppercutPressed then
        p <| bufferedAttack := Some Uppercut |>
      else p
    else if uppercutPressed then performUppercut p
    else if punchPressed then performPunch p
    else p.

Definition onAttackComplete (p : t) : t :=
  match bufferedAttack p with
  | Some attack =>
      let p := p <| bufferedAttack := None |> in
      match attack with
      | Punch => performPunch p
      | Uppercut => performUppercut p
      | AerialPunch => performAerialPunch p
      end
  | None =>
      let p := p <| currentState := IDLE |> in
      play "juan-idle" p
  end.

Definition handleMovement (inp : Input) (p : t) : t :=
  if PlayerState_eqb (currentState p) ATTACKING ||
     PlayerState_eqb (currentState p) HURT ||
     PlayerState_eqb (currentState p) DODGING then
    p <| accelerationX := 0 |>
  else if isMovingLeft inp then
    p <| accelerationX := - CONFIG.ACCELERATION |> <| facingRight := false |>
  else if isMovingRight inp then
    p <| accelerationX := CONFIG.ACCELERATION |> <| facingRight := true |>
  else
    p <| accelerationX := 0 |>.

Definition handleJump (delta : Q) (inp : Input) (p : t) : t :=
  let p := if jumpBufferTimer p >? 0
           then p <| jumpBufferTimer := jumpBufferTimer p - delta |>
           else p in
  let p := if isJumpPressed inp
           then p <| jumpBufferTimer := CONFIG.JUMP_BUFFER_TIME |>
           else p in
  let p := if blockedDown p
           then p <| jumpsRemaining := CONFIG.MAX_JUMPS |>
           else p in
  if (jumpBufferTimer p >? 0) && (jumpsRemaining p >? 0)%Z then
    let p := p <| velocityY := CONFIG.JUMP_VELOCITY |> in
    let p := p <| jumpsRemaining := (jumpsRemaining p - 1)%Z |> in
    p <| jumpBufferTimer := 0 |>
  else p.

Definition playAnimationForState (p : t) : t :=
  match currentState p with
  | IDLE =>
      if negb (String.eqb (animKey p) "juan-idle") then play "juan-idle" p else p
  | RUNNING =>
      if negb (String.eqb (animKey p) "running-animation")
      then play "running-animation" p else p
  | JUMPING | FALLING =>
      if negb (String.eqb (animKey p) "juan-jump") then play "juan-jump" p else p
  | _ => p
  end.

Definition updateState (p : t) : t :=
  if PlayerState_eqb (currentState p) ATTACKING ||
     PlayerState_eqb (currentState p) HURT ||
     PlayerState_eqb (currentState p) DODGING then p
  else
    let previousState := currentState p in
    let p :=
      if negb (blockedDown p) then
        p <| currentState := if velocityY p <? 0 then JUMPING else FALLING |>
      else
        p <| currentState :=
               if Num.Math_abs (velocityX p) >? 10 then RUNNING else IDLE |> in
    if negb (PlayerState_eqb (currentState p) previousState)
    then playAnimationForState p
    else p.

Definition updateFacing (p : t) : t :=
  let shouldFlip := negb (facingRight p) in
  if negb (Bool.eqb (flipX p) shouldFlip) then p <| flipX := shouldFlip |> else p.

(** The three timers stepped at the top of [update()]. *)
Definition updateTimers (delta : Q) (p : t) : t :=
  let p :=
    if comboTimer p >? 0 then
      let p := p <| comboTimer := comboTimer p - delta |> in
      if comboTimer p <=? 0 then p <| comboCount := 0%Z |> else p
    else p in
  let p :=
    if comboDelayTimer p >? 0
    then p <| comboDelayTimer := comboDelayTimer p - delta |>
    else p in
  if invincibilityTimer p >? 0 then
    let p := p <| invincibilityTimer := invincibilityTimer p - delta |> in
    if invincibilityTimer p <=? 0 then p <| isInvincible := false |> else p
  else p.

(** [update()], with [delta = this.scene.game.loop.delta]. *)
Definition update (delta : Q) (inp : Input) (env : Env) (p : t) : t :=
  let p := updateTimers delta p in
  let p := handleDebugHurt inp p in
  let p := handleCounterDodge inp env p in
  let p := handleDodge inp p in
  let p := handleMatrixDodge inp p in
  let p := handleAttack inp p in
  let p := handleMovement inp p in
  let p := handleJump delta inp p in
  let p := updateState p in
  updateFacing p.

Definition takeDamage (amount attackerX : Q) (p : t) : t :=
  if isInvincible p || (currentHealth p <=? 0) then p
  else
    let p := p <| currentHealth := Num.Math_max 0 (currentHealth p - amount) |> in
    let knockbackDirection : Q := if x p <? attackerX then -1 else 1 in
    let p := p <| velocityX := knockbackDirection * CONFIG.KNOCKBACK_FORCE |> in
    let p := p <| isInvincible := true |> in
    let p := p <| invincibilityTimer := CONFIG.INVINCIBILITY_DURATION |> in
    let p := triggerHurt p in
    if currentHealth p <=? 0 then
      let p := p <| currentState := DEAD |> in
      let p := p <| velocityX := 0 |> <| velocityY := 0 |> in
      p <| accelerationX := 0 |> <| accelerationY := 0 |>
    else p.

Definition getAttackHitbox (p : t) : option Rectangle :=
  if negb (PlayerState_eqb (currentState p) ATTACKING) then None
  else
    match currentAttackType p, currentFrame p with
    | None, _ => None
    | _, None => None
    | Some attack, Some frame =>
        let hit (hitboxWidth hitboxHeight offsetX offsetY : Q) :=
          let hitboxX := x p + offsetX - hitboxWidth / 2 in
          let hitboxY := y p + offsetY - hitboxHeight / 2 in
          Some {| rect_x := hitboxX; rect_y := hitboxY;
                  rect_width := hitboxWidth; rect_height := hitboxHeight |} in
        match attack with
        | Punch =>
            if String.eqb (animKey p) "juan-punch" &&
               (index frame >=? 2)%Z && (index frame <=? 3)%Z
            then hit 100 60 (if facingRight p then 60 else -60) (-30)
            else None
        | Uppercut =>
            if String.eqb (animKey p) "juan-uppercut" &&
               (index frame >=? 1)%Z && (index frame <=? 3)%Z
            then hit 70 80 (if facingRight p then 40 else -40) (-50)
            else None
        | AerialPunch =>
            if String.eqb (animKey p) "juan-aerial-punch" &&
               (String.eqb (frame_name frame) "windup" ||
                String.eqb (frame_name frame) "punch")
            then hit 100 60 (if facingRight p then 60 else -60) (-30)
            else None
        end
    end.

Definition getAttackDamage (p : t) : Q :=
  match currentAttackType p with
  | None => 0
  | Some Punch => DAMAGE.PUNCH
  | Some Uppercut => DAMAGE.UPPERCUT
  | Some AerialPunch => DAMAGE.AERIAL_PUNCH
  end.

(** [getAttackType()]: the attack-type string handed to the enemy. *)
Definition getAttackType (p : t) : option string :=
  match currentAttackType p with
  | None => None
  | Some Punch => Some "punch"%string
  | Some Uppercut => Some "uppercut"%string
  | Some AerialPunch => Some "aerial-punch"%string
  end.

Definition getCurrentHealth (p : t) : Q := currentHealth p.
Definition getMaxHealth (p : t) : Q := maxHealth p.
Definition isDead (p : t) : bool := currentHealth p <=? 0.
Definition getIsInvincible (p : t) : bool := isInvincible p.
Definition getState (p : t) : PlayerState := currentState p.

(** *** What the engine does to a player between and around [update()] *)

Definition runAnimCallback (cb : AnimCallback) (p : t) : t :=
  match cb with
  | ReturnToIdle =>
      let p := p <| currentState := IDLE |> in
      play "juan-idle" p
  | AttackFinished =>
      let p := p <| currentAttackType := None |> in
      onAttackComplete p
  end.

(** The sprite emits [animationcomplete]: the [once] listeners registered
    so far are removed and run in registration order; a listener that one
    of them registers waits for the next emission. *)
Definition emitAnimationComplete (p : t) : t :=
  fold_left (fun q cb => runAnimCallback cb q)
            (animationcomplete p)
            (p <| animationcomplete := [] |>).

Definition runTimerCallback (rnd : Q) (cb : TimerCallback) (p : t) : t :=
  match cb with
  | DelayedCounterDodge => performCounterDodge true rnd p
  end.

(** The scene clock advances by [delta]: every delayed call whose delay has
    elapsed is removed and run, the others keep waiting. *)
Definition advanceClock (delta rnd : Q) (p : t) : t :=
  let aged := map (fun dc => (fst dc - delta, snd dc)) (delayedCalls p) in
  let due := filter (fun dc => fst dc <=? 0) aged in
  let waiting := filter (fun dc => negb (fst dc <=? 0)) aged in
  fold_left (fun q dc => runTimerCallback rnd (snd dc) q)
            due
            (p <| delayedCalls := waiting |>).

(** What the Arcade physics step may write: position, velocity and ground
    contact of the body. *)
Record BodyStep := {
  new_x : Q;
  new_y : Q;
  new_velocityX : Q;
  new_velocityY : Q;
  new_blockedDown : bool;
}.

Definition physicsStep (b : BodyStep) (p : t) : t :=
  p <| x := new_x b |> <| y := new_y b |>
    <| velocityX := new_velocityX b |> <| velocityY := new_velocityY b |>
    <| blockedDown := new_blockedDown b |>.

(** Everything that can happen to a player.
    - [Frame]: one game-loop step: the scene clock advances by [delta]
      (delayed calls fire), then [update()] runs with the same [delta];
    - [AnimationComplete]: the sprite's animation ends;
    - [AnimationFrame f]: the animation moves to frame [f];
    - [Physics b]: the physics engine moves the body;
    - [TakeDamage amount attackerX]: a caller deals damage. *)
Inductive Event :=
| Frame (delta : Q) (inp : Input) (env : Env) (clockRandom : Q)
| AnimationComplete
| AnimationFrameChange (f : AnimationFrame)
| Physics (b : BodyStep)
| TakeDamage (amount attackerX : Q).

Definition step (ev : Event) (p : t) : t :=
  match ev with
  | Frame delta inp env rnd => update delta inp env (advanceClock delta rnd p)
  | AnimationComplete => emitAnimationComplete p
  | AnimationFrameChange f => p <| currentFrame := Some f |>
  | Physics b => physicsStep b p
  | TakeDamage amount attackerX => takeDamage amount attackerX p
  end.

Definition run (evs : list Event) (p : t) : t :=
  fold_left (fun q ev => step ev q) evs p.

(** *** Vocabulary for scenarios over runs *)

(** The game time a run takes: the sum of the [delta]s of its frames. *)
Definition elapsed (evs : list Event) : Q :=
  fold_right (fun ev acc =>
                match ev with
                | Frame delta _ _ _ => delta + acc
                | _ => acc
                end) 0 evs.

(** Time does not run backwards. *)
Definition forward (ev : Event) : Prop :=
  match ev with
  | Frame delta _ _ _ => 0 <= delta
  | _ => True
  end.

(** The time-until-attack callback never answers a negative time (as
    GameScene.getTimeUntilEnemyAttack never does). *)
Definition warningTimeNonNegative (ev : Event) : Prop :=
  match ev with
  | Frame _ _ env _ =>
      match getTimeUntilEnemyAttack env with
      | Some d => 0 <= d
      | None => True
      end
  | _ => True
  end.

(** The times of the frame are whole numbers of milliseconds: the [delta]
    of the loop and, with the scene's callback installed, the time until
    the enemy attacks. *)
Definition wholeTimes (ev : Event) : Prop :=
  match ev with
  | Frame delta _ env _ =>
      Num.whole delta = true /\
      match getTimeUntilEnemyAttack env with
      | Some d => Num.whole d = true
      | None => True
      end
  | _ => True
  end.

(** The punch key is not pressed. *)
Definition noPunchPress (ev : Event) : Prop :=
  match ev with
  | Frame _ inp _ _ => isPunchPressed inp = false
  | _ => True
  end.

(** The jump key is not pressed and the body does not touch the ground. *)
Definition inFlight (ev : Event) : Prop :=
  match ev with
  | Frame _ inp _ _ => isJumpPressed inp = false
  | Physics b => new_blockedDown b = false
  | _ => True
  end.

(** No key is pressed or held. *)
Definition noInput : Input := {|
  isDebugHurtPressed := false;
  isDebugHurtStomachPressed := false;
  isCounterDodgePressed := false;
  isDodgePressed := false;
  isMatrixDodgePressed := false;
  isPunchPressed := false;
  isUppercutPressed := false;
  isMovingLeft := false;
  isMovingRight := false;
  isJumpPressed := false;
|}.

(** No enemy is showing a warning. *)
Definition calm : Env := {|
  isAnyEnemyShowingWarning := Some false;
  getTimeUntilEnemyAttack := Some 0;
  random := 0;
|}.

(** An enemy is showing a warning and attacks in [T] ms. *)
Definition warned (T : Q) : Env := {|
  isAnyEnemyShowingWarning := Some true;
  getTimeUntilEnemyAttack := Some T;
  random := 0;
|}.

(** One key pressed, the others up. *)
Definition punchKey : Input := noInput <| isPunchPressed := true |>.
Definition jumpKey : Input := noInput <| isJumpPressed := true |>.
Definition counterDodgeKey : Input := noInput <| isCounterDodgePressed := true |>.

(** The body at rest on the ground at [(x0, y0)], and falling at that place. *)
Definition standing (x0 y0 : Q) : BodyStep := {|
  new_x := x0; new_y := y0;
  new_velocityX := 0; new_velocityY := 0;
  new_blockedDown := true;
|}.

Definition falling (x0 y0 : Q) : BodyStep := {|
  new_x := x0; new_y := y0;
  new_velocityX := 0; new_velocityY := 200;
  new_blockedDown := false;
|}.

(** [n] frames of [delta] ms with no key pressed and no warning showing. *)
Definition idleFrames (n : nat) (delta : Q) : list Event :=
  repeat (Frame delta noInput calm 0) n.

(** The counter-dodge key is not pressed. *)
Definition noCounterDodgePress (ev : Event) : Prop :=
  match ev with
  | Frame _ inp _ _ => isCounterDodgePressed inp = false
  | _ => True
  end.

(** The event is no [takeDamage] call. *)
Definition noDamage (ev : Event) : Prop :=
  match ev with
  | TakeDamage _ _ => False
  | _ => True
  end.

End Player.

(** ** Enemy (Enemy.ts) *)

Module Enemy.

Module CONFIG.
Definition FRAME_WIDTH : Q := 200.
Definition FRAME_HEIGHT : Q := 400.
Definition SCALE : Q := 8 # 10.
Definition BODY_WIDTH : Q := 100.
Definition BODY_HEIGHT : Q := 220.
Definition MOVE_SPEED : Q := 250.
Definition ACCELERATION : Q := 1200.
Definition DRAG : Q := 800.
Definition JUMP_VELOCITY : Q := -650.
Definition MAX_HEALTH : Q := 300.
Definition INVINCIBILITY_DURATION : Q := 800.
Definition KNOCKBACK_FORCE : Q := 250.
Definition ATTACK_WARNING_DURATION : Q := 500.
End CONFIG.

Inductive EnemyState :=
| IDLE | RUNNING | JUMPING | FALLING | ATTACKING | HURT.

Definition EnemyState_eqb (a b : EnemyState) : bool :=
  match a, b with
  | IDLE, IDLE | RUNNING, RUNNING | JUMPING, JUMPING | FALLING, FALLING
  | ATTACKING, ATTACKING | HURT, HURT => true
  | _, _ => false
  end.

(** ['punch' | 'sidekick' | 'jump_sidekick'] *)
Inductive AttackType := Punch | Sidekick | JumpSidekick.

(** ['punch' | 'sidekick'], the type of [pendingAttack]. *)
Inductive PendingAttack := PendingPunch | PendingSidekick.

(** The closures registered with [sprite.once('animationcomplete', ...)]:
    - [AttackFinished]:
      [() => { currentAttackType = null; currentState = IDLE; sprite.play('enemy-idle') }]
      (performPunch, performSidekick);
    - [ReturnToIdle]: [() => { currentState = IDLE; sprite.play('enemy-idle') }]
      (triggerHurt, triggerHurtStomach). *)
Inductive AnimCallback := AttackFinished | ReturnToIdle.

(** The warning tween of showAttackWarning as [scene.tweens.add] is asked
    for it: its [duration], its [yoyo] flag, and the attack its
    [onComplete] closure was built for
    ([() => { hideAttackWarning(); callback() }]).  When the tween completes
    is the tween manager's business, see [TweenComplete] below. *)
Record Tween := {
  duration : Q;
  yoyo : bool;
  onComplete : PendingAttack;
}.

Record t := {
  currentState : EnemyState;
  facingRight : bool;
  maxHealth : Q;
  currentHealth : Q;
  isInvincible : bool;
  invincibilityTimer : Q;
  currentAttackType : option AttackType;
  (* warning system; the container and the graphics are objects or null *)
  warningContainer : bool;
  warningGraphics : bool;
  warningVisible : bool;
  pendingAttack : option PendingAttack;
  warningTween : option Tween;
  attackExecuteTime : Q;
  (* AI control *)
  aiMovementDirection : Z;
  aiJumpRequested : bool;
  targetX : option Q;
  (* sprite *)
  x : Q;
  y : Q;
  flipX : bool;
  animKey : string;
  currentFrame : option AnimationFrame;
  animationcomplete : list AnimCallback;
  (* sprite.body *)
  velocityX : Q;
  velocityY : Q;
  accelerationX : Q;
  accelerationY : Q;
  blockedDown : bool;
  bodyWidth : Q;
  bodyHeight : Q;
}.

Record Input := {
  isEnemyMovingLeft : bool;
  isEnemyMovingRight : bool;
  isEnemyJumpPressed : bool;
  isEnemyPunchPressed : bool;
  isEnemySidekickPressed : bool;
}.

(** [new Enemy(scene, x, y, inputManager)]; the constructor builds the
    warning container and its graphics. *)
Definition new (x0 y0 : Q) : t := {|
  currentState := IDLE;
  facingRight := false;
  maxHealth := CONFIG.MAX_HEALTH;
  currentHealth := CONFIG.MAX_HEALTH;
  isInvincible := false;
  invincibilityTimer := 0;
  currentAttackType := None;
  warningContainer := true;
  warningGraphics := true;
  warningVisible := false;
  pendingAttack := None;
  warningTween := None;
  attackExecuteTime := 0;
  aiMovementDirection := 0;
  aiJumpRequested := false;
  targetX := None;
  x := x0;
  y := y0;
  flipX := false;
  animKey := "enemy-idle";
  currentFrame := Some firstFrame;
  animationcomplete := [];
  velocityX := 0;
  velocityY := 0;
  accelerationX := 0;
  accelerationY := 0;
  blockedDown := false;
  bodyWidth := CONFIG.BODY_WIDTH * CONFIG.SCALE;
  bodyHeight := CONFIG.BODY_HEIGHT * CONFIG.SCALE;
|}.

(** The sprite sheets PreloadScene loads for the enemy.  createAnimations
    also builds 'enemy-jump-sidekick' and 'enemy-getting-punched-stomach',
    from textures that no scene loads: these two animations have no
    frames. *)
Definition loaded (key : string) : bool :=
  String.eqb key "enemy-idle" || String.eqb key "enemy-running" ||
  String.eqb key "enemy-punch" || String.eqb key "enemy-sidekick" ||
  String.eqb key "enemy-getting-punched".

(** [sprite.play(key)].  Phaser makes the animation the current one and
    takes its first frame; for an animation without frames there is none,
    and [play] throws a TypeError when it starts the animation. *)
Definition play (key : string) (e : t) : t :=
  e <| animKey := key |>
    <| currentFrame := if loaded key then Some firstFrame else None |>.

Definition playThrows (key : string) : bool := negb (loaded key).

Definition once (cb : AnimCallback) (e : t) : t :=
  e <| animationcomplete ::= fun l => l ++ [cb] |>.

(** [sprite.play(key)] and the statements of the method that follow it,
    which an exception of [play] skips.  Every method below gives the enemy
    as its call leaves it, by returning or by throwing, and has a twin
    [...Throws] that tells which of the two it is. *)
Definition playThen (key : string) (rest : t -> t) (e : t) : t :=
  let e := play key e in
  if playThrows key then e else rest e.

Definition isShowingWarning (e : t) : bool :=
  match pendingAttack e with
  | Some _ => true
  | None => false
  end.

Definition getTimeUntilAttack (now : Q) (e : t) : Q :=
  if negb (isShowingWarning e) then 0
  else Num.Math_max 0 (attackExecuteTime e - now).

Definition isDead (e : t) : bool := currentHealth e <=? 0.
Definition getIsInvincible (e : t) : bool := isInvincible e.
Definition getCurrentHealth (e : t) : Q := currentHealth e.
Definition getMaxHealth (e : t) : Q := maxHealth e.
Definition getState (e : t) : EnemyState := currentState e.
Definition getX (e : t) : Q := x e.
Definition getY (e : t) : Q := y e.
Definition isFacingRight (e : t) : bool := facingRight e.
Definition isAttacking (e : t) : bool := EnemyState_eqb (currentState e) ATTACKING.
Definition getAIMovementDirection (e : t) : Z := aiMovementDirection e.

Definition canAttack (e : t) : bool :=
  negb (EnemyState_eqb (currentState e) ATTACKING) &&
  negb (EnemyState_eqb (currentState e) HURT) &&
  (currentHealth e >? 0) &&
  negb (isShowingWarning e).

Definition canJump (e : t) : bool :=
  blockedDown e && (currentHealth e >? 0).

Definition performPunch (e : t) : t :=
  let e := e <| currentState := ATTACKING |> in
  let e := e <| currentAttackType := Some Punch |> in
  playThen "enemy-punch" (once AttackFinished) e.

Definition performPunchThrows (e : t) : bool := playThrows "enemy-punch".

(** [body.onFloor()] is [body.blocked.down]. *)
Definition performSidekick (e : t) : t :=
  let isAirborne := negb (blockedDown e) in
  let isRunning := Num.Math_abs (velocityX e) >? 50 in
  let e := e <| currentState := ATTACKING |> in
  if isAirborne || isRunning then
    let e := e <| currentAttackType := Some JumpSidekick |> in
    playThen "enemy-jump-sidekick" (once AttackFinished) e
  else
    let e := e <| currentAttackType := Some Sidekick |> in
    playThen "enemy-sidekick" (once AttackFinished) e.

Definition performSidekickThrows (e : t) : bool :=
  let isAirborne := negb (blockedDown e) in
  let isRunning := Num.Math_abs (velocityX e) >? 50 in
  if isAirborne || isRunning then playThrows "enemy-jump-sidekick"
  else playThrows "enemy-sidekick".

(** The closure handed to showAttackWarning by [punch()] / [sidekick()]:
    [() => { if (this.canAttack()) this.performPunch() }] and its sidekick
    twin. *)
Definition warningCallback (a : PendingAttack) (e : t) : t :=
  if canAttack e then
    match a with
    | PendingPunch => performPunch e
    | PendingSidekick => performSidekick e
    end
  else e.

Definition warningCallbackThrows (a : PendingAttack) (e : t) : bool :=
  if canAttack e then
    match a with
    | PendingPunch => performPunchThrows e
    | PendingSidekick => performSidekickThrows e
    end
  else false.

Definition hideAttackWarning (e : t) : t :=
  let e := if warningContainer e then e <| warningVisible := false |> else e in
  let e := e <| pendingAttack := None |> in
  match warningTween e with
  | Some _ => e <| warningTween := None |>
  | None => e
  end.

(** [showAttackWarning(attackType, callback)], with [now = scene.time.now].
    The tween is asked to run [ATTACK_WARNING_DURATION / 2] forward and,
    being a yoyo, back again before [onComplete]. *)
Definition showAttackWarning (a : PendingAttack) (now : Q) (e : t) : t :=
  if negb (warningContainer e) || negb (warningGraphics e) then
    warningCallback a e
  else
    let e := e <| pendingAttack := Some a |> in
    let e := e <| warningVisible := true |> in
    let e := e <| attackExecuteTime := now + CONFIG.ATTACK_WARNING_DURATION |> in
    e <| warningTween :=
           Some {| duration := CONFIG.ATTACK_WARNING_DURATION / 2;
                   yoyo := true;
                   onComplete := a |} |>.

Definition showAttackWarningThrows (a : PendingAttack) (e : t) : bool :=
  if negb (warningContainer e) || negb (warningGraphics e) then
    warningCallbackThrows a e
  else false.

(** [punch()]; when it throws, the flag of the pair is not returned. *)
Definition punch (now : Q) (e : t) : bool * t :=
  if negb (canAttack e) || isShowingWarning e then (false, e)
  else (true, showAttackWarning PendingPunch now e).

Definition punchThrows (e : t) : bool :=
  if negb (canAttack e) || isShowingWarning e then false
  else showAttackWarningThrows PendingPunch e.

Definition sidekick (now : Q) (e : t) : bool * t :=
  if negb (canAttack e) || isShowingWarning e then (false, e)
  else (true, showAttackWarning PendingSidekick now e).

Definition sidekickThrows (e : t) : bool :=
  if negb (canAttack e) || isShowingWarning e then false
  else showAttackWarningThrows PendingSidekick e.

Definition jump (e : t) : bool * t :=
  if negb (canJump e) then (false, e)
  else (true, e <| aiJumpRequested := true |>).

Definition startMovingLeft (e : t) : t := e <| aiMovementDirection := (-1)%Z |>.
Definition startMovingRight (e : t) : t := e <| aiMovementDirection := 1%Z |>.

Definition stopMoving (e : t) : t :=
  e <| aiMovementDirection := 0%Z |> <| targetX := None |>.

Definition moveLeftBy (pixels : Q) (e : t) : t :=
  e <| targetX := Some (x e - pixels) |> <| aiMovementDirection := (-1)%Z |>.

Definition moveRightBy (pixels : Q) (e : t) : t :=
  e <| targetX := Some (x e + pixels) |> <| aiMovementDirection := 1%Z |>.

Definition setFacing (right : bool) (e : t) : t :=
  e <| facingRight := right |> <| flipX := negb right |>.

Definition handleAttack (now : Q) (inp : Input) (e : t) : t :=
  if EnemyState_eqb (currentState e) ATTACKING ||
     EnemyState_eqb (currentState e) HURT ||
     (currentHealth e <=? 0) ||
     isShowingWarning e then e
  else if isEnemyPunchPressed inp then snd (punch now e)
  else if isEnemySidekickPressed inp then snd (sidekick now e)
  else e.

Definition handleAttackThrows (inp : Input) (e : t) : bool :=
  if EnemyState_eqb (currentState e) ATTACKING ||
     EnemyState_eqb (currentState e) HURT ||
     (currentHealth e <=? 0) ||
     isShowingWarning e then false
  else if isEnemyPunchPressed inp then punchThrows e
  else if isEnemySidekickPressed inp then sidekickThrows e
  else false.

Definition isJumpSidekick (e : t) : bool :=
  match currentAttackType e with
  | Some JumpSidekick => true
  | _ => false
  end.

Definition handleMovement (inp : Input) (e : t) : t :=
  if EnemyState_eqb (currentState e) HURT ||
     (EnemyState_eqb (currentState e) ATTACKING && negb (isJumpSidekick e)) then
    e <| accelerationX := 0 |>
  else
    let reachedTarget :=
      match targetX e with
      | Some tx =>
          ((aiMovementDirection e =? -1)%Z && (x e <=? tx)) ||
          ((aiMovementDirection e =? 1)%Z && (x e >=? tx))
      | None => false
      end in
    if reachedTarget then
      e <| aiMovementDirection := 0%Z |> <| targetX := None |>
        <| accelerationX := 0 |> <| velocityX := 0 |>
    else
      let movingLeft := isEnemyMovingLeft inp || (aiMovementDirection e =? -1)%Z in
      let movingRight := isEnemyMovingRight inp || (aiMovementDirection e =? 1)%Z in
      if movingLeft then
        let e := e <| accelerationX := - CONFIG.ACCELERATION |> in
        if negb (isJumpSidekick e) then e <| facingRight := false |> else e
      else if movingRight then
        let e := e <| accelerationX := CONFIG.ACCELERATION |> in
        if negb (isJumpSidekick e) then e <| facingRight := true |> else e
      else
        if negb (isJumpSidekick e) then e <| accelerationX := 0 |> else e.

Definition handleJump (inp : Input) (e : t) : t :=
  let jumpRequested := isEnemyJumpPressed inp || aiJumpRequested e in
  let e := if aiJumpRequested e then e <| aiJumpRequested := false |> else e in
  if jumpRequested && blockedDown e
  then e <| velocityY := CONFIG.JUMP_VELOCITY |>
  else e.

Definition playAnimationForState (e : t) : t :=
  match currentState e with
  | IDLE =>
      if negb (String.eqb (animKey e) "enemy-idle") then play "enemy-idle" e else e
  | RUNNING =>
      if negb (String.eqb (animKey e) "enemy-running")
      then play "enemy-running" e else e
  | JUMPING | FALLING =>
      if negb (String.eqb (animKey e) "enemy-idle") then play "enemy-idle" e else e
  | _ => e
  end.

Definition updateState (e : t) : t :=
  if EnemyState_eqb (currentState e) ATTACKING ||
     EnemyState_eqb (currentState e) HURT then e
  else
    let previousState := currentState e in
    let e :=
      if negb (blockedDown e) then
        e <| currentState := if velocityY e <? 0 then JUMPING else FALLING |>
      else
        e <| currentState :=
               if Num.Math_abs (velocityX e) >? 10 then RUNNING else IDLE |> in
    if negb (EnemyState_eqb (currentState e) previousState)
    then playAnimationForState e
    else e.

Definition updateFacing (e : t) : t :=
  let shouldFlip := negb (facingRight e) in
  if negb (Bool.eqb (flipX e) shouldFlip) then e <| flipX := shouldFlip |> else e.

(** [update()], with [delta = scene.game.loop.delta], [now = scene.time.now].
    The constructor builds the warning container and its graphics and
    nothing clears them; with them handleAttack only starts a warning and
    nothing in [update()] throws.  An enemy without them, which the program
    never has, would run the attack at once, and its [play] could throw out
    of [update()]: [updateThrows] says when, and for that case alone
    [update] is not the enemy at the throw but the enemy as if [update()]
    had gone on. *)
Definition update (delta now : Q) (inp : Input) (e : t) : t :=
  let e :=
    if invincibilityTimer e >? 0 then
      let e := e <| invincibilityTimer := invincibilityTimer e - delta |> in
      if invincibilityTimer e <=? 0 then e <| isInvincible := false |> else e
    else e in
  if currentHealth e <=? 0 then e
  else
    let e := handleAttack now inp e in
    let e := handleMovement inp e in
    let e := handleJump inp e in
    let e := updateState e in
    updateFacing e.

Definition updateThrows (delta : Q) (inp : Input) (e : t) : bool :=
  let e :=
    if invincibilityTimer e >? 0 then
      let e := e <| invincibilityTimer := invincibilityTimer e - delta |> in
      if invincibilityTimer e <=? 0 then e <| isInvincible := false |> else e
    else e in
  if currentHealth e <=? 0 then false
  else handleAttackThrows inp e.

Definition triggerHurt (e : t) : t :=
  if EnemyState_eqb (currentState e) HURT then e
  else
    let e := e <| currentState := HURT |> in
    let e := e <| currentAttackType := None |> in
    playThen "enemy-getting-punched" (once ReturnToIdle) e.

Definition triggerHurtThrows (e : t) : bool :=
  if EnemyState_eqb (currentState e) HURT then false
  else playThrows "enemy-getting-punched".

Definition triggerHurtStomach (e : t) : t :=
  if EnemyState_eqb (currentState e) HURT then e
  else
    let e := e <| currentState := HURT |> in
    let e := e <| currentAttackType := None |> in
    playThen "enemy-getting-punched-stomach" (once ReturnToIdle) e.

Definition triggerHurtStomachThrows (e : t) : bool :=
  if EnemyState_eqb (currentState e) HURT then false
  else playThrows "enemy-getting-punched-stomach".

(** Whether the hurt animation that [takeDamage] asks for by [attackType]
    throws. *)
Definition hurtThrows (attackType : option string) (e : t) : bool :=
  match attackType with
  | Some ty =>
      if String.eqb ty "sidekick" || String.eqb ty "uppercut" then triggerHurtThrows e
      else if negb (String.eqb ty "") then triggerHurtStomachThrows e
      else false
  | None => false
  end.

(** [takeDamage(amount, attackerX, attackType?)]; an absent [attackType] is
    [None], and the empty string is the one string that is not truthy.  An
    exception of the hurt animation leaves [takeDamage] before the check for
    death. *)
Definition takeDamage (amount attackerX : Q) (attackType : option string) (e : t) : t :=
  if isInvincible e || (currentHealth e <=? 0) then e
  else
    let e := e <| currentHealth := Num.Math_max 0 (currentHealth e - amount) |> in
    let knockbackDirection : Q := if x e <? attackerX then -1 else 1 in
    let e := e <| velocityX := knockbackDirection * CONFIG.KNOCKBACK_FORCE |> in
    let e := e <| isInvincible := true |> in
    let e := e <| invincibilityTimer := CONFIG.INVINCIBILITY_DURATION |> in
    let threw := hurtThrows attackType e in
    let e :=
      match attackType with
      | Some ty =>
          if String.eqb ty "sidekick" || String.eqb ty "uppercut" then triggerHurt e
          else if negb (String.eqb ty "") then triggerHurtStomach e
          else e
      | None => e
      end in
    if threw then e
    else if currentHealth e <=? 0 then
      let e := e <| velocityX := 0 |> <| velocityY := 0 |> in
      e <| accelerationX := 0 |> <| accelerationY := 0 |>
    else e.

Definition takeDamageThrows (attackType : option string) (e : t) : bool :=
  if isInvincible e || (currentHealth e <=? 0) then false
  else hurtThrows attackType e.

Definition getAttackHitbox (e : t) : option Rectangle :=
  if negb (EnemyState_eqb (currentState e) ATTACKING) then None
  else
    match currentAttackType e, currentFrame e with
    | None, _ => None
    | _, None => None
    | Some _, Some frame =>
        let hit (hitboxWidth hitboxHeight offsetX offsetY : Q) :=
          let hitboxX := x e + offsetX - hitboxWidth / 2 in
          let hitboxY := y e + offsetY - hitboxHeight / 2 in
          Some {| rect_x := hitboxX; rect_y := hitboxY;
                  rect_width := hitboxWidth; rect_height := hitboxHeight |} in
        if String.eqb (animKey e) "enemy-punch" &&
           String.eqb (frame_name frame) "punch_extend" then
          hit 100 60 (if facingRight e then 70 else -70) (-30)
        else if String.eqb (animKey e) "enemy-sidekick" &&
                (String.eqb (frame_name frame) "kick_extend" ||
                 String.eqb (frame_name frame) "kick_follow") then
          hit 120 80 (if facingRight e then 90 else -90) (-40)
        else if String.eqb (animKey e) "enemy-jump-sidekick" &&
                String.eqb (frame_name frame) "jump_kick_extend" then
          hit 140 100 (if facingRight e then 100 else -100) (-20)
        else None
    end.

Definition getAttackDamage (e : t) : Q :=
  match currentAttackType e with
  | Some Punch => 10
  | Some Sidekick => 15
  | Some JumpSidekick => 20
  | None => 0
  end.

(** *** What the engine and the callers do to an enemy *)

Definition runAnimCallback (cb : AnimCallback) (e : t) : t :=
  match cb with
  | AttackFinished =>
      let e := e <| currentAttackType := None |> in
      let e := e <| currentState := IDLE |> in
      play "enemy-idle" e
  | ReturnToIdle =>
      let e := e <| currentState := IDLE |> in
      play "enemy-idle" e
  end.

Definition emitAnimationComplete (e : t) : t :=
  fold_left (fun q cb => runAnimCallback cb q)
            (animationcomplete e)
            (e <| animationcomplete := [] |>).

(** The tween manager completes the warning tween: its [onComplete] hides
    the warning and runs the closure of [punch()] / [sidekick()].  A tween
    that hideAttackWarning or a new showAttackWarning destroyed completes
    no more. *)
Definition completeWarningTween (e : t) : t :=
  match warningTween e with
  | None => e
  | Some tw => warningCallback (onComplete tw) (hideAttackWarning e)
  end.

Definition completeWarningTweenThrows (e : t) : bool :=
  match warningTween e with
  | None => false
  | Some tw => warningCallbackThrows (onComplete tw) (hideAttackWarning e)
  end.

Record BodyStep := {
  new_x : Q;
  new_y : Q;
  new_velocityX : Q;
  new_velocityY : Q;
  new_blockedDown : bool;
}.

Definition physicsStep (b : BodyStep) (e : t) : t :=
  e <| x := new_x b |> <| y := new_y b |>
    <| velocityX := new_velocityX b |> <| velocityY := new_velocityY b |>
    <| blockedDown := new_blockedDown b |>.

(** Everything that can happen to an enemy: the engine's steps, damage,
    and the public action surface the AI controller drives.
    [TweenComplete] is the moment the tween manager finds the warning tween
    complete; that moment is Phaser's to choose (its tween runs on the
    manager's own steps of the clock), and no event sequence is excluded
    here. *)
Inductive Event :=
| TweenComplete
| Update (delta now : Q) (inp : Input)
| AnimationComplete
| AnimationFrameChange (f : AnimationFrame)
| Physics (b : BodyStep)
| TakeDamage (amount attackerX : Q) (attackType : option string)
| CallPunch (now : Q)
| CallSidekick (now : Q)
| CallJump
| CallStartMovingLeft
| CallStartMovingRight
| CallStopMoving
| CallMoveLeftBy (pixels : Q)
| CallMoveRightBy (pixels : Q)
| CallSetFacing (right : bool).

Definition step (ev : Event) (e : t) : t :=
  match ev with
  | TweenComplete => completeWarningTween e
  | Update delta now inp => update delta now inp e
  | AnimationComplete => emitAnimationComplete e
  | AnimationFrameChange f => e <| currentFrame := Some f |>
  | Physics b => physicsStep b e
  | TakeDamage amount attackerX ty => takeDamage amount attackerX ty e
  | CallPunch now => snd (punch now e)
  | CallSidekick now => snd (sidekick now e)
  | CallJump => snd (jump e)
  | CallStartMovingLeft => startMovingLeft e
  | CallStartMovingRight => startMovingRight e
  | CallStopMoving => stopMoving e
  | CallMoveLeftBy px => moveLeftBy px e
  | CallMoveRightBy px => moveRightBy px e
  | CallSetFacing r => setFacing r e
  end.

(** Whether the event ends in an exception of [sprite.play]. *)
Definition throws (ev : Event) (e : t) : bool :=
  match ev with
  | TweenComplete => completeWarningTweenThrows e
  | Update delta now inp => updateThrows delta inp e
  | TakeDamage amount attackerX ty => takeDamageThrows ty e
  | CallPunch now => punchThrows e
  | CallSidekick now => sidekickThrows e
  | _ => false
  end.

Definition run (evs : list Event) (e : t) : t :=
  fold_left (fun q ev => step ev q) evs e.

(** *** Vocabulary for scenarios over runs *)

(** [punch()] or [sidekick()], by the attack asked for. *)
Definition request (a : PendingAttack) (now : Q) (e : t) : bool * t :=
  match a with
  | PendingPunch => punch now e
  | PendingSidekick => sidekick now e
  end.

(** [performPunch()] or [performSidekick()]. *)
Definition perform (a : PendingAttack) (e : t) : t :=
  match a with
  | PendingPunch => performPunch e
  | PendingSidekick => performSidekick e
  end.


(** The event is not the completion of the warning tween. *)
Definition tweenRuns (ev : Event) : Prop :=
  match ev with
  | TweenComplete => False
  | _ => True
  end.

(** Time does not run backwards. *)
Definition forward (ev : Event) : Prop :=
  match ev with
  | Update delta _ _ => 0 <= delta
  | _ => True
  end.

(** The [delta] of the loop is a whole number of milliseconds. *)
Definition wholeTimes (ev : Event) : Prop :=
  match ev with
  | Update delta _ _ => Num.whole delta = true
  | _ => True
  end.

(** The game time the enemy's [update()] has seen during a run. *)
Definition updateTime (evs : list Event) : Q :=
  fold_right (fun ev acc =>
                match ev with
                | Update delta _ _ => delta + acc
                | _ => acc
                end) 0 evs.

(** The event is no [takeDamage] call. *)
Definition noDamage (ev : Event) : Prop :=
  match ev with
  | TakeDamage _ _ _ => False
  | _ => True
  end.

(** Neither attack key of the enemy is pressed. *)
Definition attackKeysUp (inp : Input) : Prop :=
  isEnemyPunchPressed inp = false /\ isEnemySidekickPressed inp = false.

End Enemy.

(** ** EnemyAIController (EnemyAIController.ts) *)

Module EnemyAIController.

Module AI_CONFIG.
Definition IDLE_TO_CHASE_DISTANCE : Q := 2000.
Definition CHASE_TO_IDLE_DISTANCE : Q := 600.
Definition ATTACK_DISTANCE : Q := 120.
Definition DISTANCE_VARIANCE : Q := 30.
Definition ATTACK_COOLDOWN : Q := 800.
Definition RETREAT_DURATION : Q := 500.
Definition ATTACK_PAUSE_CHANCE : Q := 3 # 10.
Definition ATTACK_PAUSE_DURATION : Q := 200.
Definition RETREAT_CHANCE : Q := 25 # 100.
Definition JUMP_WHILE_CHASING_CHANCE : Q := 2 # 100.
Definition LOW_HEALTH_THRESHOLD : Q := 3 # 10.
Definition LOW_HEALTH_RETREAT_CHANCE : Q := 4 # 10.
End AI_CONFIG.

Inductive AIState := IDLE | CHASE | ATTACK | RETREAT.

Definition AIState_eqb (a b : AIState) : bool :=
  match a, b with
  | IDLE, IDLE | CHASE, CHASE | ATTACK, ATTACK | RETREAT, RETREAT => true
  | _, _ => false
  end.

(** The two closures performAttack hands to [setTimeout]:
    [() => { if (currentState === ATTACK) transitionTo(RETREAT) }] and
    [() => { if (currentState === ATTACK) transitionTo(CHASE) }]. *)
Inductive TimeoutCallback := RetreatIfAttacking | ChaseIfAttacking.

Record t := {
  currentState : AIState;
  stateTimer : Q;
  attackCooldown : Q;
  lastAttackTime : Q;
  attackPauseTimer : Q;
  isWaitingToAttack : bool;
  (* pending setTimeout calls: time left and closure *)
  timeouts : list (Q * TimeoutCallback);
}.

(** The values [Math.random()] returns at the call sites of one
    [update(delta)], named after the decision each one takes. *)
Record Randoms := {
  varianceRandom : Q;
  jumpRandom : Q;
  pauseRandom : Q;
  pauseDurationRandom : Q;
  attackChoiceRandom : Q;
  retreatRandom : Q;
}.

(** The controller acts on the enemy it holds: its methods map the pair. *)
Definition world : Type := t * Enemy.t.

Definition new : t := {|
  currentState := IDLE;
  stateTimer := 0;
  attackCooldown := AI_CONFIG.ATTACK_COOLDOWN;
  lastAttackTime := 0;
  attackPauseTimer := 0;
  isWaitingToAttack := false;
  timeouts := [];
|}.

Definition transitionTo (newState : AIState) (w : world) : world :=
  let '(ai, enemy) := w in
  let enemy := Enemy.stopMoving enemy in
  let ai := ai <| isWaitingToAttack := false |> in
  let ai := ai <| currentState := newState |> in
  let ai := ai <| stateTimer := 0 |> in
  (ai, enemy).

(** [(Math.random() - 0.5) * 2 * AI_CONFIG.DISTANCE_VARIANCE] *)
Definition variance (rnd : Q) : Q :=
  (rnd - (1 # 2)) * 2 * AI_CONFIG.DISTANCE_VARIANCE.

Definition checkStateTransitions (distance rnd : Q) (w : world) : world :=
  let variance := variance rnd in
  match currentState (fst w) with
  | IDLE =>
      if distance <? AI_CONFIG.IDLE_TO_CHASE_DISTANCE + variance
      then transitionTo CHASE w else w
  | CHASE =>
      if distance <? AI_CONFIG.ATTACK_DISTANCE + variance
      then transitionTo ATTACK w
      else if distance >? AI_CONFIG.CHASE_TO_IDLE_DISTANCE + variance
      then transitionTo IDLE w
      else w
  | ATTACK =>
      if distance >? AI_CONFIG.ATTACK_DISTANCE + 20
      then transitionTo CHASE w else w
  | RETREAT =>
      if stateTimer (fst w) >=? AI_CONFIG.RETREAT_DURATION
      then transitionTo CHASE w else w
  end.

Definition facePlayer (player : Player.t) (enemy : Enemy.t) : Enemy.t :=
  let playerX := Player.x player in
  let enemyX := Enemy.getX enemy in
  Enemy.setFacing (playerX >? enemyX) enemy.

Definition executeIdleBehavior (player : Player.t) (w : world) : world :=
  let '(ai, enemy) := w in
  let enemy := Enemy.stopMoving enemy in
  (ai, facePlayer player enemy).

Definition executeChaseBehavior (rnd : Randoms) (player : Player.t) (w : world) : world :=
  let '(ai, enemy) := w in
  let playerX := Player.x player in
  let enemyX := Enemy.getX enemy in
  let enemy :=
    if playerX <? enemyX then Enemy.startMovingLeft enemy
    else Enemy.startMovingRight enemy in
  let enemy :=
    if jumpRandom rnd <? AI_CONFIG.JUMP_WHILE_CHASING_CHANCE
    then snd (Enemy.jump enemy) else enemy in
  (ai, enemy).

Definition setTimeout (cb : TimeoutCallback) (ms : Q) (ai : t) : t :=
  ai <| timeouts ::= fun l => l ++ [(ms, cb)] |>.

Definition performAttack (now : Q) (rnd : Randoms) (w : world) : world :=
  let '(ai, enemy) := w in
  let '(attackSuccess, enemy) :=
    if attackChoiceRandom rnd <? (1 # 2)
    then Enemy.punch now enemy
    else Enemy.sidekick now enemy in
  if attackSuccess then
    let ai := ai <| lastAttackTime := 0 |> in
    let isLowHealth :=
      Enemy.getCurrentHealth enemy / Enemy.getMaxHealth enemy
      <? AI_CONFIG.LOW_HEALTH_THRESHOLD in
    let retreatChance :=
      if isLowHealth then AI_CONFIG.LOW_HEALTH_RETREAT_CHANCE
      else AI_CONFIG.RETREAT_CHANCE in
    if retreatRandom rnd <? retreatChance
    then (setTimeout RetreatIfAttacking 200 ai, enemy)
    else (setTimeout ChaseIfAttacking 100 ai, enemy)
  else (ai, enemy).

Definition executeAttackBehavior (now : Q) (rnd : Randoms) (player : Player.t)
    (w : world) : world :=
  let '(ai, enemy) := w in
  let enemy := facePlayer player enemy in
  let enemy := Enemy.stopMoving enemy in
  if isWaitingToAttack ai then
    if attackPauseTimer ai <=? 0 then
      let ai := ai <| isWaitingToAttack := false |> in
      performAttack now rnd (ai, enemy)
    else (ai, enemy)
  else if (lastAttackTime ai >=? attackCooldown ai) && Enemy.canAttack enemy then
    if pauseRandom rnd <? AI_CONFIG.ATTACK_PAUSE_CHANCE then
      let ai := ai <| isWaitingToAttack := true |> in
      let ai := ai <| attackPauseTimer :=
                        AI_CONFIG.ATTACK_PAUSE_DURATION
                        * ((1 # 2) + pauseDurationRandom rnd) |> in
      (ai, enemy)
    else performAttack now rnd (ai, enemy)
  else (ai, enemy).

Definition executeRetreatBehavior (player : Player.t) (w : world) : world :=
  let '(ai, enemy) := w in
  let playerX := Player.x player in
  let enemyX := Enemy.getX enemy in
  let enemy :=
    if playerX <? enemyX then Enemy.startMovingRight enemy
    else Enemy.startMovingLeft enemy in
  (ai, facePlayer player enemy).

Definition executeStateBehavior (now : Q) (rnd : Randoms) (player : Player.t)
    (w : world) : world :=
  match currentState (fst w) with
  | IDLE => executeIdleBehavior player w
  | CHASE => executeChaseBehavior rnd player w
  | ATTACK => executeAttackBehavior now rnd player w
  | RETREAT => executeRetreatBehavior player w
  end.

(** [update(delta)]; [now] is the scene time the enemy reads when it starts
    a warning. *)
Definition update (delta now : Q) (rnd : Randoms) (player : Player.t)
    (w : world) : world :=
  let '(ai, enemy) := w in
  if Enemy.isDead enemy then (ai, Enemy.stopMoving enemy)
  else if Player.isDead player then
    let enemy := Enemy.stopMoving enemy in
    (ai <| currentState := IDLE |>, enemy)
  else
    let ai := ai <| stateTimer := stateTimer ai + delta |> in
    let ai := ai <| lastAttackTime := lastAttackTime ai + delta |> in
    let ai :=
      if attackPauseTimer ai >? 0
      then ai <| attackPauseTimer := attackPauseTimer ai - delta |>
      else ai in
    let playerX := Player.x player in
    let enemyX := Enemy.getX enemy in
    let distance := Num.Math_abs (playerX - enemyX) in
    let w := checkStateTransitions distance (varianceRandom rnd) (ai, enemy) in
    executeStateBehavior now rnd player w.

Definition getCurrentState (ai : t) : AIState := currentState ai.

Definition forceState (state : AIState) (w : world) : world :=
  transitionTo state w.

Definition setAttackCooldown (cooldownMs : Q) (ai : t) : t :=
  ai <| attackCooldown := cooldownMs |>.

Definition runTimeoutCallback (cb : TimeoutCallback) (w : world) : world :=
  match cb with
  | RetreatIfAttacking =>
      if AIState_eqb (currentState (fst w)) ATTACK
      then transitionTo RETREAT w else w
  | ChaseIfAttacking =>
      if AIState_eqb (currentState (fst w)) ATTACK
      then transitionTo CHASE w else w
  end.

(** [delta] ms of wall-clock time pass: the timeouts that are due are
    removed and run in the order they were set. *)
Definition advanceTimeouts (delta : Q) (w : world) : world :=
  let '(ai, enemy) := w in
  let aged := map (fun tc => (fst tc - delta, snd tc)) (timeouts ai) in
  let due := filter (fun tc => fst tc <=? 0) aged in
  let waiting := filter (fun tc => negb (fst tc <=? 0)) aged in
  fold_left (fun q tc => runTimeoutCallback (snd tc) q)
            due
            (ai <| timeouts := waiting |>, enemy).

(** The transition table as the design states it: the state that follows
    [state] at [distance] from the player, under the jitter [variance], with
    [timer] ms spent in the state.  [distance > 120 + 20] is the Attack row. *)
Definition transitionTable (state : AIState) (distance variance timer : Q) : AIState :=
  match state with
  | IDLE => if distance <? 2000 + variance then CHASE else IDLE
  | CHASE =>
      if distance <? 120 + variance then ATTACK
      else if distance >? 600 + variance then IDLE
      else CHASE
  | ATTACK => if distance >? 140 then CHASE else ATTACK
  | RETREAT => if timer >=? 500 then CHASE else RETREAT
  end.

End EnemyAIController.

(** ** GameScene (GameScene.ts): hit resolution and the warning queries *)

Module GameScene.

(** The overlap condition written out in checkPlayerAttacks and in
    checkEnemyAttacks: the hitbox against the bounds computed from the
    defender's sprite position and body size. *)
Definition hitboxOverlapsBody (attackHitbox : Rectangle)
    (spriteX spriteY bodyWidth bodyHeight : Q) : bool :=
  let left := spriteX - bodyWidth / 2 in
  let right := spriteX + bodyWidth / 2 in
  let top := spriteY - bodyHeight / 2 in
  let bottom := spriteY + bodyHeight / 2 in
  let hitboxRight := rect_x attackHitbox + rect_width attackHitbox in
  let hitboxBottom := rect_y attackHitbox + rect_height attackHitbox in
  (rect_x attackHitbox <? right) &&
  (hitboxRight >? left) &&
  (rect_y attackHitbox <? bottom) &&
  (hitboxBottom >? top).

(** Whether the body of the [forEach] in checkPlayerAttacks calls
    [takeDamage] on this enemy. *)
Definition playerHits (attackHitbox : Rectangle) (enemy : Enemy.t) : bool :=
  if Enemy.isDead enemy || Enemy.getIsInvincible enemy then false
  else hitboxOverlapsBody attackHitbox
         (Enemy.x enemy) (Enemy.y enemy)
         (Enemy.bodyWidth enemy) (Enemy.bodyHeight enemy).

(** The [forEach] of checkPlayerAttacks over the enemies.  An exception of
    [takeDamage] ends the loop: the enemies after that one are not
    looked at. *)
Fixpoint strikeEnemies (player : Player.t) (attackHitbox : Rectangle)
    (enemies : list Enemy.t) : list Enemy.t :=
  match enemies with
  | [] => []
  | enemy :: enemies =>
      if playerHits attackHitbox enemy then
        let damage := Player.getAttackDamage player in
        let attackType := Player.getAttackType player in
        let enemy' := Enemy.takeDamage damage (Player.x player) attackType enemy in
        if Enemy.takeDamageThrows attackType enemy then enemy' :: enemies
        else enemy' :: strikeEnemies player attackHitbox enemies
      else enemy :: strikeEnemies player attackHitbox enemies
  end.

Fixpoint strikeEnemiesThrows (player : Player.t) (attackHitbox : Rectangle)
    (enemies : list Enemy.t) : bool :=
  match enemies with
  | [] => false
  | enemy :: enemies =>
      if playerHits attackHitbox enemy then
        Enemy.takeDamageThrows (Player.getAttackType player) enemy ||
        strikeEnemiesThrows player attackHitbox enemies
      else strikeEnemiesThrows player attackHitbox enemies
  end.

(** checkPlayerAttacks: the enemies as the call leaves them, by returning
    or by throwing. *)
Definition checkPlayerAttacks (player : Player.t) (enemies : list Enemy.t)
    : list Enemy.t :=
  match Player.getAttackHitbox player with
  | None => enemies
  | Some attackHitbox => strikeEnemies player attackHitbox enemies
  end.

Definition checkPlayerAttacksThrows (player : Player.t) (enemies : list Enemy.t)
    : bool :=
  match Player.getAttackHitbox player with
  | None => false
  | Some attackHitbox => strikeEnemiesThrows player attackHitbox enemies
  end.

Definition checkEnemyAttacks (player : Player.t) (enemies : list Enemy.t)
    : Player.t :=
  if Player.isDead player || Player.getIsInvincible player then player
  else
    fold_left
      (fun player enemy =>
         if Enemy.isDead enemy then player
         else
           match Enemy.getAttackHitbox enemy with
           | None => player
           | Some attackHitbox =>
               if hitboxOverlapsBody attackHitbox
                    (Player.x player) (Player.y player)
                    (Player.bodyWidth player) (Player.bodyHeight player)
               then
                 let damage := Enemy.getAttackDamage enemy in
                 Player.takeDamage damage (Enemy.x enemy) player
               else player
           end)
      enemies player.

Definition isAnyEnemyShowingWarning (enemies : list Enemy.t) : bool :=
  existsb (fun enemy => negb (Enemy.isDead enemy) && Enemy.isShowingWarning enemy)
          enemies.

(** [getTimeUntilEnemyAttack()]; [minTime] starts at [Infinity], here [None]. *)
Definition getTimeUntilEnemyAttack (now : Q) (enemies : list Enemy.t) : Q :=
  let minTime :=
    fold_left
      (fun (minTime : option Q) enemy =>
         if negb (Enemy.isDead enemy) && Enemy.isShowingWarning enemy then
           let timeUntil := Enemy.getTimeUntilAttack now enemy in
           match minTime with
           | None => Some timeUntil
           | Some m => if timeUntil <? m then Some timeUntil else Some m
           end
         else minTime)
      enemies None in
  match minTime with
  | None => 0
  | Some m => m
  end.

(** The [Env] the player sees once [create()] has installed the two
    callbacks with setEnemyWarningChecker. *)
Definition playerEnv (now rnd : Q) (enemies : list Enemy.t) : Player.Env :=
  {| Player.isAnyEnemyShowingWarning := Some (isAnyEnemyShowingWarning enemies);
     Player.getTimeUntilEnemyAttack := Some (getTimeUntilEnemyAttack now enemies);
     Player.random := rnd |}.

(** The hitbox and the body bounds share an edge: the right edge of one is
    the left edge of the other, or the bottom edge of one the top edge of
    the other. *)
Definition touchesEdge (attackHitbox : Rectangle)
    (spriteX spriteY bodyWidth bodyHeight : Q) : Prop :=
  rect_x attackHitbox + rect_width attackHitbox == spriteX - bodyWidth / 2 \/
  rect_x attackHitbox == spriteX + bodyWidth / 2 \/
  rect_y attackHitbox + rect_height attackHitbox == spriteY - bodyHeight / 2 \/
  rect_y attackHitbox == spriteY + bodyHeight / 2.

(** The hitbox and the body bounds overlap with positive width and
    height: the four comparisons of the hit test, all strict. *)
Definition overlapsStrictly (attackHitbox : Rectangle)
    (spriteX spriteY bodyWidth bodyHeight : Q) : Prop :=
  rect_x attackHitbox < spriteX + bodyWidth / 2 /\
  spriteX - bodyWidth / 2 < rect_x attackHitbox + rect_width attackHitbox /\
  rect_y attackHitbox < spriteY + bodyHeight / 2 /\
  spriteY - bodyHeight / 2 < rect_y attackHitbox + rect_height attackHitbox.

(** *** The scene and its [update()] *)

(** ['player' | 'enemy'], the argument of [gameOverOverlay.show]. *)
Inductive Winner := PlayerWins | EnemyWins.

(** The fields of the scene that [update()] works on.  [physicsPaused]
    records [this.physics.pause()] and [gameOverOverlay] the winner the
    overlay was shown with.  The controller at an index holds the enemy at
    that index: createEnemies pushes them in pairs. *)
Record t := {
  player : Player.t;
  enemies : list Enemy.t;
  enemyAIControllers : list EnemyAIController.t;
  gameEnded : bool;
  updateCounter : Z;
  physicsPaused : bool;
  gameOverOverlay : option Winner;
}.

(** What one call of [update()] reads from outside the scene: the loop's
    [delta], [this.time.now], [pauseMenu.getIsVisible()], the answers of
    the InputManager to the player and to the enemy at each index, and the
    values of [Math.random()] for the player and for the controller at each
    index. *)
Record Tick := {
  delta : Q;
  now : Q;
  pauseMenuVisible : bool;
  playerInput : Player.Input;
  playerRandom : Q;
  enemyInput : nat -> Enemy.Input;
  aiRandoms : nat -> EnemyAIController.Randoms;
}.

(** [array.forEach((value, index) => ...)] on a list of values. *)
Fixpoint forEachIndexed {A : Type} (f : nat -> A -> A) (index : nat) (l : list A)
    : list A :=
  match l with
  | [] => []
  | a :: l => f index a :: forEachIndexed f (S index) l
  end.

(** The loop over [enemyAIControllers] in [update()].  A controller at an
    index where [this.enemies] has no element makes [this.enemies[index]]
    undefined and the call of [isDead] on it throw: [None]. *)
Fixpoint updateControllers (delta now : Q) (rnd : nat -> EnemyAIController.Randoms)
    (player : Player.t) (index : nat)
    (controllers : list EnemyAIController.t) (enemies : list Enemy.t)
    : option (list EnemyAIController.t * list Enemy.t) :=
  match controllers with
  | [] => Some ([], enemies)
  | controller :: controllers =>
      match enemies with
      | [] => None
      | enemy :: enemies =>
          let w :=
            if negb (Enemy.isDead enemy)
            then EnemyAIController.update delta now (rnd index) player (controller, enemy)
            else (controller, enemy) in
          match updateControllers delta now rnd player (S index) controllers enemies with
          | Some (controllers, enemies) => Some (fst w :: controllers, snd w :: enemies)
          | None => None
          end
      end
  end.

Definition checkDeath (s : t) : t :=
  if gameEnded s then s
  else if Player.isDead (player s) then
    s <| gameEnded := true |> <| physicsPaused := true |>
      <| gameOverOverlay := Some EnemyWins |>
  else
    let allEnemiesDead := forallb Enemy.isDead (enemies s) in
    if allEnemiesDead && (0 <? List.length (enemies s))%nat then
      s <| gameEnded := true |> <| physicsPaused := true |>
        <| gameOverOverlay := Some PlayerWins |>
    else s.

(** [update()]; [None] when it throws: a controller has no enemy, or
    [takeDamage] throws in checkPlayerAttacks.  (The enemies have their
    warning containers, so neither their [update()] nor the [punch()] and
    [sidekick()] of their controllers throw, see [Enemy.update].) *)
Definition update (f : Tick) (s : t) : option t :=
  let s :=
    if (updateCounter s <? 3)%Z
    then s <| updateCounter := (updateCounter s + 1)%Z |>
    else s in
  if gameEnded s then Some s
  else if pauseMenuVisible f then Some s
  else
    let env := playerEnv (now f) (playerRandom f) (enemies s) in
    let s := s <| player := Player.update (delta f) (playerInput f) env (player s) |> in
    let s := s <| enemies :=
                    forEachIndexed
                      (fun index enemy =>
                         Enemy.update (delta f) (now f) (enemyInput f index) enemy)
                      0%nat (enemies s) |> in
    match updateControllers (delta f) (now f) (aiRandoms f) (player s) 0%nat
            (enemyAIControllers s) (enemies s) with
    | None => None
    | Some (controllers', enemies') =>
        let s := s <| enemyAIControllers := controllers' |> <| enemies := enemies' |> in
        if checkPlayerAttacksThrows (player s) (enemies s) then None
        else
          let s := s <| enemies := checkPlayerAttacks (player s) (enemies s) |> in
          let s := s <| player := checkEnemyAttacks (player s) (enemies s) |> in
          Some (checkDeath s)
    end.

(** The scene [create()] builds: the player at (100, 590), one enemy at
    (1180, 590) and its controller; [GAME_WIDTH] is 1280, [GAME_HEIGHT] 720
    and [GROUND_HEIGHT] 130. *)
Definition create : t := {|
  player := Player.new 100 590;
  enemies := [Enemy.new 1180 590];
  enemyAIControllers := [EnemyAIController.new];
  gameEnded := false;
  updateCounter := 0;
  physicsPaused := false;
  gameOverOverlay := None;
|}.

End GameScene.

(** ** Combatants: what Player and Enemy share *)

Module Combatant.

Inductive t :=
| OfPlayer (p : Player.t)
| OfEnemy (e : Enemy.t).

(** The state enumeration of a combatant as the design describes it; the
    player's enumeration has all eight members, the enemy's has no [Dead]
    and no [Dodging]. *)
Inductive State :=
| Idle | Running | Jumping | Falling | Attacking | Hurt | Dead | Dodging.

Definition ofPlayerState (s : Player.PlayerState) : State :=
  match s with
  | Player.IDLE => Idle
  | Player.RUNNING => Running
  | Player.JUMPING => Jumping
  | Player.FALLING => Falling
  | Player.ATTACKING => Attacking
  | Player.HURT => Hurt
  | Player.DEAD => Dead
  | Player.DODGING => Dodging
  end.

Definition ofEnemyState (s : Enemy.EnemyState) : State :=
  match s with
  | Enemy.IDLE => Idle
  | Enemy.RUNNING => Running
  | Enemy.JUMPING => Jumping
  | Enemy.FALLING => Falling
  | Enemy.ATTACKING => Attacking
  | Enemy.HURT => Hurt
  end.

Definition state (c : t) : State :=
  match c with
  | OfPlayer p => ofPlayerState (Player.getState p)
  | OfEnemy e => ofEnemyState (Enemy.getState e)
  end.

Definition health (c : t) : Q :=
  match c with
  | OfPlayer p => Player.getCurrentHealth p
  | OfEnemy e => Enemy.getCurrentHealth e
  end.

Definition maxHealth (c : t) : Q :=
  match c with
  | OfPlayer p => Player.getMaxHealth p
  | OfEnemy e => Enemy.getMaxHealth e
  end.

Definition isInvincible (c : t) : bool :=
  match c with
  | OfPlayer p => Player.getIsInvincible p
  | OfEnemy e => Enemy.getIsInvincible e
  end.

Definition isDead (c : t) : bool :=
  match c with
  | OfPlayer p => Player.isDead p
  | OfEnemy e => Enemy.isDead e
  end.

(** [takeDamage(amount, attackerX, attackType?)]; the player's method has
    no third parameter and ignores it. *)
Definition takeDamage (amount attackerX : Q) (attackType : option string)
    (c : t) : t :=
  match c with
  | OfPlayer p => OfPlayer (Player.takeDamage amount attackerX p)
  | OfEnemy e => OfEnemy (Enemy.takeDamage amount attackerX attackType e)
  end.

Inductive Event :=
| ToPlayer (ev : Player.Event)
| ToEnemy (ev : Enemy.Event).

(** An event addressed to the other kind of combatant does not concern
    this one. *)
Definition step (ev : Event) (c : t) : t :=
  match ev, c with
  | ToPlayer ev, OfPlayer p => OfPlayer (Player.step ev p)
  | ToEnemy ev, OfEnemy e => OfEnemy (Enemy.step ev e)
  | _, _ => c
  end.

Definition run (evs : list Event) (c : t) : t :=
  fold_left (fun q ev => step ev q) evs c.

(** The amount of damage an event deals, if it is a [takeDamage] call. *)
Definition damageOf (ev : Event) : option Q :=
  match ev with
  | ToPlayer (Player.TakeDamage amount _) => Some amount
  | ToEnemy (Enemy.TakeDamage amount _ _) => Some amount
  | _ => None
  end.

Definition nonNegativeDamage (ev : Event) : Prop :=
  match damageOf ev with
  | Some amount => 0 <= amount
  | None => True
  end.

End Combatant.

(** ** HealthBar (HealthBar.ts) *)

Module HealthBar.

Module CONFIG.
Definition WIDTH : Q := 120.
Definition HEIGHT : Q := 16.
Definition PADDING_ABOVE_HEAD : Q := 20.
End CONFIG.

(** The bar: its numbers, and of the display objects what the methods
    write: the numbers and the colour of [hpText]
    ([`${Math.ceil(currentHealth)} / ${maxHealth}`]), the colour of the
    label, the position of the container, and the width of the rectangle
    drawn in [fillBar] and in [glowEffect] ([None]: cleared, nothing
    drawn). *)
Record t := {
  currentProgress : Q;
  targetProgress : Q;
  maxHealth : Q;
  currentHealth : Q;
  characterName : string;
  headOffset : Q;
  hpText : Z * Q;
  hpTextColor : string;
  labelColor : string;
  containerX : Q;
  containerY : Q;
  fillBar : option Q;
  glowEffect : option Q;
}.

Definition drawFill (progress : Q) (b : t) : t :=
  if progress <=? 0 then b <| fillBar := None |>
  else b <| fillBar := Some (Num.Math_max 0 ((CONFIG.WIDTH - 4) * progress)) |>.

Definition drawGlow (progress : Q) (b : t) : t :=
  if progress <=? 0 then b <| glowEffect := None |>
  else b <| glowEffect := Some ((CONFIG.WIDTH - 4) * progress + 8) |>.

(** [updateHealth(newHealth)].  For [maxHealth = 0] the quotient is [NaN]
    or an infinity in JavaScript, which [Q] does not have: the properties
    below are about bars with a positive maximum. *)
Definition updateHealth (newHealth : Q) (b : t) : t :=
  let b := b <| currentHealth :=
                  Num.Math_max 0 (Num.Math_min newHealth (maxHealth b)) |> in
  let b := b <| targetProgress := currentHealth b / maxHealth b |> in
  let b := b <| hpText := (Num.Math_ceil (currentHealth b), maxHealth b) |> in
  if targetProgress b <=? (3 # 10) then
    b <| hpTextColor := "#ff4444"%string |> <| labelColor := "#ff4444"%string |>
  else if targetProgress b <=? (6 # 10) then
    b <| hpTextColor := "#ffaa44"%string |> <| labelColor := "#ffaa44"%string |>
  else
    b <| hpTextColor := "#ffffff"%string |> <| labelColor := "#ffffff"%string |>.

(** [new HealthBar(scene, targetSprite, maxHealth, characterName, headOffset)] *)
Definition new (maxHealth0 : Q) (characterName0 : string) (headOffset0 : Q) : t :=
  updateHealth maxHealth0 {|
    currentProgress := 1;
    targetProgress := 1;
    maxHealth := maxHealth0;
    currentHealth := maxHealth0;
    characterName := characterName0;
    headOffset := headOffset0;
    hpText := (0%Z, 0);
    hpTextColor := "#ffffff"%string;
    labelColor := "#ffffff"%string;
    containerX := 0;
    containerY := 0;
    fillBar := None;
    glowEffect := None;
  |}.

(** [update(_time, delta)], the listener of the scene's [update] event;
    the arguments are what it reads from [targetSprite]. *)
Definition update (spriteX spriteY displayHeight : Q) (b : t) : t :=
  let topOfFrame := spriteY - displayHeight in
  let topOfHead := topOfFrame + headOffset b in
  let b := b <| containerX := spriteX - CONFIG.WIDTH / 2 |>
             <| containerY := topOfHead - CONFIG.PADDING_ABOVE_HEAD |> in
  let b := b <| currentProgress :=
                  currentProgress b
                  + (targetProgress b - currentProgress b) * (15 # 100) |> in
  let b := drawFill (currentProgress b) b in
  drawGlow (currentProgress b) b.

Definition getCurrentHealth (b : t) : Q := currentHealth b.
Definition getMaxHealth (b : t) : Q := maxHealth b.

(** [takeDamage] of the player or of the enemy together with the bar that
    setHealthBar handed over ([None]: [healthBar] is still [null]): past
    the guard, the bar is told the new health. *)
Definition takeDamage (amount attackerX : Q) (attackType : option string)
    (w : Combatant.t * option t) : Combatant.t * option t :=
  let '(c, bar) := w in
  if Combatant.isInvincible c || (Combatant.health c <=? 0) then w
  else
    let c := Combatant.takeDamage amount attackerX attackType c in
    (c, option_map (updateHealth (Combatant.health c)) bar).

(** A run of [takeDamage] calls, each with its amount, the position of the
    attacker and the attack type. *)
Definition takeDamages (hits : list (Q * Q * option string))
    (w : Combatant.t * option t) : Combatant.t * option t :=
  fold_left (fun w hit => takeDamage (fst (fst hit)) (snd (fst hit)) (snd hit) w)
            hits w.

End HealthBar.

(** ** Views and invariants used in the proofs *)

Module PlayerViews.
Import Player.

(** [f] leaves the part of the player that [view] shows unchanged. *)
Definition keeps {A : Type} (view : t -> A) (f : t -> t) : Prop :=
  forall p, view (f p) = view p.

Definition vitals (p : t) := (currentHealth p, maxHealth p).
Definition shield (p : t) := (isInvincible p, invincibilityTimer p).
Definition dodgeQueue (p : t) := (counterDodgeQueued p, delayedCalls p).
Definition comboView (p : t) := (comboCount p, comboTimer p, comboDelayTimer p).
Definition attackView (p : t) :=
  (currentState p, currentAttackType p, animKey p, comboView p).
Definition jumpView (p : t) := (jumpBufferTimer p, jumpsRemaining p).
Definition flight (p : t) := (jumpView p, blockedDown p, velocityY p).

(** The game time one event takes. *)
Definition frameTime (ev : Event) : Q :=
  match ev with
  | Frame delta _ _ _ => delta
  | _ => 0
  end.

(** The player as handleAttack finds it during [update]. *)
Definition beforeAttack (delta : Q) (inp : Input) (env : Env) (p : t) : t :=
  handleMatrixDodge inp (handleDodge inp (handleCounterDodge inp env
    (handleDebugHurt inp (updateTimers delta p)))).

(** The player as handleJump finds it during [update]. *)
Definition beforeJump (delta : Q) (inp : Input) (env : Env) (p : t) : t :=
  handleMovement inp (handleAttack inp (beforeAttack delta inp env p)).

Definition sameOrDodging (before after : PlayerState) : Prop :=
  after = before \/ after = DODGING.

(** The invariant behind the counter-dodge guarantee.  [need] is the time
    for which invincibility is still owed and [slack] the part of the
    current frame the scene clock has already consumed. *)
Definition shielded (need : Q) (s : bool * Q) : Prop :=
  0 < need -> fst s = true /\ need <= snd s.

Definition queueFits (need slack : Q) (q : bool * list (Q * TimerCallback)) : Prop :=
  match fst q with
  | false => snd q = [] /\ need <= 600 + slack
  | true => exists r, snd q = [(r, DelayedCounterDodge)] /\ need <= r + 600 + slack
  end.

Definition covered (need slack : Q) (p : t) : Prop :=
  shielded need (shield p) /\ queueFits need slack (dodgeQueue p).

(** The state of the combo chain [since] ms after the punch that armed it. *)
Definition chain (since : Q) (v : Z * Q * Q) : Prop :=
  let '(count, timer, delay) := v in
  (since < 800 -> count = 1%Z /\ timer == 800 - since) /\
  (800 <= since -> count = 0%Z /\ timer <= 0) /\
  (since < 250 -> delay == 250 - since) /\
  (250 <= since -> delay <= 0).

Definition noPunchQueued (p : t) : Prop := bufferedAttack p <> Some Punch.

Definition chained (since : Q) (p : t) : Prop :=
  chain since (comboView p) /\ noPunchQueued p.

(** The jump buffer [since] ms after the press that filled it, while the
    player is in the air with no jump left. *)
Definition buffered (since : Q) (p : t) : Prop :=
  blockedDown p = false /\
  (jumpsRemaining p <= 0)%Z /\
  (since < 150 -> jumpBufferTimer p == 150 - since) /\
  (150 <= since -> jumpBufferTimer p <= 0).

End PlayerViews.

Module EnemyViews.
Import Enemy.

Definition keeps {A : Type} (view : t -> A) (f : t -> t) : Prop :=
  forall e, view (f e) = view e.

Definition vitals (e : t) := (currentHealth e, maxHealth e).
Definition warningView (e : t) :=
  (pendingAttack e, warningTween e, attackExecuteTime e).

(** The first statement of [update()]: the invincibility timer. *)
Definition stepTimer (delta : Q) (e : t) : t :=
  if invincibilityTimer e >? 0 then
    let e := e <| invincibilityTimer := invincibilityTimer e - delta |> in
    if invincibilityTimer e <=? 0 then e <| isInvincible := false |> else e
  else e.

(** A warning for attack [a] is running: the attack is pending and the
    tween is the one showAttackWarning made for it. *)
Definition warning (a : PendingAttack) (e : t) : Prop :=
  pendingAttack e = Some a /\
  warningTween e = Some {| duration := CONFIG.ATTACK_WARNING_DURATION / 2;
                           yoyo := true; onComplete := a |}.

End EnemyViews.

(** ** Invariants and views used in the further properties *)

Module PlayerInvariants.
Import Player.

(** The invincibility a hit grants, [since] ms of game time after the hit:
    no counter-dodge is pending, the timer has run for [since] ms, and the
    flag is up exactly while the timer is positive. *)
Definition hitShield (since : Q) (p : t) : Prop :=
  counterDodgeQueued p = false /\ delayedCalls p = [] /\
  (since < 500 -> isInvincible p = true /\ invincibilityTimer p == 500 - since) /\
  (500 <= since -> isInvincible p = false /\ invincibilityTimer p <= 0).

(** The listener that ends a locked state is the last one registered. *)
Definition closing (p : t) : Prop :=
  match currentState p with
  | HURT | DODGING => exists l, animationcomplete p = l ++ [ReturnToIdle]
  | ATTACKING => exists l, animationcomplete p = l ++ [AttackFinished]
  | _ => True
  end.

Definition jumpsInRange (p : t) : Prop :=
  (0 <= jumpsRemaining p <= CONFIG.MAX_JUMPS)%Z.

End PlayerInvariants.

Module EnemyInvariants.
Import Enemy.

Definition shield (e : t) := (isInvincible e, invincibilityTimer e).

(** The game time one event takes in the enemy's [update()]. *)
Definition updateDelta (ev : Event) : Q :=
  match ev with
  | Update delta _ _ => delta
  | _ => 0
  end.

(** The invincibility a hit grants, [since] ms of update time after the
    hit: the flag is up exactly while the timer is positive. *)
Definition hitShield (since : Q) (e : t) : Prop :=
  (since < 800 -> isInvincible e = true /\ invincibilityTimer e == 800 - since) /\
  (800 <= since -> isInvincible e = false /\ invincibilityTimer e <= 0).

(** A locked state whose animation is one of the loaded ones has the
    listener registered that ends it, and a hurt enemy has no attack type. *)
Definition closing (e : t) : Prop :=
  match currentState e with
  | HURT =>
      (loaded (animKey e) = true -> animationcomplete e <> []) /\
      currentAttackType e = None
  | ATTACKING => loaded (animKey e) = true -> In AttackFinished (animationcomplete e)
  | _ => True
  end.

(** The attack type an animation belongs to. *)
Definition attackOfAnimation (key : string) : option AttackType :=
  if String.eqb key "enemy-punch" then Some Punch
  else if String.eqb key "enemy-sidekick" then Some Sidekick
  else if String.eqb key "enemy-jump-sidekick" then Some JumpSidekick
  else None.

(** While the enemy attacks, the attack type is the one of the animation
    that plays. *)
Definition armed (e : t) : Prop :=
  currentState e = ATTACKING ->
  exists a, currentAttackType e = Some a /\ attackOfAnimation (animKey e) = Some a.

Definition hurtPart (e : t) : Prop :=
  currentState e = HURT ->
  (loaded (animKey e) = true -> animationcomplete e <> []) /\
  currentAttackType e = None.

Definition attackPart (e : t) : Prop :=
  currentState e = ATTACKING -> loaded (animKey e) = true ->
  In AttackFinished (animationcomplete e).

(** What the end of an animation leaves. *)
Definition atRest (e : t) : Prop :=
  currentState e = IDLE /\ animKey e = "enemy-idle"%string.

Definition course (e : t) :=
  (aiMovementDirection e, targetX e, accelerationX e, velocityX e).

Definition leap (e : t) := (blockedDown e, aiJumpRequested e, velocityY e).

End EnemyInvariants.

Module SceneViews.

(** An enemy that counts for the warning queries: alive and showing. *)
Definition warns (enemy : Enemy.t) : bool :=
  negb (Enemy.isDead enemy) && Enemy.isShowingWarning enemy.

(** The time GameScene reports, seen as the minimum over the enemies that
    count: [Some m] when [m] is the least of their times, [None] when no
    enemy counts. *)
Definition least (now : Q) (enemies : list Enemy.t) (m : option Q) : Prop :=
  match m with
  | None => forall enemy, In enemy enemies -> warns enemy = false
  | Some m =>
      (exists enemy, In enemy enemies /\ warns enemy = true /\
                     m = Enemy.getTimeUntilAttack now enemy) /\
      (forall enemy, In enemy enemies -> warns enemy = true ->
                     m <= Enemy.getTimeUntilAttack now enemy)
  end.

(** The defender's body, of width [width] around [defenderX], is behind
    the attacker's centre or beyond [reach] in front of it. *)
Definition outOfReach (attackerX : Q) (facingRight : bool) (reach : Q)
    (defenderX width : Q) : Prop :=
  if facingRight
  then defenderX + width / 2 <= attackerX \/ attackerX + reach <= defenderX - width / 2
  else attackerX <= defenderX - width / 2 \/ defenderX + width / 2 <= attackerX - reach.

(** A dead player has ended the game. *)
Definition settled (s : GameScene.t) : Prop :=
  Player.isDead (GameScene.player s) = true -> GameScene.gameEnded s = true.

Import GameScene.

(** What checkPlayerAttacks does to one enemy. *)
Definition struck (player : Player.t) (attackHitbox : Rectangle) (enemy : Enemy.t)
    : Enemy.t :=
  if Enemy.isDead enemy || Enemy.getIsInvincible enemy then enemy
  else if hitboxOverlapsBody attackHitbox (Enemy.x enemy) (Enemy.y enemy)
            (Enemy.bodyWidth enemy) (Enemy.bodyHeight enemy)
  then Enemy.takeDamage (Player.getAttackDamage player) (Player.x player)
         (Player.getAttackType player) enemy
  else enemy.

(** What checkEnemyAttacks does for one enemy. *)
Definition strike (player : Player.t) (enemy : Enemy.t) : Player.t :=
  if Enemy.isDead enemy then player
  else
    match Enemy.getAttackHitbox enemy with
    | None => player
    | Some attackHitbox =>
        if hitboxOverlapsBody attackHitbox (Player.x player) (Player.y player)
             (Player.bodyWidth player) (Player.bodyHeight player)
        then Player.takeDamage (Enemy.getAttackDamage enemy) (Enemy.x enemy) player
        else player
    end.

Definition pick (now : Q) (minTime : option Q) (enemy : Enemy.t) : option Q :=
  if negb (Enemy.isDead enemy) && Enemy.isShowingWarning enemy then
    let timeUntil := Enemy.getTimeUntilAttack now enemy in
    match minTime with
    | None => Some timeUntil
    | Some m => if timeUntil <? m then Some timeUntil else Some m
    end
  else minTime.

(** The counter of the first updates. *)
Definition counted (s : t) : t :=
  if (updateCounter s <? 3)%Z
  then s <| updateCounter := (updateCounter s + 1)%Z |>
  else s.

End SceneViews.

Module AIViews.
Import EnemyAIController.

(** What the controller steers: direction, target, facing and the place of
    the enemy. *)
Definition steer (e : Enemy.t) :=
  (Enemy.aiMovementDirection e, Enemy.targetX e, Enemy.facingRight e, Enemy.flipX e,
   Enemy.x e).

(** The attack state of the enemy: warning, state, attack type and
    animation. *)
Definition attackView (e : Enemy.t) :=
  (Enemy.pendingAttack e, Enemy.warningTween e, Enemy.attackExecuteTime e,
   Enemy.warningVisible e, Enemy.currentState e, Enemy.currentAttackType e,
   Enemy.animKey e, Enemy.animationcomplete e).

(** A controller that pauses before an attack has waited out its cooldown. *)
Definition rested (ai : t) : Prop :=
  isWaitingToAttack ai = true -> attackCooldown ai <= lastAttackTime ai.

End AIViews.

Module BarViews.
Import HealthBar.

(** The bar shows the health of the combatant it belongs to. *)
Definition tracks (c : Combatant.t) (bar : t) : Prop :=
  maxHealth bar == Combatant.maxHealth c /\
  currentHealth bar == Combatant.health c /\
  targetProgress bar == Combatant.health c / Combatant.maxHealth c.

End BarViews.

(** * Properties *)

(** ** Comparisons on numbers *)

Lemma ltb_spec (a b : Q) : reflect (a < b) (a <? b).
Proof.
  unfold Num.ltb. destruct (Qle_bool b a) eqn:E; constructor.
  - apply Qle_bool_iff in E. lra.
  - assert (~ b <= a) as N by (rewrite <- Qle_bool_iff; congruence). lra.
Qed.

Lemma leb_spec (a b : Q) : reflect (a <= b) (a <=? b).
Proof.
  unfold Num.leb. destruct (Qle_bool a b) eqn:E; constructor.
  - now apply Qle_bool_iff.
  - rewrite <- Qle_bool_iff. congruence.
Qed.

Lemma gtb_spec (a b : Q) : reflect (b < a) (a >? b).
Proof. apply ltb_spec. Qed.

Lemma geb_spec (a b : Q) : reflect (b <= a) (a >=? b).
Proof. apply leb_spec. Qed.

Lemma Math_max_0_nonneg (a : Q) : 0 <= Num.Math_max 0 a.
Proof. unfold Num.Math_max. destruct (ltb_spec 0 a); lra. Qed.

Lemma Math_max_0_le (a b : Q) : 0 <= a -> 0 <= b -> Num.Math_max 0 (a - b) <= a.
Proof. intros. unfold Num.Math_max. destruct (ltb_spec 0 (a - b)); lra. Qed.

Lemma Math_max_0_dead (a b : Q) : a <= b -> Num.Math_max 0 (a - b) = 0.
Proof. intros. unfold Num.Math_max. destruct (ltb_spec 0 (a - b)); [lra | reflexivity]. Qed.

(** Case analysis on every numeric test of the goal. *)
Ltac qtest :=
  repeat match goal with
  | |- context [Num.ltb ?a ?b] => destruct (ltb_spec a b)
  | |- context [Num.leb ?a ?b] => destruct (leb_spec a b)
  | |- context [Num.gtb ?a ?b] => destruct (gtb_spec a b)
  | |- context [Num.geb ?a ?b] => destruct (geb_spec a b)
  end.

(** ** Facts about the player *)

Module PlayerFacts.
Import Player PlayerViews.

Ltac branches :=
  repeat match goal with
  | |- context [if ?c then _ else _] => destruct c
  | |- context [match ?c with _ => _ end] => destruct c
  end.

Ltac open_handlers := cbv beta zeta delta [
  handleDebugHurt triggerHurt triggerHurtStomach handleDodge performDodge
  handleMatrixDodge performMatrixDodge handleAttack performPunch performUppercut
  performAerialPunch onAttackComplete handleMovement handleJump updateState
  playAnimationForState updateFacing runAnimCallback physicsStep play once
  performCounterDodge isOnGround handleCounterDodge queueCounterDodge].

(** Use the hypotheses that fix the value of a boolean of the goal. *)
Ltac known :=
  repeat match goal with
  | H : ?l = true |- context [?l] => rewrite H
  | H : ?l = false |- context [?l] => rewrite H
  end;
  repeat (rewrite andb_false_r || rewrite andb_true_r ||
          rewrite orb_false_r || rewrite orb_true_r);
  cbn [andb orb negb].

Ltac fields := cbn [
  jumpsRemaining currentState facingRight comboCount comboTimer comboDelayTimer
  bufferedAttack jumpBufferTimer maxHealth currentHealth isInvincible
  invincibilityTimer currentAttackType counterDodgeQueued x y flipX animKey
  currentFrame animationcomplete velocityX velocityY accelerationX accelerationY
  blockedDown bodyWidth bodyHeight delayedCalls set const
  fst snd map filter fold_left negb andb orb app];
  cbv beta delta [const].

Ltac same_view := unfold keeps; intros; open_handlers; known; branches; reflexivity.

(** Strip from the goal [view (f x) = _] the outermost handler [f] when it
    keeps [view]. *)
Ltac peel :=
  match goal with
  | |- ?v (?f ?x) = _ =>
      let H := fresh in
      assert (H : forall q, v (f q) = v q) by same_view;
      rewrite (H x); clear H
  end.

Lemma keeps_fold_left {A B : Type} (view : t -> A) (f : t -> B -> t) (l : list B) :
  (forall b, keeps view (fun p => f p b)) -> keeps view (fun p => fold_left f l p).
Proof.
  intros H. induction l as [|b l IH]; intros p; simpl; [reflexivity|].
  rewrite IH. apply H.
Qed.

(** A view that neither the listener queue nor any listener touches
    survives the end of an animation; likewise for the scene clock. *)
Lemma keeps_emitAnimationComplete {A : Type} (view : t -> A) :
  (forall l, keeps view (fun p => p <| animationcomplete := l |>)) ->
  (forall cb, keeps view (runAnimCallback cb)) ->
  keeps view emitAnimationComplete.
Proof.
  intros Hq Hcb p. unfold emitAnimationComplete.
  rewrite (keeps_fold_left view (fun q cb => runAnimCallback cb q)).
  - apply Hq.
  - exact Hcb.
Qed.

Lemma keeps_advanceClock {A : Type} (view : t -> A) (delta rnd : Q) :
  (forall l, keeps view (fun p => p <| delayedCalls := l |>)) ->
  (forall b r, keeps view (performCounterDodge b r)) ->
  keeps view (advanceClock delta rnd).
Proof.
  intros Hq Hcb p. unfold advanceClock.
  rewrite (keeps_fold_left view
             (fun q (dc : Q * TimerCallback) => runTimerCallback rnd (snd dc) q)).
  - apply Hq.
  - intros [r []]. apply Hcb.
Qed.

Lemma shield_emitAnimationComplete : keeps shield emitAnimationComplete.
Proof. apply keeps_emitAnimationComplete; same_view. Qed.

Lemma dodgeQueue_emitAnimationComplete : keeps dodgeQueue emitAnimationComplete.
Proof. apply keeps_emitAnimationComplete; same_view. Qed.

Lemma shield_advanceClock delta rnd : keeps shield (advanceClock delta rnd).
Proof. apply keeps_advanceClock; same_view. Qed.

(** After the timers and the debug keys, [update] touches the shield and
    the dodge queue in handleCounterDodge only. *)
Lemma shield_update delta inp env p :
  shield (update delta inp env p)
  = shield (handleCounterDodge inp env (handleDebugHurt inp (updateTimers delta p))).
Proof. unfold update. cbv zeta. repeat peel. reflexivity. Qed.

Lemma dodgeQueue_update delta inp env p :
  dodgeQueue (update delta inp env p)
  = dodgeQueue (handleCounterDodge inp env (handleDebugHurt inp (updateTimers delta p))).
Proof. unfold update. cbv zeta. repeat peel. reflexivity. Qed.

Lemma dodgeQueue_updateTimers delta : keeps dodgeQueue (updateTimers delta).
Proof. unfold keeps, updateTimers. intros. cbv zeta. branches; reflexivity. Qed.

Lemma dodgeQueue_takeDamage amount attackerX : keeps dodgeQueue (takeDamage amount attackerX).
Proof. unfold keeps, takeDamage. intros. open_handlers. branches; reflexivity. Qed.

Ltac cases :=
  repeat (fields;
          match goal with
          | |- context [if ?c then _ else _] =>
              lazymatch c with
              | context [if _ then _ else _] => fail
              | _ => destruct c eqn:?
              end
          end);
  fields.

Lemma shield_updateTimers delta p :
  shield (updateTimers delta p)
  = if invincibilityTimer p >? 0 then
      if invincibilityTimer p - delta <=? 0
      then (false, invincibilityTimer p - delta)
      else (isInvincible p, invincibilityTimer p - delta)
    else shield p.
Proof. unfold updateTimers, shield. cbv zeta. cases; reflexivity. Qed.

Lemma shielded_weaken need need' s :
  need' <= need -> shielded need s -> shielded need' s.
Proof. unfold shielded. intros Hle H Hpos. destruct H; [lra|]. split; [assumption|lra]. Qed.

Lemma queueFits_weaken need need' slack slack' q :
  need' - slack' <= need - slack -> queueFits need slack q -> queueFits need' slack' q.
Proof.
  unfold queueFits. intros Hle H. destruct (fst q).
  - destruct H as (r & ? & ?). exists r. split; [assumption | lra].
  - destruct H. split; [assumption | lra].
Qed.

Lemma covered_weaken need need' p :
  need' <= need -> covered need 0 p -> covered need' 0 p.
Proof.
  intros Hle [H1 H2]. split.
  - eapply shielded_weaken; eassumption.
  - eapply queueFits_weaken; [|eassumption]. lra.
Qed.

Lemma covered_advanceClock need delta rnd p :
  0 <= delta ->
  covered need 0 p -> covered need delta (advanceClock delta rnd p).
Proof.
  intros Hd [H1 H2]. split.
  - rewrite shield_advanceClock. assumption.
  - unfold queueFits, dodgeQueue, advanceClock in *. cbn [fst snd] in *.
    destruct (counterDodgeQueued p) eqn:Hq.
    + destruct H2 as (r & -> & Hr). fields.
      destruct (leb_spec (r - delta) 0); fields.
      * unfold runTimerCallback, performCounterDodge, play, once. fields.
        split; [reflexivity | lra].
      * rewrite Hq. exists (r - delta). split; [reflexivity | lra].
    + destruct H2 as [-> Hn]. fields. rewrite Hq. split; [reflexivity | lra].
Qed.

Lemma covered_updateTimers need delta p :
  0 <= delta ->
  covered need delta p -> covered (need - delta) 0 (updateTimers delta p).
Proof.
  intros Hd [H1 H2]. split.
  - rewrite shield_updateTimers. unfold shielded, shield in *. cbn [fst snd] in *.
    intros Hpos. destruct H1 as [Hi Ht]; [lra|].
    destruct (gtb_spec (invincibilityTimer p) 0);
      [destruct (leb_spec (invincibilityTimer p - delta) 0)|];
      cbn [fst snd]; try lra; split; (assumption || lra).
  - rewrite dodgeQueue_updateTimers. eapply queueFits_weaken; [|eassumption]. lra.
Qed.

(** handleCounterDodge on a covered player: it either leaves shield and
    queue alone, or plays a dodge with the queue flag cleared, or queues a
    new counter-dodge, which grants at least 600 ms. *)
Lemma covered_handleCounterDodge need inp env p :
  match getTimeUntilEnemyAttack env with Some d => 0 <= d | None => True end ->
  covered need 0 p -> covered need 0 (handleCounterDodge inp env p).
Proof.
  intros Hd [H1 H2].
  unfold handleCounterDodge.
  destruct (lockedForDodge p || counterDodgeQueued p) eqn:Hlock; [split; assumption|].
  apply orb_false_iff in Hlock. destruct Hlock as [_ Hq].
  destruct (isCounterDodgePressed inp); [|split; assumption].
  unfold queueFits, dodgeQueue in H2. cbn [fst snd] in H2. rewrite Hq in H2.
  destruct H2 as [Hnil Hneed].
  destruct (match isAnyEnemyShowingWarning env with Some b => b | None => false end).
  - unfold queueCounterDodge. cbv zeta.
    set (delayMs := match getTimeUntilEnemyAttack env with Some d => d | None => 0 end).
    assert (0 <= delayMs) by (unfold delayMs; destruct (getTimeUntilEnemyAttack env); lra).
    destruct (gtb_spec delayMs 0).
    + split.
      * unfold shielded, shield. fields. intros _. split; [reflexivity | lra].
      * unfold queueFits, dodgeQueue. fields. rewrite Hnil. exists delayMs.
        split; [reflexivity | lra].
    + split.
      * unfold shielded, shield, performCounterDodge, play, once. fields.
        intros _. split; [reflexivity | lra].
      * unfold queueFits, dodgeQueue, performCounterDodge, play, once. fields.
        split; [assumption | lra].
  - split.
    + unfold shielded, shield, performCounterDodge, play, once in *. fields. assumption.
    + unfold queueFits, dodgeQueue, performCounterDodge, play, once. fields.
      split; [assumption | lra].
Qed.

Lemma shield_handleDebugHurt inp : keeps shield (handleDebugHurt inp).
Proof. same_view. Qed.

Lemma dodgeQueue_handleDebugHurt inp : keeps dodgeQueue (handleDebugHurt inp).
Proof. same_view. Qed.

Lemma covered_update need delta inp env p :
  0 <= delta ->
  match getTimeUntilEnemyAttack env with Some d => 0 <= d | None => True end ->
  covered need delta p -> covered (need - delta) 0 (update delta inp env p).
Proof.
  intros Hd Ht H. unfold covered.
  rewrite shield_update, dodgeQueue_update.
  apply covered_handleCounterDodge; [assumption|].
  unfold covered. rewrite shield_handleDebugHurt, dodgeQueue_handleDebugHurt.
  apply covered_updateTimers; assumption.
Qed.

Lemma covered_step need ev p :
  forward ev -> warningTimeNonNegative ev ->
  covered need 0 p -> covered (need - frameTime ev) 0 (step ev p).
Proof.
  intros Hf Hw H. destruct ev as [delta inp env rnd | | f | b | amount attackerX];
    cbn [step frameTime forward warningTimeNonNegative] in *.
  - apply covered_update; [assumption..|]. apply covered_advanceClock; assumption.
  - apply covered_weaken with need; [lra|]. unfold covered.
    rewrite shield_emitAnimationComplete, dodgeQueue_emitAnimationComplete. exact H.
  - apply covered_weaken with need; [lra|]. exact H.
  - apply covered_weaken with need; [lra|]. exact H.
  - apply covered_weaken with need; [lra|]. destruct H as [H1 H2]. split.
    + unfold shielded in *. intros Hpos. destruct (H1 Hpos) as [Hi Ht].
      unfold shield in Hi. cbn [fst] in Hi.
      unfold takeDamage. rewrite Hi. cbn [orb]. auto.
    + rewrite dodgeQueue_takeDamage. exact H2.
Qed.

Lemma elapsed_cons ev evs : elapsed (ev :: evs) == frameTime ev + elapsed evs.
Proof. destruct ev; cbn [elapsed fold_right frameTime]; fold (elapsed evs); lra. Qed.

Lemma covered_run evs : forall need p,
  Forall forward evs -> Forall warningTimeNonNegative evs ->
  covered need 0 p -> covered (need - elapsed evs) 0 (run evs p).
Proof.
  induction evs as [|ev evs IH]; intros need p Hf Hw H.
  - cbn. apply covered_weaken with need; [lra | exact H].
  - inversion Hf; subst. inversion Hw; subst.
    change (run (ev :: evs) p) with (run evs (step ev p)).
    apply covered_weaken with (need - frameTime ev - elapsed evs).
    + rewrite elapsed_cons. lra.
    + apply IH; [assumption..|]. apply covered_step; assumption.
Qed.

Lemma chain_since since since' v : since == since' -> chain since v -> chain since' v.
Proof.
  destruct v as [[count timer] delay]. unfold chain.
  intros E (H1 & H2 & H3 & H4). repeat split; intros.
  - apply H1; lra.
  - destruct H1; [lra|]. lra.
  - apply H2; lra.
  - apply H2; lra.
  - rewrite H3; lra.
  - apply H4; lra.
Qed.

Lemma comboView_updateTimers delta p :
  comboView (updateTimers delta p)
  = ((if comboTimer p >? 0
      then if comboTimer p - delta <=? 0 then 0%Z else comboCount p
      else comboCount p),
     (if comboTimer p >? 0 then comboTimer p - delta else comboTimer p),
     (if comboDelayTimer p >? 0 then comboDelayTimer p - delta else comboDelayTimer p)).
Proof. unfold updateTimers, comboView. cbv zeta. cases; reflexivity. Qed.

Lemma chain_updateTimers since delta p :
  0 <= delta ->
  chain since (comboView p) -> chain (since + delta) (comboView (updateTimers delta p)).
Proof.
  intros Hd. rewrite comboView_updateTimers. unfold comboView, chain.
  intros (H1 & H2 & H3 & H4).
  destruct (Qlt_le_dec since 800) as [L|L];
    [destruct (H1 L) as [Hc Ht]; clear H1 H2 | destruct (H2 L) as [Hc Ht]; clear H1 H2];
  (destruct (Qlt_le_dec since 250) as [L'|L'];
    [pose proof (H3 L') as Hdl; clear H3 H4 | pose proof (H4 L') as Hdl; clear H3 H4]);
  destruct (gtb_spec (comboTimer p) 0); try lra;
  destruct (gtb_spec (comboDelayTimer p) 0); try lra;
  try destruct (leb_spec (comboTimer p - delta) 0);
  repeat split; intros; try lra; try assumption; try reflexivity.
Qed.

Lemma comboView_update delta inp env p :
  isPunchPressed inp = false ->
  comboView (update delta inp env p) = comboView (updateTimers delta p).
Proof. intros Hp. unfold update. cbv zeta. repeat peel. reflexivity. Qed.

Lemma noPunchQueued_handleAttack inp p :
  isPunchPressed inp = false -> noPunchQueued p -> noPunchQueued (handleAttack inp p).
Proof.
  unfold noPunchQueued. intros Hp H. open_handlers. known.
  branches; fields; (assumption || discriminate).
Qed.

Lemma bufferedAttack_update delta inp env p :
  bufferedAttack (update delta inp env p)
  = bufferedAttack (handleAttack inp (handleMatrixDodge inp (handleDodge inp
      (handleCounterDodge inp env (handleDebugHurt inp (updateTimers delta p)))))).
Proof. unfold update. cbv zeta. repeat peel. reflexivity. Qed.

Lemma bufferedAttack_before_handleAttack delta inp env p :
  bufferedAttack (handleMatrixDodge inp (handleDodge inp
      (handleCounterDodge inp env (handleDebugHurt inp (updateTimers delta p)))))
  = bufferedAttack p.
Proof.
  repeat peel. unfold updateTimers. cbv zeta. cases; reflexivity.
Qed.

Lemma chained_update since delta inp env p :
  0 <= delta -> isPunchPressed inp = false ->
  chained since p -> chained (since + delta) (update delta inp env p).
Proof.
  intros Hd Hp [Hc Hq]. split.
  - rewrite comboView_update by assumption. apply chain_updateTimers; assumption.
  - unfold noPunchQueued. rewrite bufferedAttack_update.
    apply noPunchQueued_handleAttack; [assumption|].
    unfold noPunchQueued. rewrite bufferedAttack_before_handleAttack. exact Hq.
Qed.

Lemma chained_views since p q :
  comboView q = comboView p -> bufferedAttack q = bufferedAttack p ->
  chained since p -> chained since q.
Proof. unfold chained, noPunchQueued. intros -> ->. auto. Qed.

Lemma chained_runAnimCallback since cb p :
  chained since p -> chained since (runAnimCallback cb p).
Proof.
  intros [Hc Hq]. unfold chained, noPunchQueued in *.
  destruct cb; unfold runAnimCallback, onAttackComplete; cbv zeta.
  - split; [exact Hc | exact Hq].
  - fields. destruct (bufferedAttack p) as [[ | | ]|] eqn:Hb; try congruence;
      open_handlers; fields; (split; [exact Hc | rewrite ?Hb; discriminate]).
Qed.

Lemma chained_fold_anim since l : forall p,
  chained since p -> chained since (fold_left (fun q cb => runAnimCallback cb q) l p).
Proof.
  induction l as [|cb l IH]; intros p H; simpl; [exact H|].
  apply IH. apply chained_runAnimCallback. exact H.
Qed.

Lemma chained_fold_timer since rnd l : forall p,
  chained since p ->
  chained since (fold_left (fun q (dc : Q * TimerCallback) =>
                              runTimerCallback rnd (snd dc) q) l p).
Proof.
  induction l as [|[r []] l IH]; intros p H; simpl; [exact H|].
  apply IH. revert H. apply chained_views; same_view.
Qed.

Lemma chained_advanceClock since delta rnd p :
  chained since p -> chained since (advanceClock delta rnd p).
Proof. intros H. unfold advanceClock. apply chained_fold_timer. exact H. Qed.

Lemma chained_takeDamage since amount attackerX p :
  chained since p -> chained since (takeDamage amount attackerX p).
Proof.
  apply chained_views; unfold takeDamage; open_handlers; cases; reflexivity.
Qed.

Lemma chained_since since since' p : since == since' -> chained since p -> chained since' p.
Proof. intros E [H1 H2]. split; [eapply chain_since; eassumption | exact H2]. Qed.

Lemma chained_step since ev p :
  forward ev -> noPunchPress ev ->
  chained since p -> chained (since + frameTime ev) (step ev p).
Proof.
  intros Hf Hp H. destruct ev as [delta inp env rnd | | f | b | amount attackerX];
    cbn [step frameTime forward noPunchPress] in *.
  - apply chained_update; [assumption..|]. apply chained_advanceClock. exact H.
  - apply chained_since with since; [lra|].
    unfold emitAnimationComplete. apply chained_fold_anim. exact H.
  - apply chained_since with since; [lra|]. exact H.
  - apply chained_since with since; [lra|]. exact H.
  - apply chained_since with since; [lra|]. apply chained_takeDamage. exact H.
Qed.

Lemma chained_run evs : forall since p,
  Forall forward evs -> Forall noPunchPress evs ->
  chained since p -> chained (since + elapsed evs) (run evs p).
Proof.
  induction evs as [|ev evs IH]; intros since p Hf Hp H.
  - cbn. apply chained_since with since; [lra | exact H].
  - inversion Hf; subst. inversion Hp; subst.
    change (run (ev :: evs) p) with (run evs (step ev p)).
    apply chained_since with (since + frameTime ev + elapsed evs).
    + rewrite elapsed_cons. lra.
    + apply IH; [assumption..|]. apply chained_step; assumption.
Qed.

Lemma update_after_attack delta inp env p :
  currentState (handleAttack inp (beforeAttack delta inp env p)) = ATTACKING ->
  attackView (update delta inp env p)
  = attackView (handleAttack inp (beforeAttack delta inp env p)).
Proof.
  intros Hs. unfold update. cbv zeta. fold (beforeAttack delta inp env p).
  set (q := handleAttack inp (beforeAttack delta inp env p)) in *.
  peel.
  assert (Hq : currentState (handleJump delta inp (handleMovement inp q)) = ATTACKING).
  { rewrite <- Hs. repeat peel. reflexivity. }
  unfold updateState at 1. rewrite Hq. cbn [PlayerState_eqb orb].
  repeat peel. reflexivity.
Qed.

Lemma sameOrDodging_trans a b c :
  sameOrDodging a b -> sameOrDodging b c -> sameOrDodging a c.
Proof. unfold sameOrDodging. intuition congruence. Qed.

Lemma sameOrDodging_beforeAttack delta inp env p :
  isDebugHurtPressed inp = false -> isDebugHurtStomachPressed inp = false ->
  sameOrDodging (currentState p) (currentState (beforeAttack delta inp env p)).
Proof.
  intros H1 H2. unfold beforeAttack.
  assert (Ht : currentState (updateTimers delta p) = currentState p).
  { unfold updateTimers. cbv zeta. cases; reflexivity. }
  rewrite <- Ht. generalize (updateTimers delta p). intros q.
  unfold sameOrDodging. open_handlers. known. cases; auto.
Qed.

Lemma sameOrDodging_advanceClock delta rnd p :
  sameOrDodging (currentState p) (currentState (advanceClock delta rnd p)).
Proof.
  unfold advanceClock.
  set (due := filter _ _). set (q := p <| delayedCalls := _ |>).
  change (currentState p) with (currentState q).
  generalize q. clear q. induction due as [|[r []] due IH]; intros q; cbn [fold_left].
  - left. reflexivity.
  - eapply sameOrDodging_trans; [|apply IH]. right. reflexivity.
Qed.

Lemma blockedDown_beforeAttack delta inp env p :
  blockedDown (beforeAttack delta inp env p) = blockedDown p.
Proof. unfold beforeAttack. repeat peel. unfold updateTimers. cbv zeta. cases; reflexivity. Qed.

Lemma comboView_beforeAttack delta inp env p :
  comboView (beforeAttack delta inp env p) = comboView (updateTimers delta p).
Proof. unfold beforeAttack. repeat peel. reflexivity. Qed.

Lemma blockedDown_advanceClock delta rnd : keeps blockedDown (advanceClock delta rnd).
Proof. apply keeps_advanceClock; same_view. Qed.

(** The chained press: an uppercut. *)
Lemma handleAttack_combo inp q :
  currentState q <> HURT -> blockedDown q = true -> isPunchPressed inp = true ->
  comboCount q = 1%Z -> comboDelayTimer q <= 0 ->
  attackView (handleAttack inp q) = (ATTACKING, Some Uppercut, "juan-uppercut"%string, (0%Z, 0, comboDelayTimer q)).
Proof.
  intros Hs Hg Hp Hc Hd. unfold handleAttack, isOnGround. cbv zeta.
  destruct (PlayerState_eqb (currentState q) HURT) eqn:E.
  { destruct (currentState q); try discriminate. congruence. }
  rewrite Hg, Hp, Hc. cbn [negb andb Z.eqb Pos.eqb].
  destruct (leb_spec (comboDelayTimer q) 0); [|contradiction].
  reflexivity.
Qed.

(** The press after the chain has expired: a fresh punch. *)
Lemma handleAttack_fresh inp q :
  currentState q <> HURT -> currentState q <> ATTACKING -> blockedDown q = true ->
  isPunchPressed inp = true -> isUppercutPressed inp = false ->
  comboCount q = 0%Z ->
  attackView (handleAttack inp q) = (ATTACKING, Some Punch, "juan-punch"%string, (1%Z, COMBO_WINDOW, COMBO_MIN_DELAY)).
Proof.
  intros Hs Ha Hg Hp Hu Hc. unfold handleAttack, isOnGround. cbv zeta.
  destruct (PlayerState_eqb (currentState q) HURT) eqn:E.
  { destruct (currentState q); try discriminate. congruence. }
  destruct (PlayerState_eqb (currentState q) ATTACKING) eqn:E'.
  { destruct (currentState q); try discriminate. congruence. }
  rewrite Hg, Hp, Hu, Hc. cbn [negb andb Z.eqb].
  reflexivity.
Qed.

Lemma not_hurt_sameOrDodging a b : sameOrDodging a b -> a <> HURT -> b <> HURT.
Proof. unfold sameOrDodging. intros [->| ->] H; [exact H | discriminate]. Qed.

Lemma not_attacking_sameOrDodging a b :
  sameOrDodging a b -> a <> ATTACKING -> b <> ATTACKING.
Proof. unfold sameOrDodging. intros [->| ->] H; [exact H | discriminate]. Qed.

(** What a frame with the punch key pressed does to a grounded player who
    is not hurt, in terms of the chain it finds. *)
Lemma punch_frame since delta inp env rnd p :
  0 <= delta ->
  chained since p ->
  currentState p <> HURT -> blockedDown p = true ->
  isDebugHurtPressed inp = false -> isDebugHurtStomachPressed inp = false ->
  isPunchPressed inp = true ->
  let after := step (Frame delta inp env rnd) p in
  (250 <= since + delta < 800 ->
     currentState after = ATTACKING /\ currentAttackType after = Some Uppercut /\
     animKey after = "juan-uppercut"%string /\
     comboCount after = 0%Z /\ comboTimer after = 0) /\
  (800 <= since + delta -> currentState p <> ATTACKING -> isUppercutPressed inp = false ->
     currentState after = ATTACKING /\ currentAttackType after = Some Punch /\
     animKey after = "juan-punch"%string /\
     comboCount after = 1%Z /\ comboTimer after = COMBO_WINDOW /\
     comboDelayTimer after = COMBO_MIN_DELAY).
Proof.
  intros Hd Hch Hs Hg Hk1 Hk2 Hp after. unfold after. cbn [step].
  set (p' := advanceClock delta rnd p).
  set (q := beforeAttack delta inp env p').
  assert (Hsd : sameOrDodging (currentState p) (currentState q)).
  { eapply sameOrDodging_trans; [apply sameOrDodging_advanceClock|].
    apply sameOrDodging_beforeAttack; assumption. }
  assert (Hqs : currentState q <> HURT) by (eapply not_hurt_sameOrDodging; eassumption).
  assert (Hqg : blockedDown q = true).
  { unfold q. rewrite blockedDown_beforeAttack. unfold p'.
    rewrite blockedDown_advanceClock. exact Hg. }
  assert (Hqc : chain (since + delta) (comboView q)).
  { unfold q. rewrite comboView_beforeAttack. apply chain_updateTimers; [assumption|].
    apply (chained_advanceClock since delta rnd p Hch). }
  unfold comboView, chain in Hqc. destruct Hqc as (C1 & C2 & C3 & C4).
  split.
  - intros [Hlo Hhi]. destruct (C1 Hhi) as [Hc _]. pose proof (C4 Hlo) as Hdl.
    pose proof (handleAttack_combo inp q Hqs Hqg Hp Hc Hdl) as Hv.
    assert (Hst : currentState (handleAttack inp q) = ATTACKING).
    { unfold attackView in Hv. congruence. }
    pose proof (update_after_attack delta inp env p' Hst) as Hu.
    fold q in Hu. rewrite Hv in Hu. unfold attackView, comboView in Hu.
    injection Hu as -> -> -> -> -> _. repeat split; reflexivity.
  - intros Hex Hna Hu'. destruct (C2 Hex) as [Hc _].
    assert (Hqa : currentState q <> ATTACKING)
      by (eapply not_attacking_sameOrDodging; eassumption).
    pose proof (handleAttack_fresh inp q Hqs Hqa Hqg Hp Hu' Hc) as Hv.
    assert (Hst : currentState (handleAttack inp q) = ATTACKING).
    { unfold attackView in Hv. congruence. }
    pose proof (update_after_attack delta inp env p' Hst) as Hu.
    fold q in Hu. rewrite Hv in Hu. unfold attackView, comboView in Hu.
    injection Hu as -> -> -> -> -> ->. repeat split; reflexivity.
Qed.

Lemma armed_chained p :
  comboCount p = 1%Z -> comboTimer p = COMBO_WINDOW ->
  comboDelayTimer p = COMBO_MIN_DELAY -> bufferedAttack p <> Some Punch ->
  chained 0 p.
Proof.
  intros Hc Ht Hd Hb. split; [|exact Hb].
  unfold chain, comboView. rewrite Hc, Ht, Hd. unfold COMBO_WINDOW, COMBO_MIN_DELAY.
  repeat split; intros; try lra; reflexivity.
Qed.

Lemma first_punch_frame delta inp env rnd p :
  currentState p <> HURT -> currentState p <> ATTACKING -> blockedDown p = true ->
  isDebugHurtPressed inp = false -> isDebugHurtStomachPressed inp = false ->
  isPunchPressed inp = true -> isUppercutPressed inp = false ->
  comboCount p = 0%Z ->
  let after := step (Frame delta inp env rnd) p in
  attackView after
  = (ATTACKING, Some Punch, "juan-punch"%string, (1%Z, COMBO_WINDOW, COMBO_MIN_DELAY))
  /\ bufferedAttack after = bufferedAttack p.
Proof.
  intros Hs Ha Hg Hk1 Hk2 Hp Hu Hc after. unfold after. cbn [step].
  set (p' := advanceClock delta rnd p).
  set (q := beforeAttack delta inp env p').
  assert (Hsd : sameOrDodging (currentState p) (currentState q)).
  { eapply sameOrDodging_trans; [apply sameOrDodging_advanceClock|].
    apply sameOrDodging_beforeAttack; assumption. }
  assert (Hqs : currentState q <> HURT) by (eapply not_hurt_sameOrDodging; eassumption).
  assert (Hqa : currentState q <> ATTACKING)
    by (eapply not_attacking_sameOrDodging; eassumption).
  assert (Hqg : blockedDown q = true).
  { unfold q. rewrite blockedDown_beforeAttack. unfold p'.
    rewrite blockedDown_advanceClock. exact Hg. }
  assert (Hqc : comboCount q = 0%Z).
  { assert (Hv : comboView q = comboView (updateTimers delta p'))
      by apply comboView_beforeAttack.
    rewrite comboView_updateTimers in Hv.
    assert (Hp' : comboCount p' = 0%Z).
    { unfold p'. clear -Hc. unfold advanceClock.
      rewrite (keeps_fold_left comboCount
                 (fun q (dc : Q * TimerCallback) => runTimerCallback rnd (snd dc) q)).
      - exact Hc.
      - intros [r []]. same_view. }
    unfold comboView in Hv. rewrite Hp' in Hv.
    destruct (comboTimer p' >? 0); [destruct (comboTimer p' - delta <=? 0)|];
      congruence. }
  pose proof (handleAttack_fresh inp q Hqs Hqa Hqg Hp Hu Hqc) as Hv.
  assert (Hst : currentState (handleAttack inp q) = ATTACKING).
  { unfold attackView in Hv. congruence. }
  split.
  - rewrite (update_after_attack delta inp env p' Hst). exact Hv.
  - rewrite bufferedAttack_update. fold (beforeAttack delta inp env p'). fold q.
    assert (Hb : bufferedAttack (handleAttack inp q) = bufferedAttack q).
    { unfold handleAttack, isOnGround. cbv zeta.
      destruct (PlayerState_eqb (currentState q) HURT) eqn:E.
      { destruct (currentState q); try discriminate. congruence. }
      destruct (PlayerState_eqb (currentState q) ATTACKING) eqn:E'.
      { destruct (currentState q); try discriminate. congruence. }
      rewrite Hqg, Hp, Hu, Hqc. cbn [negb andb Z.eqb]. reflexivity. }
    rewrite Hb. unfold q, beforeAttack. rewrite bufferedAttack_before_handleAttack.
    unfold p', advanceClock.
    rewrite (keeps_fold_left bufferedAttack
               (fun q (dc : Q * TimerCallback) => runTimerCallback rnd (snd dc) q)).
    + reflexivity.
    + intros [r []]. same_view.
Qed.

Lemma buffered_since since since' p : since == since' -> buffered since p -> buffered since' p.
Proof.
  unfold buffered. intros E (H1 & H2 & H3 & H4). repeat split; try assumption; intros.
  - rewrite H3; lra.
  - apply H4; lra.
Qed.

Lemma buffered_views since p q :
  jumpView q = jumpView p -> blockedDown q = blockedDown p ->
  buffered since p -> buffered since q.
Proof. unfold buffered, jumpView. intros Hv ->. injection Hv as -> ->. auto. Qed.

Lemma flight_parts p q :
  flight p = flight q ->
  jumpBufferTimer p = jumpBufferTimer q /\ jumpsRemaining p = jumpsRemaining q /\
  blockedDown p = blockedDown q /\ velocityY p = velocityY q.
Proof. unfold flight, jumpView. intros H. injection H as -> -> -> ->. auto. Qed.

Lemma flight_update delta inp env p :
  flight (update delta inp env p)
  = flight (handleJump delta inp (beforeJump delta inp env p)).
Proof. unfold update. cbv zeta. repeat peel. reflexivity. Qed.

Lemma flight_beforeJump delta inp env p : flight (beforeJump delta inp env p) = flight p.
Proof.
  unfold beforeJump, beforeAttack. repeat peel.
  unfold updateTimers. cbv zeta. cases; reflexivity.
Qed.

Lemma flight_advanceClock delta rnd : keeps flight (advanceClock delta rnd).
Proof. apply keeps_advanceClock; same_view. Qed.

Lemma flight_emitAnimationComplete : keeps flight emitAnimationComplete.
Proof. apply keeps_emitAnimationComplete; same_view. Qed.

(** handleJump in the air with no jump left and the key up: the buffer
    runs down and nothing else happens. *)
Lemma buffered_handleJump since delta inp q :
  0 <= delta -> isJumpPressed inp = false ->
  buffered since q ->
  buffered (since + delta) (handleJump delta inp q) /\
  velocityY (handleJump delta inp q) = velocityY q.
Proof.
  intros Hd Hj (Hg & Hr & H1 & H2). unfold handleJump. cbv zeta. rewrite Hj.
  assert (Hz : (jumpsRemaining q >? 0)%Z = false)
    by (rewrite Z.gtb_ltb; apply Z.ltb_ge; lia).
  destruct (gtb_spec (jumpBufferTimer q) 0) as [Hpos|Hneg]; fields; rewrite Hg; fields;
    rewrite Hz, andb_false_r; fields; (split; [|reflexivity]);
    unfold buffered; fields; repeat split; try assumption; intros.
  all: destruct (Qlt_le_dec since 150) as [L|L];
    [pose proof (H1 L) as Ht | pose proof (H2 L) as Ht]; clear H1 H2; lra.
Qed.

Lemma buffered_step since ev p :
  forward ev -> inFlight ev ->
  buffered since p -> buffered (since + frameTime ev) (step ev p).
Proof.
  intros Hf Hi H. destruct ev as [delta inp env rnd | | f | b | amount attackerX];
    cbn [step frameTime forward inFlight] in *.
  - assert (Hb : buffered since (beforeJump delta inp env (advanceClock delta rnd p))).
    { revert H. apply buffered_views.
      - pose proof (flight_beforeJump delta inp env (advanceClock delta rnd p)) as E.
        rewrite flight_advanceClock in E. unfold flight in E. congruence.
      - pose proof (flight_beforeJump delta inp env (advanceClock delta rnd p)) as E.
        rewrite flight_advanceClock in E. unfold flight in E. congruence. }
    destruct (buffered_handleJump since delta inp _ Hf Hi Hb) as [Hb' _].
    revert Hb'. apply buffered_views.
    + pose proof (flight_update delta inp env (advanceClock delta rnd p)) as E.
      unfold flight in E. congruence.
    + pose proof (flight_update delta inp env (advanceClock delta rnd p)) as E.
      unfold flight in E. congruence.
  - apply buffered_since with since; [lra|]. revert H. apply buffered_views.
    + pose proof (flight_emitAnimationComplete p) as E. unfold flight in E. congruence.
    + pose proof (flight_emitAnimationComplete p) as E. unfold flight in E. congruence.
  - apply buffered_since with since; [lra|]. exact H.
  - apply buffered_since with since; [lra|].
    destruct H as (H1 & H2 & H3 & H4). unfold buffered, physicsStep. fields.
    repeat split; assumption.
  - apply buffered_since with since; [lra|]. revert H. apply buffered_views.
    + unfold takeDamage. open_handlers. cases; reflexivity.
    + unfold takeDamage. open_handlers. cases; reflexivity.
Qed.

Lemma buffered_run evs : forall since p,
  Forall forward evs -> Forall inFlight evs ->
  buffered since p -> buffered (since + elapsed evs) (run evs p).
Proof.
  induction evs as [|ev evs IH]; intros since p Hf Hi H.
  - cbn. apply buffered_since with since; [lra | exact H].
  - inversion Hf; subst. inversion Hi; subst.
    change (run (ev :: evs) p) with (run evs (step ev p)).
    apply buffered_since with (since + frameTime ev + elapsed evs).
    + rewrite elapsed_cons. lra.
    + apply IH; [assumption..|]. apply buffered_step; assumption.
Qed.

(** The frame of the press: in the air with no jump left, the press only
    fills the buffer. *)
Lemma press_handleJump delta inp q :
  isJumpPressed inp = true -> blockedDown q = false -> (jumpsRemaining q <= 0)%Z ->
  flight (handleJump delta inp q)
  = ((CONFIG.JUMP_BUFFER_TIME, jumpsRemaining q), false, velocityY q).
Proof.
  intros Hj Hg Hr. unfold handleJump, flight, jumpView. cbv zeta. rewrite Hj.
  assert (Hz : (jumpsRemaining q >? 0)%Z = false)
    by (rewrite Z.gtb_ltb; apply Z.ltb_ge; lia).
  destruct (jumpBufferTimer q >? 0); fields; rewrite Hg; fields;
    rewrite Hz, andb_false_r; fields; rewrite Hg; reflexivity.
Qed.

(** The frame of the landing, the jump key up. *)
Lemma landing_handleJump since delta inp q :
  0 <= delta -> isJumpPressed inp = false -> blockedDown q = true ->
  (since < 150 -> jumpBufferTimer q == 150 - since) ->
  (150 <= since -> jumpBufferTimer q <= 0) ->
  let after := handleJump delta inp q in
  (since + delta < 150 ->
     velocityY after = CONFIG.JUMP_VELOCITY /\ jumpsRemaining after = 1%Z /\
     jumpBufferTimer after = 0) /\
  (150 <= since + delta ->
     velocityY after = velocityY q /\ jumpsRemaining after = CONFIG.MAX_JUMPS /\
     jumpBufferTimer after <= 0).
Proof.
  intros Hd Hj Hg H1 H2 after. unfold after, handleJump. cbv zeta. rewrite Hj.
  destruct (gtb_spec (jumpBufferTimer q) 0) as [Hpos|Hneg]; fields; rewrite Hg; fields.
  - destruct (gtb_spec (jumpBufferTimer q - delta) 0) as [Hpos'|Hneg']; fields.
    + split; intros Hs.
      * repeat split; reflexivity.
      * exfalso. destruct (Qlt_le_dec since 150) as [L|L];
          [pose proof (H1 L) | pose proof (H2 L)]; clear H1 H2; lra.
    + split; intros Hs.
      * exfalso. destruct (Qlt_le_dec since 150) as [L|L];
          [pose proof (H1 L) | pose proof (H2 L)]; clear H1 H2; lra.
      * repeat split; try reflexivity. lra.
  - destruct (gtb_spec (jumpBufferTimer q) 0); [lra|]. fields.
    split; intros Hs.
    + exfalso. destruct (Qlt_le_dec since 150) as [L|L];
        [pose proof (H1 L) | pose proof (H2 L)]; clear H1 H2; lra.
    + repeat split; try reflexivity. lra.
Qed.

Lemma vitals_update delta inp env : keeps vitals (update delta inp env).
Proof.
  intros p. unfold update. cbv zeta. repeat peel.
  unfold updateTimers. cbv zeta. cases; reflexivity.
Qed.

Lemma vitals_advanceClock delta rnd : keeps vitals (advanceClock delta rnd).
Proof. apply keeps_advanceClock; same_view. Qed.

Lemma vitals_emitAnimationComplete : keeps vitals emitAnimationComplete.
Proof. apply keeps_emitAnimationComplete; same_view. Qed.

Lemma vitals_step ev p :
  (forall amount attackerX, ev <> TakeDamage amount attackerX) ->
  vitals (step ev p) = vitals p.
Proof.
  intros Hev. destruct ev; cbn [step].
  - rewrite vitals_update. apply vitals_advanceClock.
  - apply vitals_emitAnimationComplete.
  - reflexivity.
  - reflexivity.
  - exfalso. eapply Hev. reflexivity.
Qed.

(** [takeDamage] on the vitals: nothing, or the clamped subtraction. *)
Lemma vitals_takeDamage amount attackerX p :
  vitals (takeDamage amount attackerX p)
  = if isInvincible p || (currentHealth p <=? 0) then vitals p
    else (Num.Math_max 0 (currentHealth p - amount), maxHealth p).
Proof.
  unfold takeDamage. cbv zeta.
  destruct (isInvincible p || (currentHealth p <=? 0)); [reflexivity|].
  open_handlers. cases; reflexivity.
Qed.

Lemma takeDamage_guard amount attackerX p :
  isInvincible p = true \/ currentHealth p <= 0 -> takeDamage amount attackerX p = p.
Proof.
  intros H. unfold takeDamage.
  destruct (isInvincible p); [reflexivity|].
  destruct H as [H|H]; [discriminate|].
  destruct (leb_spec (currentHealth p) 0); [reflexivity | contradiction].
Qed.

Lemma takeDamage_lethal amount attackerX p :
  isInvincible p = false -> 0 < currentHealth p -> currentHealth p <= amount ->
  currentHealth (takeDamage amount attackerX p) = 0 /\
  currentState (takeDamage amount attackerX p) = DEAD.
Proof.
  intros Hi Hpos Hle. unfold takeDamage. rewrite Hi. cbn [orb].
  destruct (leb_spec (currentHealth p) 0); [lra|]. cbv zeta.
  unfold triggerHurt, play, once.
  rewrite (Math_max_0_dead _ _ Hle).
  destruct (PlayerState_eqb _ HURT); fields;
    (destruct (leb_spec 0 0); [|lra]); fields; split; reflexivity.
Qed.


End PlayerFacts.

(** ** Facts about the enemy *)

Module EnemyFacts.
Import Enemy EnemyViews.

(** Which of the animations the methods play have frames. *)
Ltac textures :=
  try change (playThrows "enemy-idle") with false;
  try change (playThrows "enemy-running") with false;
  try change (playThrows "enemy-punch") with false;
  try change (playThrows "enemy-sidekick") with false;
  try change (playThrows "enemy-getting-punched") with false;
  try change (playThrows "enemy-jump-sidekick") with true;
  try change (playThrows "enemy-getting-punched-stomach") with true;
  try change (loaded "enemy-idle") with true;
  try change (loaded "enemy-running") with true;
  try change (loaded "enemy-punch") with true;
  try change (loaded "enemy-sidekick") with true;
  try change (loaded "enemy-getting-punched") with true;
  try change (loaded "enemy-jump-sidekick") with false;
  try change (loaded "enemy-getting-punched-stomach") with false.

Ltac fields := textures; cbn [
  currentState facingRight maxHealth currentHealth isInvincible invincibilityTimer
  currentAttackType warningContainer warningGraphics warningVisible pendingAttack
  warningTween attackExecuteTime aiMovementDirection aiJumpRequested targetX
  x y flipX animKey currentFrame animationcomplete velocityX velocityY
  accelerationX accelerationY blockedDown bodyWidth bodyHeight
  duration yoyo onComplete set const
  fst snd map filter fold_left negb andb orb app];
  cbv beta delta [const].

Ltac cases :=
  repeat (fields;
          match goal with
          | |- context [if ?c then _ else _] =>
              lazymatch c with
              | context [if _ then _ else _] => fail
              | _ => destruct c eqn:?
              end
          | |- context [match ?c with _ => _ end] =>
              lazymatch c with
              | context [if _ then _ else _] => fail
              | context [match _ with _ => _ end] => fail
              | _ => destruct c eqn:?
              end
          end);
  fields.

Ltac open_handlers := cbv beta zeta delta [
  handleAttack handleMovement handleJump updateState updateFacing
  playAnimationForState punch sidekick jump showAttackWarning warningCallback
  performPunch performSidekick hideAttackWarning triggerHurt triggerHurtStomach
  takeDamage hurtThrows triggerHurtThrows triggerHurtStomachThrows
  runAnimCallback physicsStep playThen play once startMovingLeft
  startMovingRight stopMoving moveLeftBy moveRightBy setFacing isJumpSidekick
  canAttack canJump isShowingWarning].

Ltac same_view := unfold keeps; intros; open_handlers; cases; reflexivity.

Ltac peel :=
  match goal with
  | |- ?v (?f ?x) = _ =>
      let H := fresh in
      assert (H : forall q, v (f q) = v q) by same_view;
      rewrite (H x); clear H
  end.

Lemma update_unfold delta now inp e :
  update delta now inp e
  = if currentHealth e <=? 0 then stepTimer delta e
    else updateFacing (updateState (handleJump inp (handleMovement inp
           (handleAttack now inp (stepTimer delta e))))).
Proof.
  unfold update, stepTimer. cbv zeta.
  destruct (invincibilityTimer e >? 0); fields;
    [destruct (invincibilityTimer e - delta <=? 0); fields|]; reflexivity.
Qed.

Lemma enemy_vitals_update delta now inp : keeps vitals (update delta now inp).
Proof.
  intros e. rewrite update_unfold.
  assert (Ht : vitals (stepTimer delta e) = vitals e)
    by (unfold stepTimer; cbv zeta; cases; reflexivity).
  destruct (currentHealth e <=? 0); [exact Ht|].
  repeat peel. exact Ht.
Qed.

Lemma enemy_keeps_fold_left {A B : Type} (view : t -> A) (f : t -> B -> t) (l : list B) :
  (forall b, keeps view (fun p => f p b)) -> keeps view (fun p => fold_left f l p).
Proof.
  intros H. induction l as [|b l IH]; intros p; simpl; [reflexivity|].
  rewrite IH. apply H.
Qed.

Lemma enemy_vitals_step ev e :
  (forall amount attackerX ty, ev <> TakeDamage amount attackerX ty) ->
  vitals (step ev e) = vitals e.
Proof.
  intros Hev. destruct ev; cbn [step]; try solve [same_view].
  - unfold completeWarningTween. open_handlers. cases; reflexivity.
  - apply enemy_vitals_update.
  - unfold emitAnimationComplete.
    rewrite (enemy_keeps_fold_left vitals (fun q cb => runAnimCallback cb q)).
    + reflexivity.
    + intros cb. same_view.
  - exfalso. eapply Hev. reflexivity.
Qed.

Lemma warning_views a e e' :
  warningView e' = warningView e -> warning a e -> warning a e'.
Proof. unfold warningView, warning. intros H. injection H as -> -> _. auto. Qed.

(** While a warning is showing, [update] leaves it alone: handleAttack
    returns at once. *)
Lemma warningView_update delta now inp e :
  isShowingWarning e = true ->
  warningView (update delta now inp e) = warningView e.
Proof.
  intros Hw. rewrite update_unfold.
  assert (Ht : warningView (stepTimer delta e) = warningView e)
    by (unfold stepTimer; cbv zeta; cases; reflexivity).
  destruct (currentHealth e <=? 0); [exact Ht|].
  repeat peel.
  assert (Hw' : isShowingWarning (stepTimer delta e) = true).
  { unfold isShowingWarning, warningView in *. injection Ht as -> _ _. exact Hw. }
  unfold handleAttack. rewrite Hw'. rewrite !orb_true_r. exact Ht.
Qed.

Lemma request_rejected a now e :
  canAttack e = false \/ isShowingWarning e = true -> request a now e = (false, e).
Proof.
  intros H. destruct a; unfold request, punch, sidekick;
    destruct H as [-> | ->]; rewrite ?orb_true_r; reflexivity.
Qed.

Lemma warning_showing a e : warning a e -> isShowingWarning e = true.
Proof. intros [H _]. unfold isShowingWarning. rewrite H. reflexivity. Qed.

(** Until its tween completes, nothing ends a warning. *)
Lemma warning_step a ev e :
  tweenRuns ev -> warning a e -> warning a (step ev e).
Proof.
  intros Hr H. pose proof (warning_showing a e H) as Hs.
  destruct ev; cbn [step tweenRuns] in *;
    try (revert H; apply warning_views);
    try solve [same_view].
  - contradiction.
  - apply warningView_update. exact Hs.
  - unfold emitAnimationComplete.
    rewrite (enemy_keeps_fold_left warningView (fun q cb => runAnimCallback cb q)).
    + reflexivity.
    + intros cb. same_view.
  - pose proof (request_rejected PendingPunch now e (or_intror Hs)) as E.
    cbn [request] in E. rewrite E. reflexivity.
  - pose proof (request_rejected PendingSidekick now e (or_intror Hs)) as E.
    cbn [request] in E. rewrite E. reflexivity.
Qed.

Lemma warning_run evs : forall a e,
  Forall tweenRuns evs -> warning a e -> warning a (run evs e).
Proof.
  induction evs as [|ev evs IH]; intros a e Hr H; [exact H|].
  inversion Hr; subst.
  change (run (ev :: evs) e) with (run evs (step ev e)).
  apply IH; [assumption|]. apply warning_step; assumption.
Qed.

(** The start of a warning. *)
Lemma request_accepted a now e :
  warningContainer e = true -> warningGraphics e = true -> canAttack e = true ->
  fst (request a now e) = true /\
  attackExecuteTime (snd (request a now e)) = now + CONFIG.ATTACK_WARNING_DURATION /\
  warning a (snd (request a now e)).
Proof.
  intros Hc Hg Ha.
  assert (Hs : isShowingWarning e = false).
  { unfold canAttack in Ha. destruct (isShowingWarning e); [|reflexivity].
    rewrite andb_false_r in Ha. discriminate. }
  destruct a; unfold request, punch, sidekick, showAttackWarning;
    rewrite Ha, Hs, Hc, Hg; cbn [negb orb fst snd]; fields;
    repeat split; reflexivity.
Qed.


Lemma hideAttackWarning_hides e : isShowingWarning (hideAttackWarning e) = false.
Proof. unfold hideAttackWarning, isShowingWarning. cbv zeta. cases; reflexivity. Qed.

Lemma warningCallback_result a e :
  isShowingWarning e = false ->
  isShowingWarning (warningCallback a e) = false /\
  (canAttack e = true ->
     warningCallback a e = perform a e /\
     currentState (warningCallback a e) = ATTACKING) /\
  (canAttack e = false -> warningCallback a e = e).
Proof.
  intros Hs. unfold warningCallback. destruct (canAttack e) eqn:Ha.
  - split; [|split; [intros _; split; [destruct a; reflexivity|] | discriminate]].
    + unfold isShowingWarning in *. destruct a; open_handlers; cases; assumption.
    + destruct a; open_handlers; cases; reflexivity.
  - split; [exact Hs|]. split; [discriminate | reflexivity].
Qed.


End EnemyFacts.

(** ** Facts about the AI controller *)

Module AIFacts.
Import EnemyAIController.

Lemma variance_range rnd : 0 <= rnd < 1 -> -30 <= variance rnd < 30.
Proof. unfold variance, AI_CONFIG.DISTANCE_VARIANCE. intros. lra. Qed.

Lemma transitionTo_state s w : currentState (fst (transitionTo s w)) = s.
Proof. destruct w. reflexivity. Qed.

Lemma transitionTo_enemy_state s w :
  Enemy.currentState (snd (transitionTo s w)) = Enemy.currentState (snd w).
Proof. destruct w. reflexivity. Qed.

Lemma checkStateTransitions_table distance rnd w :
  currentState (fst (checkStateTransitions distance rnd w))
  = transitionTable (currentState (fst w)) distance (variance rnd) (stateTimer (fst w)).
Proof.
  unfold checkStateTransitions, transitionTable. cbv zeta.
  unfold AI_CONFIG.IDLE_TO_CHASE_DISTANCE, AI_CONFIG.ATTACK_DISTANCE,
    AI_CONFIG.CHASE_TO_IDLE_DISTANCE, AI_CONFIG.RETREAT_DURATION.
  destruct (currentState (fst w)) eqn:Hs.
  - destruct (distance <? 2000 + variance rnd);
      [apply transitionTo_state | exact Hs].
  - destruct (distance <? 120 + variance rnd); [apply transitionTo_state|].
    destruct (distance >? 600 + variance rnd); [apply transitionTo_state | exact Hs].
  - destruct (gtb_spec distance (120 + 20)), (gtb_spec distance 140); try lra;
      [apply transitionTo_state | exact Hs].
  - destruct (stateTimer (fst w) >=? 500); [apply transitionTo_state | exact Hs].
Qed.

Ltac fields := cbn [
  currentState stateTimer attackCooldown lastAttackTime attackPauseTimer
  isWaitingToAttack timeouts set const fst snd];
  cbv beta delta [const].

Lemma performAttack_state now rnd w :
  currentState (fst (performAttack now rnd w)) = currentState (fst w).
Proof.
  unfold performAttack. destruct w as [ai enemy]. cbv zeta.
  destruct (attackChoiceRandom rnd <? 1 # 2).
  - destruct (Enemy.punch now enemy) as [[] e']; fields; [|reflexivity].
    destruct (retreatRandom rnd <? _); reflexivity.
  - destruct (Enemy.sidekick now enemy) as [[] e']; fields; [|reflexivity].
    destruct (retreatRandom rnd <? _); reflexivity.
Qed.

Lemma executeStateBehavior_state now rnd player w :
  currentState (fst (executeStateBehavior now rnd player w)) = currentState (fst w).
Proof.
  unfold executeStateBehavior. destruct (currentState (fst w)) eqn:Hs.
  - destruct w; exact Hs.
  - destruct w; exact Hs.
  - unfold executeAttackBehavior. destruct w as [ai enemy]. cbv zeta.
    destruct (isWaitingToAttack ai).
    + destruct (attackPauseTimer ai <=? 0); [|exact Hs].
      rewrite performAttack_state. exact Hs.
    + destruct ((lastAttackTime ai >=? attackCooldown ai) && _); [|exact Hs].
      destruct (pauseRandom rnd <? _); [exact Hs|].
      rewrite performAttack_state. exact Hs.
  - destruct w; exact Hs.
Qed.

Lemma update_table delta now rnd player w :
  Enemy.isDead (snd w) = false -> Player.isDead player = false ->
  currentState (fst (update delta now rnd player w))
  = transitionTable (currentState (fst w))
      (Num.Math_abs (Player.x player - Enemy.getX (snd w)))
      (variance (varianceRandom rnd))
      (stateTimer (fst w) + delta).
Proof.
  intros He Hp. unfold update. destruct w as [ai enemy]. cbn [fst snd] in *.
  rewrite He, Hp. cbv zeta.
  rewrite executeStateBehavior_state, checkStateTransitions_table. cbn [fst].
  destruct (attackPauseTimer _ >? 0); reflexivity.
Qed.

Lemma runTimeoutCallback_guard cb w :
  currentState (fst w) <> ATTACK -> runTimeoutCallback cb w = w.
Proof.
  intros H. unfold runTimeoutCallback.
  destruct (currentState (fst w)); try congruence; destruct cb; reflexivity.
Qed.

Lemma runTimeoutCallback_enemy_state cb w :
  Enemy.currentState (snd (runTimeoutCallback cb w)) = Enemy.currentState (snd w).
Proof.
  unfold runTimeoutCallback.
  destruct cb; destruct (AIState_eqb _ _); try reflexivity; apply transitionTo_enemy_state.
Qed.

End AIFacts.

(** ** Facts about combatants and about the scene *)

Module CombatantFacts.
Import Combatant.

Lemma enemy_vitals_takeDamage amount attackerX ty e :
  EnemyViews.vitals (Enemy.takeDamage amount attackerX ty e)
  = if Enemy.isInvincible e || (Enemy.currentHealth e <=? 0) then EnemyViews.vitals e
    else (Num.Math_max 0 (Enemy.currentHealth e - amount), Enemy.maxHealth e).
Proof.
  unfold Enemy.takeDamage. cbv zeta.
  destruct (Enemy.isInvincible e || (Enemy.currentHealth e <=? 0)); [reflexivity|].
  unfold Enemy.triggerHurt, Enemy.triggerHurtStomach, Enemy.play, Enemy.once.
  EnemyFacts.cases; reflexivity.
Qed.

Lemma enemy_takeDamage_guard amount attackerX ty e :
  Enemy.isInvincible e = true \/ Enemy.currentHealth e <= 0 ->
  Enemy.takeDamage amount attackerX ty e = e.
Proof.
  intros H. unfold Enemy.takeDamage.
  destruct (Enemy.isInvincible e); [reflexivity|].
  destruct H as [H|H]; [discriminate|].
  destruct (leb_spec (Enemy.currentHealth e) 0); [reflexivity | contradiction].
Qed.

Lemma combatant_takeDamage_guard amount attackerX ty c :
  isInvincible c = true \/ health c <= 0 -> takeDamage amount attackerX ty c = c.
Proof.
  destruct c as [p|e]; cbn [isInvincible health takeDamage]; intros H; f_equal.
  - apply PlayerFacts.takeDamage_guard. exact H.
  - apply enemy_takeDamage_guard. exact H.
Qed.

(** An event that is no [takeDamage] call leaves health and maximum alone. *)
Lemma step_other ev c :
  damageOf ev = None ->
  health (step ev c) = health c /\ maxHealth (step ev c) = maxHealth c.
Proof.
  intros Hd. destruct ev as [ev|ev], c as [p|e]; cbn [step]; try (split; reflexivity).
  - assert (H : PlayerViews.vitals (Player.step ev p) = PlayerViews.vitals p).
    { apply PlayerFacts.vitals_step. intros amount attackerX ->. discriminate Hd. }
    unfold PlayerViews.vitals in H. injection H as H1 H2. split; assumption.
  - assert (H : EnemyViews.vitals (Enemy.step ev e) = EnemyViews.vitals e).
    { apply EnemyFacts.enemy_vitals_step. intros amount attackerX ty ->. discriminate Hd. }
    unfold EnemyViews.vitals in H. injection H as H1 H2. split; assumption.
Qed.

(** A [takeDamage] call leaves health alone or subtracts and clamps. *)
Lemma step_damage ev c amount :
  damageOf ev = Some amount ->
  (health (step ev c) = health c \/
   health (step ev c) = Num.Math_max 0 (health c - amount)) /\
  maxHealth (step ev c) = maxHealth c.
Proof.
  intros Hd. destruct ev as [ev|ev], c as [p|e]; cbn [step];
    try (split; [left|]; reflexivity); destruct ev; try discriminate Hd;
    cbn [damageOf] in Hd; injection Hd as ->.
  - pose proof (PlayerFacts.vitals_takeDamage amount attackerX p) as H.
    cbn [Player.step health maxHealth]. unfold Player.getCurrentHealth, Player.getMaxHealth.
    unfold PlayerViews.vitals in H.
    destruct (Player.isInvincible p || (Player.currentHealth p <=? 0));
      injection H as -> ->; auto.
  - pose proof (enemy_vitals_takeDamage amount attackerX attackType e) as H.
    cbn [Enemy.step health maxHealth]. unfold Enemy.getCurrentHealth, Enemy.getMaxHealth.
    unfold EnemyViews.vitals in H.
    destruct (Enemy.isInvincible e || (Enemy.currentHealth e <=? 0));
      injection H as -> ->; auto.
Qed.

Lemma step_bounds ev c :
  nonNegativeDamage ev -> 0 <= health c <= maxHealth c ->
  0 <= health (step ev c) /\ health (step ev c) <= health c /\
  maxHealth (step ev c) = maxHealth c.
Proof.
  unfold nonNegativeDamage. intros Hn Hb. destruct (damageOf ev) as [amount|] eqn:Hd.
  - destruct (step_damage ev c amount Hd) as [[H|H] Hm]; rewrite H, Hm.
    + repeat split; lra.
    + pose proof (Math_max_0_nonneg (health c - amount)).
      pose proof (Math_max_0_le (health c) amount).
      repeat split; lra.
  - destruct (step_other ev c Hd) as [-> ->]. repeat split; lra.
Qed.

Lemma run_bounds evs : forall c,
  Forall nonNegativeDamage evs -> 0 <= health c <= maxHealth c ->
  0 <= health (run evs c) /\ health (run evs c) <= health c /\
  maxHealth (run evs c) = maxHealth c.
Proof.
  induction evs as [|ev evs IH]; intros c Hn Hb.
  - cbn. repeat split; lra.
  - inversion Hn; subst.
    change (run (ev :: evs) c) with (run evs (step ev c)).
    destruct (step_bounds ev c H1 Hb) as (S1 & S2 & S3).
    destruct (IH (step ev c) H2) as (R1 & R2 & R3); [rewrite S3; lra|].
    repeat split; [lra | lra | congruence].
Qed.

(** Nothing happens to the health of a dead combatant. *)
Lemma step_dead ev c : health c <= 0 -> health (step ev c) = health c.
Proof.
  intros Hz. destruct (damageOf ev) as [amount|] eqn:Hd.
  - destruct ev as [ev|ev], c as [p|e]; cbn [step]; try reflexivity;
      destruct ev; try discriminate Hd; cbn [Player.step Enemy.step health] in *.
    + unfold Player.getCurrentHealth in *.
      rewrite PlayerFacts.takeDamage_guard; [reflexivity | right; exact Hz].
    + unfold Enemy.getCurrentHealth in *.
      rewrite enemy_takeDamage_guard; [reflexivity | right; exact Hz].
  - apply step_other. exact Hd.
Qed.

Lemma run_dead evs : forall c, health c <= 0 -> health (run evs c) = health c.
Proof.
  induction evs as [|ev evs IH]; intros c Hz; [reflexivity|].
  change (run (ev :: evs) c) with (run evs (step ev c)).
  rewrite IH; [apply step_dead; exact Hz|]. rewrite step_dead; assumption.
Qed.

Lemma isDead_health c : isDead c = true <-> health c <= 0.
Proof.
  destruct c; cbn [isDead health];
    unfold Player.isDead, Enemy.isDead, Player.getCurrentHealth, Enemy.getCurrentHealth;
    match goal with |- context [Num.leb ?a ?b] => destruct (leb_spec a b) end;
    split; intros; (assumption || reflexivity || discriminate || contradiction).
Qed.

Lemma enemy_takeDamage_lethal amount attackerX ty e :
  Enemy.isInvincible e = false -> 0 < Enemy.currentHealth e ->
  Enemy.currentHealth e <= amount ->
  Enemy.currentHealth (Enemy.takeDamage amount attackerX ty e) = 0.
Proof.
  intros Hi Hpos Hle.
  pose proof (enemy_vitals_takeDamage amount attackerX ty e) as H.
  rewrite Hi in H. cbn [orb] in H.
  destruct (leb_spec (Enemy.currentHealth e) 0); [lra|].
  rewrite (Math_max_0_dead _ _ Hle) in H. unfold EnemyViews.vitals in H.
  injection H as H _. exact H.
Qed.

Lemma enemy_state_not_dead s : ofEnemyState s <> Dead.
Proof. destruct s; discriminate. Qed.

End CombatantFacts.

Module SceneFacts.
Import GameScene.

Lemma overlap_iff hb sx sy bw bh :
  hitboxOverlapsBody hb sx sy bw bh = true <->
  rect_x hb < sx + bw / 2 /\
  sx - bw / 2 < rect_x hb + rect_width hb /\
  rect_y hb < sy + bh / 2 /\
  sy - bh / 2 < rect_y hb + rect_height hb.
Proof.
  unfold hitboxOverlapsBody. cbv zeta.
  destruct (ltb_spec (rect_x hb) (sx + bw / 2));
  destruct (gtb_spec (rect_x hb + rect_width hb) (sx - bw / 2));
  destruct (ltb_spec (rect_y hb) (sy + bh / 2));
  destruct (gtb_spec (rect_y hb + rect_height hb) (sy - bh / 2));
  cbn [andb]; split; intros H; try discriminate; try reflexivity;
  try (repeat split; assumption); destruct H as (? & ? & ? & ?); contradiction.
Qed.

Lemma touching_no_overlap hb sx sy bw bh :
  touchesEdge hb sx sy bw bh -> hitboxOverlapsBody hb sx sy bw bh = false.
Proof.
  intros Ht. destruct (hitboxOverlapsBody hb sx sy bw bh) eqn:E; [|reflexivity].
  apply overlap_iff in E. destruct E as (E1 & E2 & E3 & E4).
  unfold touchesEdge in Ht. destruct Ht as [H|[H|[H|H]]]; rewrite H in *; lra.
Qed.

Lemma getTimeUntilAttack_nonneg now e : 0 <= Enemy.getTimeUntilAttack now e.
Proof.
  unfold Enemy.getTimeUntilAttack. destruct (negb _); [lra|]. apply Math_max_0_nonneg.
Qed.

(** The time GameScene reports to the player is never negative. *)
Lemma getTimeUntilEnemyAttack_nonneg now enemies :
  0 <= getTimeUntilEnemyAttack now enemies.
Proof.
  unfold getTimeUntilEnemyAttack. cbv zeta.
  set (f := fun (minTime : option Q) enemy => _).
  assert (H : forall l acc,
             match acc with Some m => 0 <= m | None => True end ->
             match fold_left f l acc with Some m => 0 <= m | None => True end).
  { induction l as [|e l IH]; intros acc Ha; [exact Ha|].
    cbn [fold_left]. apply IH. unfold f.
    destruct (negb (Enemy.isDead e) && Enemy.isShowingWarning e); [|exact Ha].
    pose proof (getTimeUntilAttack_nonneg now e).
    destruct acc as [m|]; [|assumption].
    destruct (Enemy.getTimeUntilAttack now e <? m); assumption. }
  specialize (H enemies None I). destruct (fold_left f enemies None); [exact H | lra].
Qed.

End SceneFacts.

(** ** The claims *)

(** *** C1 *)

(** C1, as stated, fails: the enemy has no Dead state.  An enemy killed by
    an uppercut is left in HURT with health 0, a later [takeDamage] finds
    it there, and the end of its hurt animation returns it to IDLE. *)
Lemma C1_enemy_never_in_dead_state :
  let dead := Enemy.takeDamage 300 0 (Some "uppercut"%string) (Enemy.new 1180 590) in
  let again :=
    Combatant.takeDamage 10 0 (Some "uppercut"%string) (Combatant.OfEnemy dead) in
  Enemy.takeDamageThrows (Some "uppercut"%string) (Enemy.new 1180 590) = false /\
  Enemy.currentHealth dead = 0 /\
  Combatant.health again = 0 /\
  Combatant.state again = Combatant.Hurt /\
  Combatant.state again <> Combatant.Dead /\
  Combatant.state (Combatant.step (Combatant.ToEnemy Enemy.AnimationComplete) again)
  = Combatant.Idle.
Proof. vm_compute. repeat split; discriminate. Qed.

(** C1 (amended): once [takeDamage] has brought the health of a combatant
    to 0 the combatant is dead and stays dead: whatever happens afterwards
    its health is 0, [isDead()] holds, and every further [takeDamage] call
    changes nothing at all.  The lethal call leaves the player in the Dead
    state; the enemy has no such state and is dead by its health alone. *)
Theorem C1_death_is_terminal :
  forall (c : Combatant.t) (amount attackerX : Q) (attackType : option string)
         (evs : list Combatant.Event)
         (amount' attackerX' : Q) (attackType' : option string),
    Combatant.isInvincible c = false ->
    0 < Combatant.health c ->
    Combatant.health c <= amount ->
    let dead := Combatant.takeDamage amount attackerX attackType c in
    let later := Combatant.run evs dead in
    Combatant.health dead = 0 /\
    Combatant.isDead dead = true /\
    match c with
    | Combatant.OfPlayer _ => Combatant.state dead = Combatant.Dead
    | Combatant.OfEnemy _ => Combatant.state dead <> Combatant.Dead
    end /\
    Combatant.health later = 0 /\
    Combatant.isDead later = true /\
    Combatant.takeDamage amount' attackerX' attackType' later = later.
Proof.
  intros c amount attackerX attackType evs amount' attackerX' attackType'
         Hi Hpos Hle dead later.
  assert (Hd : Combatant.health dead = 0 /\
               match c with
               | Combatant.OfPlayer _ => Combatant.state dead = Combatant.Dead
               | Combatant.OfEnemy _ => Combatant.state dead <> Combatant.Dead
               end).
  { unfold dead. destruct c as [p|e];
      cbn [Combatant.takeDamage Combatant.health Combatant.state
           Combatant.isInvincible] in *.
    - destruct (PlayerFacts.takeDamage_lethal amount attackerX p Hi Hpos Hle) as [H1 H2].
      unfold Player.getCurrentHealth, Player.getState. rewrite H2. split; [exact H1|reflexivity].
    - split; [apply CombatantFacts.enemy_takeDamage_lethal; assumption|].
      apply CombatantFacts.enemy_state_not_dead. }
  destruct Hd as [Hz Hs].
  assert (Hl : Combatant.health later = 0).
  { unfold later. rewrite CombatantFacts.run_dead; [exact Hz | rewrite Hz; lra]. }
  split; [exact Hz|]. split; [apply CombatantFacts.isDead_health; rewrite Hz; lra|].
  split; [exact Hs|]. split; [exact Hl|].
  split; [apply CombatantFacts.isDead_health; rewrite Hl; lra|].
  apply CombatantFacts.combatant_takeDamage_guard. right. rewrite Hl. lra.
Qed.

Lemma C1_death_is_terminal_witness :
  let c := Combatant.OfPlayer (Player.new 100 590) in
  let dead := Combatant.takeDamage 100 1180 None c in
  let later :=
    Combatant.run [Combatant.ToPlayer Player.AnimationComplete;
                   Combatant.ToPlayer (Player.Frame 16 Player.noInput Player.calm 0)]
                  dead in
  Combatant.health dead = 0 /\
  Combatant.isDead dead = true /\
  Combatant.state dead = Combatant.Dead /\
  Combatant.health later = 0 /\
  Combatant.isDead later = true /\
  Combatant.takeDamage 20 1180 None later = later.
Proof.
  apply (C1_death_is_terminal (Combatant.OfPlayer (Player.new 100 590))
           100 1180 None
           [Combatant.ToPlayer Player.AnimationComplete;
            Combatant.ToPlayer (Player.Frame 16 Player.noInput Player.calm 0)]
           20 1180 None).
  - reflexivity.
  - reflexivity.
  - vm_compute. discriminate.
Defined.

(** *** C2 *)

(** C2, as stated, fails by the rounding of the timer.  With frames of
    16.7 ms and a warning 68 ms before the attack, queueCounterDodge sets
    the timer to 668.  Forty frames later less than 668 ms have passed (the
    double next to 16.7 lies below it), yet the forty subtractions have
    brought the timer just below 0 and [update()] has cleared
    [isInvincible]. *)
Lemma C2_rounding_ends_invincibility_early :
  let delta := (167 / 10)%float in
  let pressed := Double.queueCounterDodge 68 Double.rest in
  let later := Double.idleFrames 40 delta pressed in
  Double.isInvincible pressed = true /\
  Double.toQ (Double.invincibilityTimer pressed) == 68 + 600 /\
  40 * Double.toQ delta < 68 + 600 /\
  Double.isInvincible (Double.idleFrames 39 delta pressed) = true /\
  Double.isInvincible later = false /\
  PrimFloat.ltb (Double.invincibilityTimer later) 0 = true.
Proof. vm_compute. repeat split; reflexivity. Qed.

(** C2 (amended): a counter-dodge press that handleCounterDodge accepts
    while an enemy shows a warning with [T] ms to go sets [isInvincible] and
    sets the invincibility timer to [T + 600] in that very frame; and when
    [T] and the times of the frames that follow are whole numbers of
    milliseconds, the player is invincible after every later event for as
    long as less than [T + 600] ms of game time have passed since the
    press.  (On whole numbers the timer of the source, a double, takes the
    values computed here; the two hypotheses on whole times say no more than
    that.) *)
Theorem C2_counter_dodge_invincibility :
  forall (p : Player.t) (delta T : Q) (inp : Player.Input) (env : Player.Env)
         (clockRandom : Q) (evs : list Player.Event),
    (* the press is accepted *)
    Player.lockedForDodge p = false ->
    Player.counterDodgeQueued p = false ->
    Player.delayedCalls p = [] ->
    Player.isDebugHurtPressed inp = false ->
    Player.isDebugHurtStomachPressed inp = false ->
    Player.isCounterDodgePressed inp = true ->
    (* an enemy is telegraphing, T ms before its attack *)
    Player.isAnyEnemyShowingWarning env = Some true ->
    Player.getTimeUntilEnemyAttack env = Some T ->
    Num.whole T = true ->
    (* what follows the press *)
    Forall Player.forward evs ->
    Forall Player.warningTimeNonNegative evs ->
    Forall Player.wholeTimes evs ->
    Player.elapsed evs < T + 600 ->
    let pressed := Player.step (Player.Frame delta inp env clockRandom) p in
    Player.isInvincible pressed = true /\
    Player.invincibilityTimer pressed = T + 600 /\
    Player.isInvincible (Player.run evs pressed) = true.
Proof.
  intros p delta T inp env rnd evs Hl Hq Hdc Hk1 Hk2 Hp Hw Ht HwT Hf Hn Hwh He pressed.
  (* the state handleCounterDodge finds *)
  set (q := Player.handleDebugHurt inp
              (Player.updateTimers delta (Player.advanceClock delta rnd p))).
  assert (Hq0 : PlayerViews.dodgeQueue q = (false, [])).
  { unfold q. rewrite PlayerFacts.dodgeQueue_handleDebugHurt,
      PlayerFacts.dodgeQueue_updateTimers.
    unfold PlayerViews.dodgeQueue, Player.advanceClock. rewrite Hdc.
    PlayerFacts.fields. rewrite Hq. reflexivity. }
  assert (Hql : Player.lockedForDodge q = false).
  { unfold q, Player.handleDebugHurt. rewrite Hk1, Hk2.
    assert (Hs : Player.currentState
                   (Player.updateTimers delta (Player.advanceClock delta rnd p))
                 = Player.currentState p).
    { unfold Player.updateTimers. cbv zeta.
      unfold Player.advanceClock. rewrite Hdc. PlayerFacts.cases; reflexivity. }
    unfold Player.lockedForDodge in *. rewrite Hs. exact Hl. }
  unfold PlayerViews.dodgeQueue in Hq0. injection Hq0 as Hqq Hqd.
  (* the press *)
  assert (Hs : PlayerViews.shield pressed = (true, T + 600) /\
               PlayerViews.queueFits (T + 600) 0 (PlayerViews.dodgeQueue pressed)).
  { unfold pressed. cbn [Player.step].
    rewrite PlayerFacts.shield_update, PlayerFacts.dodgeQueue_update. fold q.
    unfold Player.handleCounterDodge. rewrite Hql, Hqq, Hp, Hw. cbn [orb].
    unfold Player.queueCounterDodge. rewrite Ht. cbv zeta.
    destruct (gtb_spec T 0); unfold PlayerViews.shield, PlayerViews.dodgeQueue,
      PlayerViews.queueFits, Player.performCounterDodge, Player.play, Player.once;
      PlayerFacts.fields; (split; [reflexivity|]).
    - rewrite Hqd. exists T. split; [reflexivity | lra].
    - split; [exact Hqd | lra]. }
  destruct Hs as [Hs Hfit].
  assert (Hc : PlayerViews.covered (T + 600) 0 pressed).
  { split; [|exact Hfit]. rewrite Hs. intros _. cbn [fst snd]. split; [reflexivity | lra]. }
  unfold PlayerViews.shield in Hs. injection Hs as Hi Htm.
  split; [exact Hi|]. split; [exact Htm|].
  destruct (PlayerFacts.covered_run evs (T + 600) pressed Hf Hn Hc) as [Hsh _].
  destruct Hsh as [H _]; [lra | exact H].
Qed.

Lemma C2_counter_dodge_invincibility_witness :
  let pressed :=
    Player.step (Player.Frame 16 Player.counterDodgeKey (Player.warned 300) 0)
                (Player.new 100 590) in
  let evs :=
    Player.idleFrames 18 16 ++
    [Player.Physics (Player.standing 100 590); Player.AnimationComplete;
     Player.Frame 16 Player.counterDodgeKey (Player.warned 200) 0] ++
    Player.idleFrames 30 16 in
  Player.isInvincible pressed = true /\
  Player.invincibilityTimer pressed = 300 + 600 /\
  Player.isInvincible (Player.run evs pressed) = true.
Proof.
  apply (C2_counter_dodge_invincibility (Player.new 100 590) 16 300
           Player.counterDodgeKey (Player.warned 300) 0
           (Player.idleFrames 18 16 ++
            [Player.Physics (Player.standing 100 590); Player.AnimationComplete;
             Player.Frame 16 Player.counterDodgeKey (Player.warned 200) 0] ++
            Player.idleFrames 30 16)).
  - reflexivity.
  - reflexivity.
  - reflexivity.
  - reflexivity.
  - reflexivity.
  - reflexivity.
  - reflexivity.
  - reflexivity.
  - reflexivity.
  - cbn. repeat constructor; cbn; discriminate.
  - cbn. repeat constructor; cbn; discriminate.
  - cbn. repeat constructor.
  - vm_compute. reflexivity.
Defined.

(** *** C3 *)



(** *** C4 *)

(** C4 (amended): a primary-punch press by a grounded player on whom no
    chain is armed starts a Punch and arms the chain ([comboCount] 1,
    [comboTimer] 800, [comboDelayTimer] 250).  If the key is pressed again
    while grounded and not hurt, with no punch press in between, then a
    press processed at least 250 ms and less than 800 ms of game time after
    the first starts an Uppercut and resets [comboCount] and [comboTimer]
    to 0, and a press processed 800 ms or more after the first, by a player
    who is not attacking, starts a fresh Punch.  The times of the frames
    after the first press are whole numbers of milliseconds: on these the
    two timers of the source, doubles, take the values computed here (see
    [C4_rounding_moves_the_window] for other frame times). *)
Theorem C4_combo_window :
  forall (p : Player.t) (d0 d1 : Q) (inp0 inp1 : Player.Input)
         (env0 env1 : Player.Env) (rnd0 rnd1 : Q) (evs : list Player.Event),
    (* the first press: grounded, free to attack, no chain armed *)
    Player.currentState p <> Player.HURT ->
    Player.currentState p <> Player.ATTACKING ->
    Player.blockedDown p = true ->
    Player.comboCount p = 0%Z ->
    Player.bufferedAttack p = None ->
    Player.isDebugHurtPressed inp0 = false ->
    Player.isDebugHurtStomachPressed inp0 = false ->
    Player.isPunchPressed inp0 = true ->
    Player.isUppercutPressed inp0 = false ->
    (* what happens until the second press *)
    Forall Player.forward evs ->
    Forall Player.noPunchPress evs ->
    Forall Player.wholeTimes evs ->
    (* the second press *)
    0 <= d1 ->
    Num.whole d1 = true ->
    Player.isDebugHurtPressed inp1 = false ->
    Player.isDebugHurtStomachPressed inp1 = false ->
    Player.isPunchPressed inp1 = true ->
    let armed := Player.step (Player.Frame d0 inp0 env0 rnd0) p in
    let mid := Player.run evs armed in
    let final := Player.step (Player.Frame d1 inp1 env1 rnd1) mid in
    Player.currentState mid <> Player.HURT ->
    Player.blockedDown mid = true ->
    (Player.currentAttackType armed = Some Player.Punch /\
     Player.comboCount armed = 1%Z /\
     Player.comboTimer armed = Player.COMBO_WINDOW /\
     Player.comboDelayTimer armed = Player.COMBO_MIN_DELAY) /\
    (Player.COMBO_MIN_DELAY <= Player.elapsed evs + d1 < Player.COMBO_WINDOW ->
       Player.currentState final = Player.ATTACKING /\
       Player.currentAttackType final = Some Player.Uppercut /\
       Player.comboCount final = 0%Z /\
       Player.comboTimer final = 0) /\
    (Player.COMBO_WINDOW <= Player.elapsed evs + d1 ->
     Player.currentState mid <> Player.ATTACKING ->
     Player.isUppercutPressed inp1 = false ->
       Player.currentState final = Player.ATTACKING /\
       Player.currentAttackType final = Some Player.Punch /\
       Player.comboCount final = 1%Z /\
       Player.comboTimer final = Player.COMBO_WINDOW /\
       Player.comboDelayTimer final = Player.COMBO_MIN_DELAY).
Proof.
  intros p d0 d1 inp0 inp1 env0 env1 rnd0 rnd1 evs
         Hs Ha Hg Hc Hb Hk1 Hk2 Hp Hu Hf Hn Hwh Hd1 Hwd Hk1' Hk2' Hp'
         armed mid final Hms Hmg.
  destruct (PlayerFacts.first_punch_frame d0 inp0 env0 rnd0 p Hs Ha Hg Hk1 Hk2 Hp Hu Hc)
    as [Hv Hbuf].
  fold armed in Hv, Hbuf. unfold PlayerViews.attackView, PlayerViews.comboView in Hv.
  injection Hv as A1 A2 A3 A4 A5 A6.
  assert (Harm : PlayerViews.chained 0 armed).
  { apply PlayerFacts.armed_chained; try assumption.
    rewrite Hbuf, Hb. discriminate. }
  pose proof (PlayerFacts.chained_run evs 0 armed Hf Hn Harm) as Hmid. fold mid in Hmid.
  destruct (PlayerFacts.punch_frame (0 + Player.elapsed evs) d1 inp1 env1 rnd1 mid
              Hd1 Hmid Hms Hmg Hk1' Hk2' Hp') as [Hup Hfr].
  fold final in Hup, Hfr.
  split; [repeat split; assumption|]. split.
  - unfold Player.COMBO_MIN_DELAY, Player.COMBO_WINDOW. intros Hr.
    destruct Hup as (U1 & U2 & U3 & U4 & U5); [lra|]. repeat split; assumption.
  - unfold Player.COMBO_WINDOW at 1. intros Hr Hna Hu1.
    destruct Hfr as (F1 & F2 & F3 & F4 & F5 & F6); [lra | assumption..|].
    repeat split; assumption.
Qed.

Lemma C4_combo_window_witness :
  let p := Player.step (Player.Physics (Player.standing 100 590)) (Player.new 100 590) in
  let armed := Player.step (Player.Frame 10 Player.punchKey Player.calm 0) p in
  let evs := Player.idleFrames 29 10 in
  let mid := Player.run evs armed in
  let final := Player.step (Player.Frame 10 Player.punchKey Player.calm 0) mid in
  (Player.currentAttackType armed = Some Player.Punch /\
   Player.comboCount armed = 1%Z /\
   Player.comboTimer armed = Player.COMBO_WINDOW /\
   Player.comboDelayTimer armed = Player.COMBO_MIN_DELAY) /\
  (Player.COMBO_MIN_DELAY <= Player.elapsed evs + 10 < Player.COMBO_WINDOW ->
     Player.currentState final = Player.ATTACKING /\
     Player.currentAttackType final = Some Player.Uppercut /\
     Player.comboCount final = 0%Z /\
     Player.comboTimer final = 0) /\
  (Player.COMBO_WINDOW <= Player.elapsed evs + 10 ->
   Player.currentState mid <> Player.ATTACKING ->
   Player.isUppercutPressed Player.punchKey = false ->
     Player.currentState final = Player.ATTACKING /\
     Player.currentAttackType final = Some Player.Punch /\
     Player.comboCount final = 1%Z /\
     Player.comboTimer final = Player.COMBO_WINDOW /\
     Player.comboDelayTimer final = Player.COMBO_MIN_DELAY).
Proof.
  apply (C4_combo_window
           (Player.step (Player.Physics (Player.standing 100 590)) (Player.new 100 590))
           10 10 Player.punchKey Player.punchKey Player.calm Player.calm 0 0
           (Player.idleFrames 29 10)).
  - cbn. discriminate.
  - cbn. discriminate.
  - reflexivity.
  - reflexivity.
  - reflexivity.
  - reflexivity.
  - reflexivity.
  - reflexivity.
  - reflexivity.
  - cbn. repeat constructor; cbn; discriminate.
  - cbn. repeat constructor.
  - cbn. repeat constructor.
  - vm_compute. discriminate.
  - reflexivity.
  - reflexivity.
  - reflexivity.
  - reflexivity.
  - vm_compute. discriminate.
  - reflexivity.
Defined.

(** C4, as stated, fails at the upper end of the window: a second press
    exactly COMBO_WINDOW = 800 ms after the first finds the chain expired
    ([comboTimer] has reached 0 and [comboCount] is reset) and starts a
    fresh Punch, not an Uppercut. *)
Lemma C4_second_press_at_800_is_a_punch :
  let p := Player.step (Player.Physics (Player.standing 100 590)) (Player.new 100 590) in
  let armed := Player.step (Player.Frame 10 Player.punchKey Player.calm 0) p in
  let evs :=
    Player.idleFrames 50 10 ++ [Player.AnimationComplete] ++ Player.idleFrames 29 10 in
  let final :=
    Player.step (Player.Frame 10 Player.punchKey Player.calm 0) (Player.run evs armed) in
  Player.currentAttackType armed = Some Player.Punch /\
  Player.elapsed evs + 10 == Player.COMBO_WINDOW /\
  Player.currentAttackType final = Some Player.Punch /\
  Player.currentAttackType final <> Some Player.Uppercut /\
  Player.comboCount final = 1%Z /\
  Player.comboTimer final = Player.COMBO_WINDOW.
Proof. vm_compute. repeat split; (reflexivity || discriminate). Qed.

(** With frames of 1000/60 ms the doubles move both ends of the window by
    a frame.  Fifteen frames after the punch 250 ms have passed, yet
    [comboDelayTimer] is still above 0 and the combo test fails; forty-eight
    frames after it 800 ms have passed, yet [comboTimer] is still above 0,
    [comboCount] is still 1 and the combo test succeeds. *)
Lemma C4_rounding_moves_the_window :
  let delta := (1000 / 60)%float in
  let armed := Double.performPunch Double.rest in
  (250 <= 15 * Double.toQ delta /\
   Double.comboReady (Double.idleFrames 15 delta armed) = false) /\
  (800 <= 48 * Double.toQ delta /\
   Double.comboReady (Double.idleFrames 48 delta armed) = true).
Proof. vm_compute. repeat split; (reflexivity || discriminate). Qed.

(** *** C5 *)




(** *** C6 *)

(** C6, as stated, fails at distance 100: with a jitter of -24 the Attack
    threshold is 96 and the chasing enemy keeps chasing. *)
Lemma C6_chase_at_100_may_stay_chase :
  let ai := EnemyAIController.forceState EnemyAIController.CHASE
              (EnemyAIController.new, Enemy.new 200 590) in
  EnemyAIController.variance (1 # 10) == -24 /\
  EnemyAIController.currentState
    (fst (EnemyAIController.checkStateTransitions 100 (1 # 10) ai))
  = EnemyAIController.CHASE.
Proof. vm_compute. split; reflexivity. Qed.

(** C6 (amended): with the jitter [variance] in [-30, 30), the state of
    the AI after the transition check, and after a whole [update] when
    enemy and player are alive, is the one the transition table gives:
    Idle to Chase below 2000 + variance; Chase to Attack below
    120 + variance, else to Idle above 600 + variance; Attack to Chase above
    140; Retreat to Chase once the state timer has reached 500 ms; no other
    change.  An idle enemy at distance 2500 stays idle.  A chasing enemy at
    distance 100 goes to Attack exactly when the variance drawn is above
    -20; below distance 90 it always does. *)
Theorem C6_ai_transition_table :
  forall (w : EnemyAIController.world) (player : Player.t)
         (rnd : EnemyAIController.Randoms) (distance delta now : Q),
    0 <= EnemyAIController.varianceRandom rnd < 1 ->
    Enemy.isDead (snd w) = false ->
    Player.isDead player = false ->
    let variance := EnemyAIController.variance (EnemyAIController.varianceRandom rnd) in
    let state := EnemyAIController.currentState (fst w) in
    let next :=
      EnemyAIController.currentState
        (fst (EnemyAIController.checkStateTransitions
                distance (EnemyAIController.varianceRandom rnd) w)) in
    -30 <= variance < 30 /\
    next = EnemyAIController.transitionTable state distance variance
             (EnemyAIController.stateTimer (fst w)) /\
    EnemyAIController.currentState
      (fst (EnemyAIController.update delta now rnd player w))
    = EnemyAIController.transitionTable state
        (Num.Math_abs (Player.x player - Enemy.getX (snd w))) variance
        (EnemyAIController.stateTimer (fst w) + delta) /\
    (state = EnemyAIController.IDLE -> distance == 2500 ->
       next = EnemyAIController.IDLE) /\
    (state = EnemyAIController.CHASE -> distance == 100 ->
       (next = EnemyAIController.ATTACK <-> -20 < variance)) /\
    (state = EnemyAIController.CHASE -> distance < 90 ->
       next = EnemyAIController.ATTACK).
Proof.
  intros w player rnd distance delta now Hr He Hp variance state next.
  pose proof (AIFacts.variance_range _ Hr) as Hv. fold variance in Hv.
  assert (Ht : next = EnemyAIController.transitionTable state distance variance
                        (EnemyAIController.stateTimer (fst w)))
    by apply AIFacts.checkStateTransitions_table.
  split; [exact Hv|]. split; [exact Ht|]. split.
  { apply AIFacts.update_table; assumption. }
  rewrite Ht. unfold EnemyAIController.transitionTable.
  split; [|split]; intros -> Hd.
  - destruct (ltb_spec distance (2000 + variance)); [lra | reflexivity].
  - destruct (ltb_spec distance (120 + variance)).
    + split; [intros _; lra | reflexivity].
    + split; [|lra]. destruct (distance >? 600 + variance); discriminate.
  - destruct (ltb_spec distance (120 + variance)); [reflexivity | lra].
Qed.

Lemma C6_ai_transition_table_witness :
  let w := EnemyAIController.forceState EnemyAIController.CHASE
             (EnemyAIController.new, Enemy.new 200 590) in
  let rnd := {| EnemyAIController.varianceRandom := 1 # 10;
                EnemyAIController.jumpRandom := 1 # 2;
                EnemyAIController.pauseRandom := 1 # 2;
                EnemyAIController.pauseDurationRandom := 1 # 2;
                EnemyAIController.attackChoiceRandom := 1 # 4;
                EnemyAIController.retreatRandom := 1 # 2 |} in
  let variance := EnemyAIController.variance (1 # 10) in
  let next :=
    EnemyAIController.currentState
      (fst (EnemyAIController.checkStateTransitions 100 (1 # 10) w)) in
  -30 <= variance < 30 /\
  next = EnemyAIController.transitionTable EnemyAIController.CHASE 100 variance
           (EnemyAIController.stateTimer (fst w)) /\
  EnemyAIController.currentState
    (fst (EnemyAIController.update 16 0 rnd (Player.new 100 590) w))
  = EnemyAIController.transitionTable EnemyAIController.CHASE
      (Num.Math_abs (Player.x (Player.new 100 590) - Enemy.getX (snd w))) variance
      (EnemyAIController.stateTimer (fst w) + 16) /\
  (EnemyAIController.CHASE = EnemyAIController.IDLE -> 100 == 2500 ->
     next = EnemyAIController.IDLE) /\
  (EnemyAIController.CHASE = EnemyAIController.CHASE -> 100 == 100 ->
     (next = EnemyAIController.ATTACK <-> -20 < variance)) /\
  (EnemyAIController.CHASE = EnemyAIController.CHASE -> 100 < 90 ->
     next = EnemyAIController.ATTACK).
Proof.
  apply (C6_ai_transition_table
           (EnemyAIController.forceState EnemyAIController.CHASE
              (EnemyAIController.new, Enemy.new 200 590))
           (Player.new 100 590)
           {| EnemyAIController.varianceRandom := 1 # 10;
              EnemyAIController.jumpRandom := 1 # 2;
              EnemyAIController.pauseRandom := 1 # 2;
              EnemyAIController.pauseDurationRandom := 1 # 2;
              EnemyAIController.attackChoiceRandom := 1 # 4;
              EnemyAIController.retreatRandom := 1 # 2 |}
           100 16 0).
  - vm_compute. split; [discriminate | reflexivity].
  - reflexivity.
  - reflexivity.
Defined.

(** *** C7 *)

(** C7 (amended): a jump press in the air with no jump left sets the
    buffer timer to 150 ms and starts no jump.  If the player stays in the
    air with the key up and then lands, the first frame on the ground
    starts a jump (vertical velocity -450, one jump left, buffer cleared)
    when less than 150 ms of game time have passed since the press, and
    starts none when 150 ms or more have passed; in both cases the jump
    count is reset to 2 on the ground before the jump, if any, takes one.
    The times of the frames after the press are whole numbers of
    milliseconds: on these the buffer timer of the source, a double, takes
    the values computed here (see [C7_rounding_keeps_the_buffer] for other
    frame times). *)
Theorem C7_jump_buffer :
  forall (p : Player.t) (d0 dL : Q) (inp0 inpL : Player.Input)
         (env0 envL : Player.Env) (rnd0 rndL : Q)
         (evs : list Player.Event) (b : Player.BodyStep),
    (* the press: in the air, no jump left *)
    Player.blockedDown p = false ->
    (Player.jumpsRemaining p <= 0)%Z ->
    Player.isJumpPressed inp0 = true ->
    (* the rest of the flight *)
    Forall Player.forward evs ->
    Forall Player.inFlight evs ->
    Forall Player.wholeTimes evs ->
    (* the landing and the first frame on the ground *)
    Player.new_blockedDown b = true ->
    0 <= dL ->
    Num.whole dL = true ->
    Player.isJumpPressed inpL = false ->
    let pressed := Player.step (Player.Frame d0 inp0 env0 rnd0) p in
    let landed := Player.step (Player.Physics b) (Player.run evs pressed) in
    let final := Player.step (Player.Frame dL inpL envL rndL) landed in
    (Player.jumpBufferTimer pressed = Player.CONFIG.JUMP_BUFFER_TIME /\
     Player.velocityY pressed = Player.velocityY p /\
     Player.jumpsRemaining pressed = Player.jumpsRemaining p) /\
    (Player.elapsed evs + dL < Player.CONFIG.JUMP_BUFFER_TIME ->
       Player.velocityY final = Player.CONFIG.JUMP_VELOCITY /\
       Player.jumpsRemaining final = (Player.CONFIG.MAX_JUMPS - 1)%Z /\
       Player.jumpBufferTimer final = 0) /\
    (Player.CONFIG.JUMP_BUFFER_TIME <= Player.elapsed evs + dL ->
       Player.velocityY final = Player.velocityY landed /\
       Player.jumpsRemaining final = Player.CONFIG.MAX_JUMPS /\
       Player.jumpBufferTimer final <= 0).
Proof.
  intros p d0 dL inp0 inpL env0 envL rnd0 rndL evs b
         Hg Hr Hj Hf Hi Hwh Hb HdL HwL HjL pressed landed final.
  (* the press *)
  assert (Hp : PlayerViews.flight pressed
               = ((Player.CONFIG.JUMP_BUFFER_TIME, Player.jumpsRemaining p),
                  false, Player.velocityY p)).
  { unfold pressed. cbn [Player.step]. rewrite PlayerFacts.flight_update.
    pose proof (PlayerFacts.flight_beforeJump d0 inp0 env0
                  (Player.advanceClock d0 rnd0 p)) as E.
    rewrite PlayerFacts.flight_advanceClock in E.
    apply PlayerFacts.flight_parts in E. destruct E as (E1 & E2 & E3 & E4).
    rewrite PlayerFacts.press_handleJump; [|assumption|congruence|rewrite E2; assumption].
    rewrite E2, E4. reflexivity. }
  unfold PlayerViews.flight, PlayerViews.jumpView in Hp. injection Hp as P1 P2 P3 P4.
  split; [repeat split; assumption|].
  (* the flight *)
  assert (Hbuf : PlayerViews.buffered 0 pressed).
  { unfold PlayerViews.buffered. rewrite P1, P2, P3. unfold Player.CONFIG.JUMP_BUFFER_TIME.
    repeat split; try assumption; intros; lra. }
  pose proof (PlayerFacts.buffered_run evs 0 pressed Hf Hi Hbuf) as Hmid.
  destruct Hmid as (_ & _ & M1 & M2).
  (* the landing *)
  set (mid := Player.run evs pressed) in *.
  set (q := PlayerViews.beforeJump dL inpL envL (Player.advanceClock dL rndL landed)).
  assert (Hq : PlayerViews.flight q = PlayerViews.flight landed).
  { unfold q. rewrite PlayerFacts.flight_beforeJump. apply PlayerFacts.flight_advanceClock. }
  apply PlayerFacts.flight_parts in Hq. destruct Hq as (Q1 & Q2 & Q3 & Q4).
  assert (Hfin : PlayerViews.flight final = PlayerViews.flight (Player.handleJump dL inpL q)).
  { unfold final. cbn [Player.step]. apply PlayerFacts.flight_update. }
  apply PlayerFacts.flight_parts in Hfin. destruct Hfin as (F1 & F2 & F3 & F4).
  rewrite F1, F2, F4.
  destruct (PlayerFacts.landing_handleJump (0 + Player.elapsed evs) dL inpL q HdL HjL)
    as [Hjump Hnone].
  - rewrite Q3. exact Hb.
  - rewrite Q1. exact M1.
  - rewrite Q1. exact M2.
  - unfold Player.CONFIG.JUMP_BUFFER_TIME. split; intros Hs.
    + destruct Hjump as (J1 & J2 & J3); [lra|]. repeat split; assumption.
    + destruct Hnone as (N1 & N2 & N3); [lra|].
      repeat split; try assumption. rewrite N1. exact Q4.
Qed.

Lemma C7_jump_buffer_witness :
  let p := Player.run [Player.Physics (Player.standing 100 590);
                       Player.Frame 10 Player.jumpKey Player.calm 0;
                       Player.Physics (Player.falling 100 500);
                       Player.Frame 10 Player.jumpKey Player.calm 0]
                      (Player.new 100 590) in
  let pressed := Player.step (Player.Frame 10 Player.jumpKey Player.calm 0) p in
  let evs := Player.idleFrames 13 10 in
  let landed :=
    Player.step (Player.Physics (Player.standing 100 590)) (Player.run evs pressed) in
  let final := Player.step (Player.Frame 10 Player.noInput Player.calm 0) landed in
  (Player.jumpBufferTimer pressed = Player.CONFIG.JUMP_BUFFER_TIME /\
   Player.velocityY pressed = Player.velocityY p /\
   Player.jumpsRemaining pressed = Player.jumpsRemaining p) /\
  (Player.elapsed evs + 10 < Player.CONFIG.JUMP_BUFFER_TIME ->
     Player.velocityY final = Player.CONFIG.JUMP_VELOCITY /\
     Player.jumpsRemaining final = (Player.CONFIG.MAX_JUMPS - 1)%Z /\
     Player.jumpBufferTimer final = 0) /\
  (Player.CONFIG.JUMP_BUFFER_TIME <= Player.elapsed evs + 10 ->
     Player.velocityY final = Player.velocityY landed /\
     Player.jumpsRemaining final = Player.CONFIG.MAX_JUMPS /\
     Player.jumpBufferTimer final <= 0).
Proof.
  apply (C7_jump_buffer
           (Player.run [Player.Physics (Player.standing 100 590);
                        Player.Frame 10 Player.jumpKey Player.calm 0;
                        Player.Physics (Player.falling 100 500);
                        Player.Frame 10 Player.jumpKey Player.calm 0]
                       (Player.new 100 590))
           10 10 Player.jumpKey Player.noInput Player.calm Player.calm 0 0
           (Player.idleFrames 13 10) (Player.standing 100 590)).
  - reflexivity.
  - vm_compute. discriminate.
  - reflexivity.
  - cbn. repeat constructor; cbn; discriminate.
  - cbn. repeat constructor.
  - cbn. repeat constructor.
  - reflexivity.
  - vm_compute. discriminate.
  - reflexivity.
  - reflexivity.
Defined.

(** C7, as stated, fails at the end of the window: a press made exactly
    150 ms before the landing frame finds the buffer at 0 on landing and
    no jump starts; the jump count is back at 2 and the body keeps the
    velocity it landed with. *)
Lemma C7_press_150_ms_before_landing_is_lost :
  let p := Player.run [Player.Physics (Player.standing 100 590);
                       Player.Frame 10 Player.jumpKey Player.calm 0;
                       Player.Physics (Player.falling 100 500);
                       Player.Frame 10 Player.jumpKey Player.calm 0]
                      (Player.new 100 590) in
  let pressed := Player.step (Player.Frame 10 Player.jumpKey Player.calm 0) p in
  let evs := Player.idleFrames 14 10 in
  let landed :=
    Player.step (Player.Physics (Player.standing 100 590)) (Player.run evs pressed) in
  let final := Player.step (Player.Frame 10 Player.noInput Player.calm 0) landed in
  Player.jumpsRemaining p = 0%Z /\
  Player.jumpBufferTimer pressed = 150 /\
  Player.elapsed evs + 10 == 150 /\
  Player.velocityY final = 0 /\
  Player.velocityY final <> Player.CONFIG.JUMP_VELOCITY /\
  Player.jumpsRemaining final = 2%Z.
Proof. vm_compute. repeat split; (reflexivity || discriminate). Qed.

(** With frames of 1000/120 ms the doubles keep the buffer alive a frame
    longer: eighteen frames after the press 150 ms have passed, yet the
    buffer timer is still above 0, and a landing in that frame jumps. *)
Lemma C7_rounding_keeps_the_buffer :
  let delta := (1000 / 120)%float in
  let pressed := Double.pressJump Double.rest in
  150 <= 18 * Double.toQ delta /\
  Double.jumpBuffered (Double.idleFrames 18 delta pressed) = true.
Proof. vm_compute. repeat split; (reflexivity || discriminate). Qed.

(** *** C8 *)

(** C8, as stated, fails: the completion callback of the hurt animation
    checks nothing.  Fired on an enemy that died of an uppercut, it moves
    the dead enemy from HURT to IDLE. *)
Lemma C8_animation_callback_has_no_guard :
  let dead := Enemy.takeDamage 300 0 (Some "uppercut"%string) (Enemy.new 1180 590) in
  Enemy.takeDamageThrows (Some "uppercut"%string) (Enemy.new 1180 590) = false /\
  Enemy.isDead dead = true /\
  Enemy.currentState dead = Enemy.HURT /\
  Enemy.animationcomplete dead = [Enemy.ReturnToIdle] /\
  Enemy.throws Enemy.AnimationComplete dead = false /\
  Enemy.currentState (Enemy.step Enemy.AnimationComplete dead) = Enemy.IDLE.
Proof. vm_compute. repeat split; reflexivity. Qed.

(** C8 (amended): the callbacks that check a guard when they fire are the
    completion of the enemy's warning tween and the two timeouts of the AI
    controller.  The completed warning is hidden, and the attack starts
    exactly when [canAttack()] holds then, that is when the enemy is alive,
    not hurt and not attacking; otherwise nothing else changes, so a dead
    enemy keeps its state.  A timeout changes the controller's state to
    RETREAT or CHASE when the controller is still in ATTACK and changes
    nothing at all when it is not, and it never changes the state of the
    enemy.  The enemy's animation-completion callbacks check nothing: they
    put the enemy in IDLE whatever its health. *)
Theorem C8_guarded_callbacks :
  forall (e : Enemy.t) (tween : Enemy.Tween)
         (w : EnemyAIController.world) (cb : EnemyAIController.TimeoutCallback)
         (acb : Enemy.AnimCallback),
    Enemy.warningTween e = Some tween ->
    let ready := Enemy.hideAttackWarning e in
    let fired := Enemy.step Enemy.TweenComplete e in
    (Enemy.isShowingWarning fired = false /\
     Enemy.canAttack ready
     = negb (Enemy.EnemyState_eqb (Enemy.currentState e) Enemy.ATTACKING) &&
       negb (Enemy.EnemyState_eqb (Enemy.currentState e) Enemy.HURT) &&
       (Enemy.currentHealth e >? 0) /\
     (Enemy.canAttack ready = true ->
        fired = Enemy.perform (Enemy.onComplete tween) ready /\
        Enemy.currentState fired = Enemy.ATTACKING) /\
     (Enemy.canAttack ready = false ->
        fired = ready /\
        Enemy.currentState fired = Enemy.currentState e /\
        Enemy.currentAttackType fired = Enemy.currentAttackType e) /\
     (Enemy.isDead e = true -> Enemy.canAttack ready = false)) /\
    ((EnemyAIController.currentState (fst w) <> EnemyAIController.ATTACK ->
        EnemyAIController.runTimeoutCallback cb w = w) /\
     (EnemyAIController.currentState (fst w) = EnemyAIController.ATTACK ->
        EnemyAIController.currentState (fst (EnemyAIController.runTimeoutCallback cb w))
        = match cb with
          | EnemyAIController.RetreatIfAttacking => EnemyAIController.RETREAT
          | EnemyAIController.ChaseIfAttacking => EnemyAIController.CHASE
          end) /\
     Enemy.currentState (snd (EnemyAIController.runTimeoutCallback cb w))
     = Enemy.currentState (snd w)) /\
    Enemy.currentState (Enemy.runAnimCallback acb e) = Enemy.IDLE.
Proof.
  intros e tween w cb acb Ht ready fired.
  assert (Hf : fired = Enemy.warningCallback (Enemy.onComplete tween) ready).
  { unfold fired, ready. cbn [Enemy.step]. unfold Enemy.completeWarningTween.
    rewrite Ht. reflexivity. }
  assert (Hv : Enemy.currentState ready = Enemy.currentState e /\
               Enemy.currentAttackType ready = Enemy.currentAttackType e /\
               Enemy.currentHealth ready = Enemy.currentHealth e).
  { unfold ready, Enemy.hideAttackWarning. cbv zeta.
    repeat split; EnemyFacts.cases; reflexivity. }
  destruct Hv as (V1 & V2 & V3).
  pose proof (EnemyFacts.hideAttackWarning_hides e) as Hh. fold ready in Hh.
  assert (Hc : Enemy.canAttack ready
               = negb (Enemy.EnemyState_eqb (Enemy.currentState e) Enemy.ATTACKING) &&
                 negb (Enemy.EnemyState_eqb (Enemy.currentState e) Enemy.HURT) &&
                 (Enemy.currentHealth e >? 0)).
  { unfold Enemy.canAttack. rewrite V1, V3, Hh. apply andb_true_r. }
  destruct (EnemyFacts.warningCallback_result (Enemy.onComplete tween) ready Hh)
    as (W1 & W2 & W3).
  rewrite <- Hf in W1, W2, W3.
  split; [|split].
  - split; [exact W1|]. split; [exact Hc|]. split; [exact W2|]. split.
    + intros Hn. rewrite (W3 Hn). repeat split; assumption.
    + intros Hd. rewrite Hc. unfold Enemy.isDead in Hd.
      destruct (leb_spec (Enemy.currentHealth e) 0); [|discriminate].
      destruct (gtb_spec (Enemy.currentHealth e) 0); [lra|]. apply andb_false_r.
  - split; [apply AIFacts.runTimeoutCallback_guard|].
    split; [|apply AIFacts.runTimeoutCallback_enemy_state].
    intros Hs. unfold EnemyAIController.runTimeoutCallback. rewrite Hs.
    destruct cb; cbn [EnemyAIController.AIState_eqb];
      apply AIFacts.transitionTo_state.
  - destruct acb; reflexivity.
Qed.

Lemma C8_guarded_callbacks_witness :
  let warned := snd (Enemy.punch 0 (Enemy.new 1180 590)) in
  let e := Enemy.takeDamage 300 100 (Some "uppercut"%string) warned in
  let w := (EnemyAIController.new, e) in
  let fired := Enemy.step Enemy.TweenComplete e in
  Enemy.isDead e = true /\
  Enemy.isShowingWarning e = true /\
  fired = Enemy.hideAttackWarning e /\
  Enemy.currentState fired = Enemy.currentState e /\
  Enemy.isShowingWarning fired = false /\
  EnemyAIController.runTimeoutCallback EnemyAIController.RetreatIfAttacking w = w.
Proof.
  intros warned e w fired.
  destruct (C8_guarded_callbacks e
              {| Enemy.duration := Enemy.CONFIG.ATTACK_WARNING_DURATION / 2;
                 Enemy.yoyo := true; Enemy.onComplete := Enemy.PendingPunch |}
              w EnemyAIController.RetreatIfAttacking Enemy.ReturnToIdle)
    as ((H1 & _ & _ & H4 & H5) & (G1 & _) & _); [reflexivity|].
  destruct H4 as (F1 & F2 & _); [apply H5; reflexivity|].
  split; [reflexivity|]. split; [reflexivity|]. split; [exact F1|].
  split; [exact F2|]. split; [exact H1|]. apply G1. cbn. discriminate.
Defined.

(** *** C9 *)

(** C9, as stated, fails: the overlap test is strict on all four sides.
    The uppercut hitbox of a player at x = 0 ends at x = 75; an enemy whose
    body starts at x = 75 is not hit, one pixel closer it is. *)
Lemma C9_touching_enemy_is_not_hit :
  let player :=
    Player.run [Player.Physics (Player.standing 0 590);
                Player.Frame 16 (Player.noInput <| Player.isUppercutPressed := true |>)
                  Player.calm 0;
                Player.AnimationFrameChange {| index := 2; frame_name := "1" |}]
               (Player.new 0 590) in
  let touching := Enemy.new 115 590 in
  let closer := Enemy.new 114 590 in
  Player.getAttackHitbox player
  = Some {| rect_x := 0 + 40 - 70 / 2; rect_y := 590 + -50 - 80 / 2;
            rect_width := 70; rect_height := 80 |} /\
  0 + 40 - 70 / 2 + 70 == Enemy.x touching - Enemy.bodyWidth touching / 2 /\
  GameScene.checkPlayerAttacks player [touching] = [touching] /\
  GameScene.checkPlayerAttacksThrows player [closer] = false /\
  map Enemy.currentHealth (GameScene.checkPlayerAttacks player [closer])
  = [300 - Player.DAMAGE.UPPERCUT].
Proof. vm_compute. repeat split; reflexivity. Qed.

(** C9 (amended): the hit test is a strict overlap test.  For an attacker
    that shows a hitbox and a defender that is alive and not invincible,
    [takeDamage] is called on the defender, with the damage of the attack
    and the attacker's x, when hitbox and body bounds overlap with positive
    width and height, and the defender is left as it is when they do not;
    bounds that only touch the hitbox at an edge do not overlap.  This is so
    for the player's attack on an enemy and for an enemy's attack on the
    player. *)
Theorem C9_strict_overlap :
  forall (player : Player.t) (enemy : Enemy.t) (hitbox : Rectangle)
         (player' : Player.t) (enemy' : Enemy.t) (hitbox' : Rectangle),
    Player.getAttackHitbox player = Some hitbox ->
    Enemy.isDead enemy = false ->
    Enemy.isInvincible enemy = false ->
    Enemy.getAttackHitbox enemy' = Some hitbox' ->
    Enemy.isDead enemy' = false ->
    Player.isDead player' = false ->
    Player.isInvincible player' = false ->
    let onEnemy :=
      GameScene.overlapsStrictly hitbox (Enemy.x enemy) (Enemy.y enemy)
        (Enemy.bodyWidth enemy) (Enemy.bodyHeight enemy) in
    let onPlayer :=
      GameScene.overlapsStrictly hitbox' (Player.x player') (Player.y player')
        (Player.bodyWidth player') (Player.bodyHeight player') in
    (* the player's attack *)
    (onEnemy ->
       GameScene.checkPlayerAttacks player [enemy]
       = [Enemy.takeDamage (Player.getAttackDamage player) (Player.x player)
            (Player.getAttackType player) enemy] /\
       Enemy.isInvincible
         (Enemy.takeDamage (Player.getAttackDamage player) (Player.x player)
            (Player.getAttackType player) enemy) = true) /\
    (~ onEnemy -> GameScene.checkPlayerAttacks player [enemy] = [enemy]) /\
    (GameScene.touchesEdge hitbox (Enemy.x enemy) (Enemy.y enemy)
       (Enemy.bodyWidth enemy) (Enemy.bodyHeight enemy) -> ~ onEnemy) /\
    (* the enemy's attack *)
    (onPlayer ->
       GameScene.checkEnemyAttacks player' [enemy']
       = Player.takeDamage (Enemy.getAttackDamage enemy') (Enemy.x enemy') player' /\
       Player.isInvincible
         (Player.takeDamage (Enemy.getAttackDamage enemy') (Enemy.x enemy') player')
       = true) /\
    (~ onPlayer -> GameScene.checkEnemyAttacks player' [enemy'] = player') /\
    (GameScene.touchesEdge hitbox' (Player.x player') (Player.y player')
       (Player.bodyWidth player') (Player.bodyHeight player') -> ~ onPlayer).
Proof.
  intros player enemy hitbox player' enemy' hitbox' H1 Hd Hi H2 Hd' Hpd Hpi
         onEnemy onPlayer.
  assert (Hno : forall hb sx sy bw bh,
            ~ GameScene.overlapsStrictly hb sx sy bw bh ->
            GameScene.hitboxOverlapsBody hb sx sy bw bh = false).
  { intros hb sx sy bw bh Hn.
    destruct (GameScene.hitboxOverlapsBody hb sx sy bw bh) eqn:E; [|reflexivity].
    exfalso. apply Hn. apply SceneFacts.overlap_iff. exact E. }
  assert (Htouch : forall hb sx sy bw bh,
            GameScene.touchesEdge hb sx sy bw bh ->
            ~ GameScene.overlapsStrictly hb sx sy bw bh).
  { intros hb sx sy bw bh T O. apply SceneFacts.overlap_iff in O.
    rewrite (SceneFacts.touching_no_overlap _ _ _ _ _ T) in O. discriminate. }
  assert (Hpl : forall b : bool,
            GameScene.hitboxOverlapsBody hitbox (Enemy.x enemy) (Enemy.y enemy)
              (Enemy.bodyWidth enemy) (Enemy.bodyHeight enemy) = b ->
            GameScene.checkPlayerAttacks player [enemy]
            = [if b then Enemy.takeDamage (Player.getAttackDamage player)
                           (Player.x player) (Player.getAttackType player) enemy
               else enemy]).
  { intros b E. unfold GameScene.checkPlayerAttacks. rewrite H1.
    cbn [GameScene.strikeEnemies]. unfold GameScene.playerHits, Enemy.getIsInvincible.
    rewrite Hd, Hi, E. cbn [orb]. destruct b; [|reflexivity].
    destruct (Enemy.takeDamageThrows _ _); reflexivity. }
  assert (Hen : forall b : bool,
            GameScene.hitboxOverlapsBody hitbox' (Player.x player') (Player.y player')
              (Player.bodyWidth player') (Player.bodyHeight player') = b ->
            GameScene.checkEnemyAttacks player' [enemy']
            = if b then Player.takeDamage (Enemy.getAttackDamage enemy')
                          (Enemy.x enemy') player'
              else player').
  { intros b E. unfold GameScene.checkEnemyAttacks, Player.getIsInvincible.
    rewrite Hpd, Hpi. cbn [orb fold_left]. rewrite Hd', H2, E. reflexivity. }
  split; [|split; [|split; [|split; [|split]]]].
  - intros O. apply SceneFacts.overlap_iff in O. split; [exact (Hpl true O)|].
    unfold Enemy.isDead in Hd. destruct (leb_spec (Enemy.currentHealth enemy) 0);
      [discriminate|].
    unfold Enemy.takeDamage. rewrite Hi. cbn [orb].
    destruct (leb_spec (Enemy.currentHealth enemy) 0); [lra|].
    EnemyFacts.open_handlers. EnemyFacts.cases; reflexivity.
  - intros O. exact (Hpl false (Hno _ _ _ _ _ O)).
  - apply Htouch.
  - intros O. apply SceneFacts.overlap_iff in O. split; [exact (Hen true O)|].
    unfold Player.isDead in Hpd. destruct (leb_spec (Player.currentHealth player') 0);
      [discriminate|].
    unfold Player.takeDamage. rewrite Hpi. cbn [orb].
    destruct (leb_spec (Player.currentHealth player') 0); [lra|].
    PlayerFacts.open_handlers. PlayerFacts.cases; reflexivity.
  - intros O. exact (Hen false (Hno _ _ _ _ _ O)).
  - apply Htouch.
Qed.

Lemma C9_strict_overlap_witness :
  let player :=
    Player.run [Player.Physics (Player.standing 0 590);
                Player.Frame 16 (Player.noInput <| Player.isUppercutPressed := true |>) Player.calm 0;
                Player.AnimationFrameChange {| index := 2; frame_name := "2" |}]
               (Player.new 0 590) in
  let touching := Enemy.new 115 590 in
  let closer := Enemy.new 114 590 in
  let attacker :=
    Enemy.run [Enemy.Physics {| Enemy.new_x := 150; Enemy.new_y := 590;
                                Enemy.new_velocityX := 0; Enemy.new_velocityY := 0;
                                Enemy.new_blockedDown := true |};
               Enemy.CallPunch 0; Enemy.TweenComplete;
               Enemy.AnimationFrameChange {| index := 4; frame_name := "punch_extend" |}]
              (Enemy.new 150 590) in
  GameScene.checkPlayerAttacks player [touching] = [touching] /\
  GameScene.checkPlayerAttacks player [closer]
  = [Enemy.takeDamage (Player.getAttackDamage player) 0 (Some "uppercut"%string) closer] /\
  GameScene.checkEnemyAttacks (Player.new 4 590) [attacker] = Player.new 4 590 /\
  GameScene.checkEnemyAttacks (Player.new 5 590) [attacker]
  = Player.takeDamage 10 150 (Player.new 5 590).
Proof.
  intros player touching closer attacker.
  assert (Hp : Player.getAttackHitbox player <> None) by (vm_compute; discriminate).
  destruct (Player.getAttackHitbox player) as [hitbox|] eqn:Hhb; [clear Hp|congruence].
  assert (Ha : Enemy.getAttackHitbox attacker
               = Some {| rect_x := 150 + -70 - 100 / 2; rect_y := 590 + -30 - 60 / 2;
                         rect_width := 100; rect_height := 60 |}) by reflexivity.
  destruct (C9_strict_overlap player touching hitbox (Player.new 4 590) attacker _
              Hhb eq_refl eq_refl Ha eq_refl eq_refl eq_refl)
    as (_ & T2 & T3 & _ & T5 & T6).
  destruct (C9_strict_overlap player closer hitbox (Player.new 5 590) attacker _
              Hhb eq_refl eq_refl Ha eq_refl eq_refl eq_refl)
    as (C1 & _ & _ & C4 & _).
  assert (Hbox : hitbox = {| rect_x := 0 + 40 - 70 / 2; rect_y := 590 + -50 - 80 / 2;
                             rect_width := 70; rect_height := 80 |}).
  { vm_compute in Hhb. injection Hhb as <-. reflexivity. }
  split; [apply T2, T3; left; rewrite Hbox; vm_compute; reflexivity|].
  split; [apply C1; rewrite Hbox; vm_compute; repeat split; reflexivity|].
  split; [apply T5, T6; right; left; vm_compute; reflexivity|].
  apply C4. vm_compute. repeat split; reflexivity.
Defined.

(** *** C10 *)

(** C10: through any run in which no [takeDamage] call carries a negative
    amount, the health of a combatant stays between 0 and its maximum and
    never rises, and the maximum never changes; an event that is not a
    [takeDamage] call leaves health as it is, and a [takeDamage] call either
    leaves it or sets it to [max(0, health - amount)]. *)
Theorem C10_health_bounded_and_monotone :
  forall (c : Combatant.t) (evs : list Combatant.Event) (ev : Combatant.Event),
    0 <= Combatant.health c <= Combatant.maxHealth c ->
    Forall Combatant.nonNegativeDamage evs ->
    let c' := Combatant.run evs c in
    (0 <= Combatant.health c' /\
     Combatant.health c' <= Combatant.health c /\
     Combatant.health c' <= Combatant.maxHealth c' /\
     Combatant.maxHealth c' = Combatant.maxHealth c) /\
    match Combatant.damageOf ev with
    | None => Combatant.health (Combatant.step ev c) = Combatant.health c
    | Some amount =>
        Combatant.health (Combatant.step ev c) = Combatant.health c \/
        Combatant.health (Combatant.step ev c)
        = Num.Math_max 0 (Combatant.health c - amount)
    end.
Proof.
  intros c evs ev Hb Hn c'. split.
  - destruct (CombatantFacts.run_bounds evs c Hn Hb) as (R1 & R2 & R3).
    fold c' in R1, R2, R3. repeat split; try assumption. rewrite R3. lra.
  - destruct (Combatant.damageOf ev) as [amount|] eqn:Hd.
    + apply (CombatantFacts.step_damage ev c amount Hd).
    + apply (CombatantFacts.step_other ev c Hd).
Qed.

Lemma C10_health_bounded_and_monotone_witness :
  let c := Combatant.OfEnemy (Enemy.new 1180 590) in
  let evs := [Combatant.ToEnemy (Enemy.TakeDamage 20 100 (Some "uppercut"%string));
              Combatant.ToEnemy (Enemy.Update 16 0
                                   {| Enemy.isEnemyMovingLeft := true;
                                      Enemy.isEnemyMovingRight := false;
                                      Enemy.isEnemyJumpPressed := false;
                                      Enemy.isEnemyPunchPressed := false;
                                      Enemy.isEnemySidekickPressed := false |});
              Combatant.ToEnemy Enemy.AnimationComplete] in
  let c' := Combatant.run evs c in
  (0 <= Combatant.health c' /\
   Combatant.health c' <= Combatant.health c /\
   Combatant.health c' <= Combatant.maxHealth c' /\
   Combatant.maxHealth c' = Combatant.maxHealth c) /\
  (Combatant.health
     (Combatant.step (Combatant.ToEnemy (Enemy.TakeDamage 10 100 None)) c)
   = Combatant.health c \/
   Combatant.health
     (Combatant.step (Combatant.ToEnemy (Enemy.TakeDamage 10 100 None)) c)
   = Num.Math_max 0 (Combatant.health c - 10)).
Proof.
  apply (C10_health_bounded_and_monotone
           (Combatant.OfEnemy (Enemy.new 1180 590))
           [Combatant.ToEnemy (Enemy.TakeDamage 20 100 (Some "uppercut"%string));
            Combatant.ToEnemy (Enemy.Update 16 0
                                 {| Enemy.isEnemyMovingLeft := true;
                                    Enemy.isEnemyMovingRight := false;
                                    Enemy.isEnemyJumpPressed := false;
                                    Enemy.isEnemyPunchPressed := false;
                                    Enemy.isEnemySidekickPressed := false |});
            Combatant.ToEnemy Enemy.AnimationComplete]
           (Combatant.ToEnemy (Enemy.TakeDamage 10 100 None))).
  - vm_compute. split; discriminate.
  - repeat constructor. vm_compute. discriminate.
Defined.

(** ** Further properties *)

Module PlayerMore.
Import Player PlayerViews PlayerInvariants PlayerFacts.

Lemma elapsed_nonneg evs : Forall forward evs -> 0 <= elapsed evs.
Proof.
  induction 1 as [|ev evs Hf _ IH]; [cbn; lra|].
  rewrite elapsed_cons. destruct ev; cbn [frameTime forward] in *; lra.
Qed.

(** While invincibility is owed, no event changes the health. *)
Lemma covered_health_run evs : forall need p,
  Forall forward evs -> Forall warningTimeNonNegative evs ->
  covered need 0 p -> elapsed evs < need ->
  currentHealth (run evs p) = currentHealth p /\ isInvincible (run evs p) = true.
Proof.
  induction evs as [|ev evs IH]; intros need p Hf Hw Hc He.
  - cbn in *. split; [reflexivity|]. destruct Hc as [Hs _]. destruct Hs as [Hi _]; [lra|].
    exact Hi.
  - inversion Hf; subst. inversion Hw; subst. rewrite elapsed_cons in He.
    pose proof (elapsed_nonneg evs H2) as Hn.
    assert (Hft : 0 <= frameTime ev) by (destruct ev; cbn [frameTime forward] in *; lra).
    change (run (ev :: evs) p) with (run evs (step ev p)).
    destruct (IH (need - frameTime ev) (step ev p)) as [IH1 IH2];
      [assumption | assumption | apply covered_step; assumption | lra |].
    split; [|exact IH2]. rewrite IH1.
    destruct Hc as [Hs _]. destruct Hs as [Hi _]; [lra|]. unfold shield in Hi. cbn [fst] in Hi.
    destruct ev as [delta inp env rnd | | f | b | amount attackerX].
    + assert (V : vitals (step (Frame delta inp env rnd) p) = vitals p)
        by (apply vitals_step; discriminate).
      unfold vitals in V. injection V as V _. exact V.
    + assert (V : vitals (step AnimationComplete p) = vitals p)
        by (apply vitals_step; discriminate).
      unfold vitals in V. injection V as V _. exact V.
    + reflexivity.
    + reflexivity.
    + cbn [step]. rewrite takeDamage_guard; [reflexivity | left; exact Hi].
Qed.

Lemma shield_takeDamage amount attackerX p :
  isInvincible p = false -> 0 < currentHealth p ->
  shield (takeDamage amount attackerX p) = (true, CONFIG.INVINCIBILITY_DURATION).
Proof.
  intros Hi Hh. unfold takeDamage. rewrite Hi. cbn [orb].
  destruct (leb_spec (currentHealth p) 0); [lra|]. cbv zeta.
  unfold shield. open_handlers. cases; reflexivity.
Qed.

(** handleCounterDodge with the key up. *)
Lemma handleCounterDodge_key_up inp env p :
  isCounterDodgePressed inp = false -> handleCounterDodge inp env p = p.
Proof.
  intros H. unfold handleCounterDodge. rewrite H.
  destruct (lockedForDodge p || counterDodgeQueued p); reflexivity.
Qed.

Lemma hitShield_since since since' p :
  since == since' -> hitShield since p -> hitShield since' p.
Proof.
  unfold hitShield. intros E (H1 & H2 & H3 & H4). repeat split; try assumption.
  - apply H3; lra.
  - destruct H3 as [_ H3]; lra.
  - apply H4; lra.
  - apply H4; lra.
Qed.

Lemma hitShield_views since p q :
  shield q = shield p -> dodgeQueue q = dodgeQueue p ->
  hitShield since p -> hitShield since q.
Proof.
  unfold hitShield, shield, dodgeQueue. intros Hs Hq.
  injection Hs as -> ->. injection Hq as -> ->. auto.
Qed.

Lemma hitShield_step since ev p :
  forward ev -> noCounterDodgePress ev -> noDamage ev ->
  hitShield since p -> hitShield (since + frameTime ev) (step ev p).
Proof.
  intros Hf Hk Hd H.
  destruct ev as [delta inp env rnd | | f | b | amount attackerX];
    cbn [step frameTime forward noCounterDodgePress noDamage] in *.
  - assert (Hc : shield (advanceClock delta rnd p) = shield p /\
                 dodgeQueue (advanceClock delta rnd p) = dodgeQueue p).
    { split; [apply shield_advanceClock|].
      destruct H as (H1 & H2 & _). unfold advanceClock, dodgeQueue. rewrite H2. fields.
      reflexivity. }
    destruct Hc as [Hc1 Hc2].
    set (q := advanceClock delta rnd p) in *.
    assert (Hq : hitShield since q) by (revert H; apply hitShield_views; assumption).
    clear H Hc1 Hc2.
    assert (Hs : shield (update delta inp env q) = shield (updateTimers delta q)).
    { rewrite shield_update, handleCounterDodge_key_up by assumption.
      apply shield_handleDebugHurt. }
    assert (Hdq : dodgeQueue (update delta inp env q) = dodgeQueue q).
    { rewrite dodgeQueue_update, handleCounterDodge_key_up by assumption.
      rewrite dodgeQueue_handleDebugHurt. apply dodgeQueue_updateTimers. }
    rewrite shield_updateTimers in Hs.
    destruct Hq as (H1 & H2 & H3 & H4).
    unfold hitShield. unfold shield in Hs. unfold dodgeQueue in Hdq.
    injection Hdq as -> ->.
    split; [exact H1|]. split; [exact H2|].
    destruct (Qlt_le_dec since 500) as [L|L].
    + destruct (H3 L) as [Hi Ht]. clear H3 H4.
      destruct (gtb_spec (invincibilityTimer q) 0); [|lra].
      destruct (leb_spec (invincibilityTimer q - delta) 0);
        injection Hs as -> ->; split; intros; split; try reflexivity; try lra; assumption.
    + destruct (H4 L) as [Hi Ht]. clear H3 H4.
      destruct (gtb_spec (invincibilityTimer q) 0); [lra|].
      injection Hs as -> ->. split; intros; split; try lra; assumption.
  - apply hitShield_since with since; [lra|]. revert H. apply hitShield_views.
    + apply shield_emitAnimationComplete.
    + apply dodgeQueue_emitAnimationComplete.
  - apply hitShield_since with since; [lra|]. exact H.
  - apply hitShield_since with since; [lra|]. exact H.
  - contradiction.
Qed.

Lemma hitShield_run evs : forall since p,
  Forall forward evs -> Forall noCounterDodgePress evs -> Forall noDamage evs ->
  hitShield since p -> hitShield (since + elapsed evs) (run evs p).
Proof.
  induction evs as [|ev evs IH]; intros since p Hf Hk Hd H.
  - cbn. apply hitShield_since with since; [lra | exact H].
  - inversion Hf; subst. inversion Hk; subst. inversion Hd; subst.
    change (run (ev :: evs) p) with (run evs (step ev p)).
    apply hitShield_since with (since + frameTime ev + elapsed evs).
    + rewrite elapsed_cons. lra.
    + apply IH; [assumption..|]. apply hitShield_step; assumption.
Qed.

(** *** Locked states and their closing listener *)

Ltac settle :=
  repeat (fields; cbn [PlayerState_eqb];
          match goal with
          | |- context [if ?c then _ else _] =>
              lazymatch c with
              | context [if _ then _ else _] => fail
              | _ => destruct c eqn:?
              end
          end);
  fields; cbn [PlayerState_eqb].

Ltac closed :=
  first [ assumption | exact I | (eexists; reflexivity) ].

Lemma closing_handleDebugHurt inp p : closing p -> closing (handleDebugHurt inp p).
Proof. unfold closing. intros H. open_handlers. settle; closed. Qed.

Lemma closing_performCounterDodge b rnd p : closing (performCounterDodge b rnd p).
Proof. unfold closing. open_handlers. settle; closed. Qed.

Lemma closing_handleCounterDodge inp env p :
  closing p -> closing (handleCounterDodge inp env p).
Proof.
  intros H. unfold handleCounterDodge.
  destruct (lockedForDodge p || counterDodgeQueued p); [exact H|].
  destruct (isCounterDodgePressed inp); [|exact H].
  destruct (match isAnyEnemyShowingWarning env with Some b => b | None => false end);
    [|apply closing_performCounterDodge].
  unfold queueCounterDodge. cbv zeta.
  destruct (_ >? 0); [|apply closing_performCounterDodge].
  unfold closing in *. fields. exact H.
Qed.

Lemma closing_handleDodge inp p : closing p -> closing (handleDodge inp p).
Proof.
  unfold closing. intros H. unfold handleDodge.
  destruct (lockedForDodge p); [exact H|]. open_handlers. settle; closed.
Qed.

Lemma closing_handleMatrixDodge inp p : closing p -> closing (handleMatrixDodge inp p).
Proof.
  unfold closing. intros H. unfold handleMatrixDodge.
  destruct (lockedForDodge p); [exact H|]. open_handlers. settle; closed.
Qed.

Lemma closing_handleAttack inp p : closing p -> closing (handleAttack inp p).
Proof. unfold closing. intros H. open_handlers. settle; closed. Qed.

Lemma closing_handleMovement inp p : closing p -> closing (handleMovement inp p).
Proof. unfold closing. intros H. open_handlers. settle; closed. Qed.

Lemma closing_handleJump delta inp p : closing p -> closing (handleJump delta inp p).
Proof. unfold closing. intros H. open_handlers. settle; closed. Qed.

Lemma closing_updateState p : closing p -> closing (updateState p).
Proof.
  unfold closing. intros H. unfold updateState.
  destruct (currentState p) eqn:Hs; cbn [PlayerState_eqb orb]; cbv zeta;
    try (rewrite Hs; exact H);
    open_handlers; settle; closed.
Qed.

Lemma closing_updateFacing p : closing p -> closing (updateFacing p).
Proof. unfold closing. intros H. open_handlers. settle; closed. Qed.

Lemma closing_updateTimers delta p : closing p -> closing (updateTimers delta p).
Proof. unfold closing, updateTimers. intros H. cbv zeta. settle; closed. Qed.

Lemma closing_update delta inp env p : closing p -> closing (update delta inp env p).
Proof.
  intros H. unfold update. cbv zeta.
  apply closing_updateFacing, closing_updateState, closing_handleJump,
    closing_handleMovement, closing_handleAttack, closing_handleMatrixDodge,
    closing_handleDodge, closing_handleCounterDodge, closing_handleDebugHurt,
    closing_updateTimers, H.
Qed.

Lemma closing_runAnimCallback cb p : closing (runAnimCallback cb p).
Proof.
  unfold closing. destruct cb; open_handlers; [settle; closed|].
  fields. destruct (bufferedAttack p) as [[]|]; settle; closed.
Qed.

Lemma closing_fold_anim l : forall p,
  (l = [] -> closing p) -> closing (fold_left (fun q cb => runAnimCallback cb q) l p).
Proof.
  induction l as [|cb l IH]; intros p H; [apply H; reflexivity|].
  cbn [fold_left]. apply IH. intros _. apply closing_runAnimCallback.
Qed.

Lemma closing_locked_nonempty p :
  closing p -> animationcomplete p = [] ->
  currentState p <> HURT /\ currentState p <> DODGING /\ currentState p <> ATTACKING.
Proof.
  unfold closing. intros H E. rewrite E in H.
  destruct (currentState p); repeat split; try discriminate;
    destruct H as [[|? ?] H]; discriminate.
Qed.

Lemma closing_emitAnimationComplete p : closing p -> closing (emitAnimationComplete p).
Proof.
  intros H. unfold emitAnimationComplete. apply closing_fold_anim. intros E.
  destruct (closing_locked_nonempty p H E) as (H1 & H2 & H3).
  unfold closing. fields. destruct (currentState p); try exact I; congruence.
Qed.

Lemma closing_advanceClock delta rnd p : closing p -> closing (advanceClock delta rnd p).
Proof.
  intros H. unfold advanceClock.
  set (due := filter _ _). set (waiting := filter _ _).
  assert (G : forall l q, closing q ->
                closing (fold_left (fun q (dc : Q * TimerCallback) =>
                                      runTimerCallback rnd (snd dc) q) l q)).
  { induction l as [|[r []] l IH]; intros q Hq; [exact Hq|].
    cbn [fold_left]. apply IH. apply closing_performCounterDodge. }
  apply G. unfold closing in *. fields. exact H.
Qed.

Lemma closing_takeDamage amount attackerX p :
  closing p -> closing (takeDamage amount attackerX p).
Proof.
  unfold closing. intros H. unfold takeDamage. cbv zeta.
  destruct (isInvincible p || (currentHealth p <=? 0)); [exact H|].
  open_handlers. settle; closed.
Qed.

Lemma closing_step ev p : closing p -> closing (step ev p).
Proof.
  intros H. destruct ev; cbn [step].
  - apply closing_update, closing_advanceClock, H.
  - apply closing_emitAnimationComplete, H.
  - exact H.
  - exact H.
  - apply closing_takeDamage, H.
Qed.

Lemma closing_run evs : forall p, closing p -> closing (run evs p).
Proof.
  induction evs as [|ev evs IH]; intros p H; [exact H|].
  change (run (ev :: evs) p) with (run evs (step ev p)). apply IH, closing_step, H.
Qed.

(** The end of the animation, by the listener registered last. *)
Lemma emit_last l cb p :
  animationcomplete p = l ++ [cb] ->
  emitAnimationComplete p
  = runAnimCallback cb
      (fold_left (fun q cb => runAnimCallback cb q) l (p <| animationcomplete := [] |>)).
Proof. intros E. unfold emitAnimationComplete. rewrite E, fold_left_app. reflexivity. Qed.

(** *** The jump count *)

Lemma jumpsInRange_handleJump delta inp q :
  jumpsInRange q -> jumpsInRange (handleJump delta inp q).
Proof.
  unfold jumpsInRange, CONFIG.MAX_JUMPS. intros H. unfold handleJump. cbv zeta.
  destruct (jumpBufferTimer q >? 0); fields;
    destruct (isJumpPressed inp); fields;
    destruct (blockedDown q); fields;
    match goal with |- context [(?a >? 0) && (?b >? 0)%Z] =>
      destruct (a >? 0); cbn [andb]; [destruct (Z.gtb_spec b 0)|] end;
    fields; unfold CONFIG.MAX_JUMPS in *; lia.
Qed.

Lemma jumpsInRange_step ev p : jumpsInRange p -> jumpsInRange (step ev p).
Proof.
  unfold jumpsInRange. intros H.
  destruct ev as [delta inp env rnd | | f | b | amount attackerX]; cbn [step].
  - pose proof (flight_update delta inp env (advanceClock delta rnd p)) as E.
    apply flight_parts in E. destruct E as (_ & -> & _).
    apply jumpsInRange_handleJump. unfold jumpsInRange.
    pose proof (flight_beforeJump delta inp env (advanceClock delta rnd p)) as E.
    rewrite flight_advanceClock in E. apply flight_parts in E.
    destruct E as (_ & -> & _). exact H.
  - pose proof (flight_emitAnimationComplete p) as E. apply flight_parts in E.
    destruct E as (_ & -> & _). exact H.
  - exact H.
  - exact H.
  - assert (E : jumpsRemaining (takeDamage amount attackerX p) = jumpsRemaining p)
      by (unfold takeDamage; open_handlers; cases; reflexivity).
    rewrite E. exact H.
Qed.

Lemma jumpsInRange_run evs : forall p, jumpsInRange p -> jumpsInRange (run evs p).
Proof.
  induction evs as [|ev evs IH]; intros p H; [exact H|].
  change (run (ev :: evs) p) with (run evs (step ev p)). apply IH, jumpsInRange_step, H.
Qed.

End PlayerMore.

(** X1: a hit that lands makes the player invincible for
    INVINCIBILITY_DURATION = 500 ms of game time, when the frame times are
    whole numbers of milliseconds.  With no counter-dodge pending at the
    hit, the player is invincible and its health is frozen after every later
    event while less than 500 ms have passed, whatever the events are; and
    once 500 ms have passed with no counter-dodge press and no further hit,
    the player is no longer invincible. *)
Theorem X1_player_hit_invincibility_window :
  forall (p : Player.t) (amount attackerX : Q) (evs : list Player.Event),
    Player.isInvincible p = false ->
    0 < Player.currentHealth p ->
    Player.counterDodgeQueued p = false ->
    Player.delayedCalls p = [] ->
    Forall Player.forward evs ->
    Forall Player.warningTimeNonNegative evs ->
    Forall Player.wholeTimes evs ->
    let hit := Player.takeDamage amount attackerX p in
    let later := Player.run evs hit in
    Player.isInvincible hit = true /\
    Player.invincibilityTimer hit = Player.CONFIG.INVINCIBILITY_DURATION /\
    (Player.elapsed evs < Player.CONFIG.INVINCIBILITY_DURATION ->
       Player.isInvincible later = true /\
       Player.currentHealth later = Player.currentHealth hit) /\
    (Player.CONFIG.INVINCIBILITY_DURATION <= Player.elapsed evs ->
       Forall Player.noCounterDodgePress evs -> Forall Player.noDamage evs ->
       Player.isInvincible later = false).
Proof.
  intros p amount attackerX evs Hi Hh Hq Hdc Hf Hw Hwh hit later.
  pose proof (PlayerMore.shield_takeDamage amount attackerX p Hi Hh) as Hs.
  fold hit in Hs.
  pose proof (PlayerFacts.dodgeQueue_takeDamage amount attackerX p) as Hd.
  fold hit in Hd. unfold PlayerViews.dodgeQueue in Hd. rewrite Hq, Hdc in Hd.
  unfold PlayerViews.shield in Hs.
  injection Hs as Hs1 Hs2. injection Hd as Hd1 Hd2.
  unfold Player.CONFIG.INVINCIBILITY_DURATION in *.
  split; [exact Hs1|]. split; [exact Hs2|]. split.
  - intros He.
    assert (Hc : PlayerViews.covered 500 0 hit).
    { split.
      - unfold PlayerViews.shielded, PlayerViews.shield. cbn [fst snd]. intros _.
        split; [exact Hs1 | rewrite Hs2; lra].
      - unfold PlayerViews.queueFits, PlayerViews.dodgeQueue. cbn [fst snd].
        rewrite Hd1. split; [exact Hd2 | lra]. }
    destruct (PlayerMore.covered_health_run evs 500 hit Hf Hw Hc He) as [H1 H2].
    split; assumption.
  - intros He Hk Hn.
    assert (Hc : PlayerInvariants.hitShield 0 hit).
    { unfold PlayerInvariants.hitShield. split; [exact Hd1|]. split; [exact Hd2|].
      split; [intros _; split; [exact Hs1 | rewrite Hs2; lra] | lra]. }
    destruct (PlayerMore.hitShield_run evs 0 hit Hf Hk Hn Hc) as (_ & _ & _ & H4).
    apply H4. lra.
Qed.

Lemma X1_player_hit_invincibility_window_witness :
  let hit := Player.takeDamage 10 1180 (Player.new 100 590) in
  let early :=
    Player.idleFrames 20 16 ++ [Player.TakeDamage 20 1180] ++ Player.idleFrames 10 16 in
  let late := Player.idleFrames 32 16 in
  Player.isInvincible hit = true /\
  Player.isInvincible (Player.run early hit) = true /\
  Player.currentHealth (Player.run early hit) = Player.currentHealth hit /\
  Player.isInvincible (Player.run late hit) = false.
Proof.
  intros hit early late.
  destruct (X1_player_hit_invincibility_window (Player.new 100 590) 10 1180 early)
    as (H1 & _ & H3 & _);
    [reflexivity | reflexivity | reflexivity | reflexivity
    | unfold early; cbn; repeat constructor; cbn; discriminate
    | unfold early; cbn; repeat constructor; cbn; discriminate
    | unfold early; cbn; repeat constructor |].
  destruct (X1_player_hit_invincibility_window (Player.new 100 590) 10 1180 late)
    as (_ & _ & _ & H4);
    [reflexivity | reflexivity | reflexivity | reflexivity
    | unfold late; cbn; repeat constructor; cbn; discriminate
    | unfold late; cbn; repeat constructor; cbn; discriminate
    | unfold late; cbn; repeat constructor |].
  destruct H3 as [H3 H3']; [vm_compute; reflexivity|].
  split; [exact H1|]. split; [exact H3|]. split; [exact H3'|].
  apply H4.
  - vm_compute. discriminate.
  - unfold late. cbn. repeat constructor.
  - unfold late. cbn. repeat constructor.
Defined.

(** X2: the jump count never leaves the range from 0 to MAX_JUMPS = 2:
    whatever happens to a player whose count is in the range, it stays in
    the range. *)
Theorem X2_jump_count_in_range :
  forall (p : Player.t) (evs : list Player.Event),
    (0 <= Player.jumpsRemaining p <= Player.CONFIG.MAX_JUMPS)%Z ->
    (0 <= Player.jumpsRemaining (Player.run evs p) <= Player.CONFIG.MAX_JUMPS)%Z.
Proof. intros p evs H. apply (PlayerMore.jumpsInRange_run evs p H). Qed.

Lemma X2_jump_count_in_range_witness :
  let evs :=
    [Player.Physics (Player.standing 100 590);
     Player.Frame 16 Player.jumpKey Player.calm 0;
     Player.Physics (Player.falling 100 500);
     Player.Frame 16 Player.jumpKey Player.calm 0;
     Player.Frame 16 Player.jumpKey Player.calm 0] in
  (0 <= Player.jumpsRemaining (Player.run evs (Player.new 100 590))
     <= Player.CONFIG.MAX_JUMPS)%Z.
Proof.
  apply (X2_jump_count_in_range (Player.new 100 590)
           [Player.Physics (Player.standing 100 590);
            Player.Frame 16 Player.jumpKey Player.calm 0;
            Player.Physics (Player.falling 100 500);
            Player.Frame 16 Player.jumpKey Player.calm 0;
            Player.Frame 16 Player.jumpKey Player.calm 0]).
  vm_compute. split; discriminate.
Defined.

(** X3: the locked states of the player always end with their animation.
    In every state a new player can reach, the listener that ends the
    current locked state is the last one registered: when the animation
    completes, a player in HURT or DODGING is in IDLE with the idle
    animation, and a player in ATTACKING is in IDLE with no attack type, or
    in ATTACKING again with the attack that was buffered. *)
Theorem X3_player_locked_states_end :
  forall (evs : list Player.Event) (x0 y0 : Q),
    let p := Player.run evs (Player.new x0 y0) in
    let after := Player.step Player.AnimationComplete p in
    (Player.currentState p = Player.HURT \/ Player.currentState p = Player.DODGING ->
       Player.currentState after = Player.IDLE /\
       Player.animKey after = "juan-idle"%string) /\
    (Player.currentState p = Player.ATTACKING ->
       (Player.currentState after = Player.IDLE /\
        Player.currentAttackType after = None) \/
       (Player.currentState after = Player.ATTACKING /\
        Player.bufferedAttack after = None /\
        exists attack, Player.currentAttackType after = Some attack)).
Proof.
  intros evs x0 y0 p after.
  assert (Hc : PlayerInvariants.closing p).
  { apply PlayerMore.closing_run. exact I. }
  unfold after. cbn [Player.step]. unfold PlayerInvariants.closing in Hc. split.
  - intros [Hs|Hs]; rewrite Hs in Hc; destruct Hc as [l Hl];
      rewrite (PlayerMore.emit_last l _ p Hl); split; reflexivity.
  - intros Hs. rewrite Hs in Hc. destruct Hc as [l Hl].
    rewrite (PlayerMore.emit_last l _ p Hl).
    set (q := fold_left _ l _).
    unfold Player.runAnimCallback, Player.onAttackComplete. PlayerFacts.fields.
    destruct (Player.bufferedAttack q) as [[]|].
    + right. split; [reflexivity|]. split; [reflexivity|]. eexists. reflexivity.
    + right. split; [reflexivity|]. split; [reflexivity|]. eexists. reflexivity.
    + right. split; [reflexivity|]. split; [reflexivity|]. eexists. reflexivity.
    + left. split; reflexivity.
Qed.

Module EnemyMore.
Import Enemy EnemyViews EnemyInvariants EnemyFacts.

Lemma updateTime_cons ev evs : updateTime (ev :: evs) == updateDelta ev + updateTime evs.
Proof. destruct ev; cbn [updateTime fold_right updateDelta]; fold (updateTime evs); lra. Qed.

Lemma updateTime_nonneg evs : Forall forward evs -> 0 <= updateTime evs.
Proof.
  induction 1 as [|ev evs Hf _ IH]; [cbn; lra|].
  rewrite updateTime_cons. destruct ev; cbn [updateDelta forward] in *; lra.
Qed.

Lemma enemy_shield_stepTimer delta e :
  shield (stepTimer delta e)
  = if invincibilityTimer e >? 0 then
      if invincibilityTimer e - delta <=? 0
      then (false, invincibilityTimer e - delta)
      else (isInvincible e, invincibilityTimer e - delta)
    else shield e.
Proof. unfold stepTimer, shield. cbv zeta. cases; reflexivity. Qed.

Lemma enemy_shield_update delta now inp e :
  shield (update delta now inp e) = shield (stepTimer delta e).
Proof.
  rewrite update_unfold. destruct (currentHealth e <=? 0); [reflexivity|].
  repeat peel. reflexivity.
Qed.

Lemma enemy_shield_step ev e :
  noDamage ev -> (forall delta now inp, ev <> Update delta now inp) ->
  shield (step ev e) = shield e.
Proof.
  intros Hd Hu. destruct ev; cbn [step noDamage] in *; try contradiction;
    try solve [same_view].
  - unfold completeWarningTween. open_handlers. cases; reflexivity.
  - exfalso. eapply Hu. reflexivity.
  - unfold emitAnimationComplete.
    rewrite (enemy_keeps_fold_left shield (fun q cb => runAnimCallback cb q)).
    + reflexivity.
    + intros cb. same_view.
Qed.

Lemma enemy_hitShield_since since since' e :
  since == since' -> hitShield since e -> hitShield since' e.
Proof.
  unfold hitShield. intros E (H3 & H4). repeat split.
  - apply H3; lra.
  - destruct H3 as [_ H3]; lra.
  - apply H4; lra.
  - apply H4; lra.
Qed.

Lemma enemy_hitShield_views since e e' :
  shield e' = shield e -> hitShield since e -> hitShield since e'.
Proof. unfold hitShield, shield. intros Hs. injection Hs as -> ->. auto. Qed.

Lemma enemy_hitShield_step since ev e :
  forward ev -> noDamage ev \/ since < 800 ->
  hitShield since e ->
  hitShield (since + updateDelta ev) (step ev e) /\
  (since < 800 -> currentHealth (step ev e) = currentHealth e).
Proof.
  intros Hf Hd H.
  assert (Hother : noDamage ev -> (forall delta now inp, ev <> Update delta now inp) ->
                   updateDelta ev = 0 ->
                   hitShield (since + updateDelta ev) (step ev e) /\
                   (since < 800 -> currentHealth (step ev e) = currentHealth e)).
  { intros Hn Hu Hz. split.
    - apply enemy_hitShield_since with since; [rewrite Hz; lra|]. revert H.
      apply enemy_hitShield_views. apply enemy_shield_step; assumption.
    - intros _. assert (V : vitals (step ev e) = vitals e).
      { apply enemy_vitals_step. intros amount attackerX ty ->. exact Hn. }
      unfold vitals in V. injection V as V _. exact V. }
  destruct ev as [ |delta now inp| | | | amount attackerX ty| | | | | | | | |];
    try (apply Hother; [exact I | discriminate | reflexivity]);
    cbn [updateDelta forward noDamage] in *; clear Hother.
  - (* Update *)
    split.
    + cbn [step]. pose proof (enemy_shield_update delta now inp e) as Hs.
      rewrite enemy_shield_stepTimer in Hs. destruct H as [H3 H4].
      unfold hitShield. unfold shield in Hs.
      destruct (Qlt_le_dec since 800) as [L|L].
      * destruct (H3 L) as [Hi Ht]. clear H3 H4.
        destruct (gtb_spec (invincibilityTimer e) 0); [|lra].
        destruct (leb_spec (invincibilityTimer e - delta) 0);
          injection Hs as -> ->; split; intros; split; try reflexivity; try lra; assumption.
      * destruct (H4 L) as [Hi Ht]. clear H3 H4.
        destruct (gtb_spec (invincibilityTimer e) 0); [lra|].
        injection Hs as -> ->. split; intros; split; try lra; assumption.
    + intros _. pose proof (enemy_vitals_update delta now inp e) as V.
      unfold vitals in V. injection V as V _. exact V.
  - (* TakeDamage *)
    destruct Hd as [Hd|Hd]; [contradiction|].
    destruct H as [H3 H4]. destruct (H3 Hd) as [Hi Ht].
    cbn [step]. rewrite CombatantFacts.enemy_takeDamage_guard by (left; exact Hi).
    split; [|reflexivity]. apply enemy_hitShield_since with since; [lra|]. split; assumption.
Qed.

(** Within the window every event leaves the health alone. *)
Lemma enemy_hitShield_protects evs : forall since e,
  Forall forward evs -> since + updateTime evs < 800 -> 0 <= since ->
  hitShield since e ->
  hitShield (since + updateTime evs) (run evs e) /\
  currentHealth (run evs e) = currentHealth e.
Proof.
  induction evs as [|ev evs IH]; intros since e Hf Ht Hs H.
  - cbn in *. split; [|reflexivity]. apply enemy_hitShield_since with since; [lra | exact H].
  - inversion Hf; subst. rewrite updateTime_cons in Ht.
    pose proof (updateTime_nonneg evs H3) as Hn.
    assert (Hd : 0 <= updateDelta ev) by (destruct ev; cbn [updateDelta forward] in *; lra).
    change (run (ev :: evs) e) with (run evs (step ev e)).
    assert (Hlt : since < 800) by lra.
    destruct (enemy_hitShield_step since ev e H2 (or_intror Hlt) H) as [S1 S2].
    destruct (IH (since + updateDelta ev) (step ev e)) as [R1 R2];
      [assumption | lra | lra | exact S1 |].
    split.
    + apply enemy_hitShield_since with (since + updateDelta ev + updateTime evs);
        [rewrite updateTime_cons; lra | exact R1].
    + rewrite R2. apply S2. lra.
Qed.

Lemma enemy_hitShield_run evs : forall since e,
  Forall forward evs -> Forall noDamage evs ->
  hitShield since e -> hitShield (since + updateTime evs) (run evs e).
Proof.
  induction evs as [|ev evs IH]; intros since e Hf Hd H.
  - cbn. apply enemy_hitShield_since with since; [lra | exact H].
  - inversion Hf; subst. inversion Hd; subst.
    change (run (ev :: evs) e) with (run evs (step ev e)).
    apply enemy_hitShield_since with (since + updateDelta ev + updateTime evs).
    + rewrite updateTime_cons. lra.
    + apply IH; [assumption..|]. apply enemy_hitShield_step; [assumption | left; assumption | exact H].
Qed.

Lemma enemy_shield_takeDamage amount attackerX ty e :
  isInvincible e = false -> 0 < currentHealth e ->
  shield (takeDamage amount attackerX ty e) = (true, CONFIG.INVINCIBILITY_DURATION).
Proof.
  intros Hi Hh. unfold takeDamage. rewrite Hi. cbn [orb].
  destruct (leb_spec (currentHealth e) 0); [lra|]. cbv zeta.
  unfold shield. open_handlers. cases; reflexivity.
Qed.

(** *** Locked states, their listeners and the attack they belong to *)

Ltac closed H1 H2 :=
  let Hs := fresh "Hs" in
  intros Hs; try discriminate Hs;
  first [ exact (H1 Hs) | exact (H2 Hs)
        | split;
          [ let L := fresh "L" in
            intros L; try discriminate L;
            first [ let E := fresh in
                    intros E; apply app_eq_nil in E; destruct E; discriminate
                  | exact (proj1 (H1 Hs) L) ]
          | first [ reflexivity | exact (proj2 (H1 Hs)) ] ]
        | let L := fresh "L" in
          intros L; try discriminate L;
          first [ apply in_or_app; right; left; reflexivity | exact (H2 Hs L) ] ].

Lemma enemy_closing_parts e : closing e <-> hurtPart e /\ attackPart e.
Proof.
  unfold closing, hurtPart, attackPart. destruct (currentState e); split;
    try (intros _; split; intros Hx; discriminate Hx);
    try (intros _; exact I);
    try (intros H; split; intros Hx; (discriminate Hx || exact H));
    try (intros [H1 H2]; first [apply H1; reflexivity | apply H2; reflexivity]).
Qed.

(** A function that passes through the handlers of the enemy keeps
    [closing] when it keeps both parts. *)
Ltac keeps_closing :=
  let H1 := fresh "H1" in
  let H2 := fresh "H2" in
  rewrite !enemy_closing_parts; unfold hurtPart, attackPart; intros [H1 H2];
  split; open_handlers; cases; closed H1 H2.

Lemma enemy_closing_perform a e : closing e -> closing (perform a e).
Proof. destruct a; cbn [perform]; keeps_closing. Qed.

Lemma enemy_closing_warningCallback a e : closing e -> closing (warningCallback a e).
Proof.
  intros H. unfold warningCallback. destruct (canAttack e); [|exact H].
  destruct a; [apply (enemy_closing_perform PendingPunch) | apply (enemy_closing_perform PendingSidekick)];
    exact H.
Qed.

Lemma enemy_closing_hideAttackWarning e : closing e -> closing (hideAttackWarning e).
Proof. unfold hideAttackWarning. cbv zeta. keeps_closing. Qed.

Lemma enemy_closing_showAttackWarning a now e : closing e -> closing (showAttackWarning a now e).
Proof.
  intros H. unfold showAttackWarning.
  destruct (negb (warningContainer e) || negb (warningGraphics e));
    [apply enemy_closing_warningCallback; exact H|].
  revert H. cbv zeta. keeps_closing.
Qed.

Lemma enemy_closing_request a now e : closing e -> closing (snd (request a now e)).
Proof.
  intros H. destruct a; cbn [request]; unfold punch, sidekick;
    destruct (negb (canAttack e) || isShowingWarning e); cbn [snd];
    try exact H; apply enemy_closing_showAttackWarning; exact H.
Qed.

Lemma enemy_closing_completeWarningTween e : closing e -> closing (completeWarningTween e).
Proof.
  intros H. unfold completeWarningTween. destruct (warningTween e) as [tw|]; [|exact H].
  apply enemy_closing_warningCallback, enemy_closing_hideAttackWarning, H.
Qed.

Lemma enemy_closing_stepTimer delta e : closing e -> closing (stepTimer delta e).
Proof. unfold stepTimer. cbv zeta. keeps_closing. Qed.

Lemma enemy_closing_handleAttack now inp e : closing e -> closing (handleAttack now inp e).
Proof.
  intros H. unfold handleAttack.
  destruct (_ || _ || _ || _); [exact H|].
  destruct (isEnemyPunchPressed inp); [apply (enemy_closing_request PendingPunch); exact H|].
  destruct (isEnemySidekickPressed inp); [apply (enemy_closing_request PendingSidekick); exact H|].
  exact H.
Qed.

Lemma enemy_closing_handleMovement inp e : closing e -> closing (handleMovement inp e).
Proof. keeps_closing. Qed.

Lemma enemy_closing_handleJump inp e : closing e -> closing (handleJump inp e).
Proof. keeps_closing. Qed.

Lemma enemy_closing_updateState e : closing e -> closing (updateState e).
Proof.
  intros H. unfold updateState.
  destruct (currentState e) eqn:Hs; cbn [EnemyState_eqb orb]; try exact H;
    revert H; cbv zeta; rewrite !enemy_closing_parts; unfold hurtPart, attackPart;
    intros [H1 H2]; split; open_handlers; cases; intros Hx; discriminate Hx.
Qed.

Lemma enemy_closing_updateFacing e : closing e -> closing (updateFacing e).
Proof. keeps_closing. Qed.

Lemma enemy_closing_update delta now inp e : closing e -> closing (update delta now inp e).
Proof.
  intros H. rewrite update_unfold.
  destruct (currentHealth e <=? 0); [apply enemy_closing_stepTimer, H|].
  apply enemy_closing_updateFacing, enemy_closing_updateState, enemy_closing_handleJump,
    enemy_closing_handleMovement, enemy_closing_handleAttack, enemy_closing_stepTimer, H.
Qed.

Lemma enemy_closing_takeDamage amount attackerX ty e :
  closing e -> closing (takeDamage amount attackerX ty e).
Proof. keeps_closing. Qed.

Lemma emit_fold l : forall q,
  let r := fold_left (fun q cb => runAnimCallback cb q) l q in
  (l <> [] -> atRest r) /\
  (currentAttackType q = None \/ In AttackFinished l -> currentAttackType r = None) /\
  (l = [] -> r = q).
Proof.
  induction l as [|cb l IH]; intros q r.
  - repeat split; try congruence. intros [H|[]]. exact H.
  - subst r. cbn [fold_left]. destruct (IH (runAnimCallback cb q)) as (I1 & I2 & I3).
    split; [|split; [|discriminate]].
    + intros _. destruct l as [|cb' l]; [|apply I1; discriminate].
      rewrite I3 by reflexivity. destruct cb; split; reflexivity.
    + intros H. apply I2. destruct cb.
      * left. reflexivity.
      * destruct H as [H|[H|H]]; [left; exact H | discriminate H | right; exact H].
Qed.

Lemma enemy_closing_emitAnimationComplete e : closing e -> closing (emitAnimationComplete e).
Proof.
  intros H. unfold emitAnimationComplete.
  destruct (emit_fold (animationcomplete e) (e <| animationcomplete := [] |>))
    as (F1 & _ & F3).
  destruct (animationcomplete e) as [|cb l] eqn:E.
  - rewrite F3 by reflexivity. apply enemy_closing_parts in H. destruct H as [H1 H2].
    apply enemy_closing_parts. unfold hurtPart, attackPart in *. rewrite E in *. fields.
    split; intros Hs.
    + destruct (H1 Hs) as [N A]. split; [|exact A].
      intros L. exfalso. apply (N L). reflexivity.
    + intros L. destruct (H2 Hs L).
  - destruct F1 as [F1 _]; [discriminate|]. unfold closing. rewrite F1. exact I.
Qed.

Lemma enemy_closing_step ev e : closing e -> closing (step ev e).
Proof.
  intros H. destruct ev; cbn [step];
    first [ apply enemy_closing_completeWarningTween, H
          | apply enemy_closing_update, H
          | apply enemy_closing_emitAnimationComplete, H
          | apply enemy_closing_takeDamage, H
          | apply (enemy_closing_request PendingPunch), H
          | apply (enemy_closing_request PendingSidekick), H
          | revert H; keeps_closing ].
Qed.

Lemma enemy_closing_run evs : forall e, closing e -> closing (run evs e).
Proof.
  induction evs as [|ev evs IH]; intros e H; [exact H|].
  change (run (ev :: evs) e) with (run evs (step ev e)). apply IH, enemy_closing_step, H.
Qed.

Ltac keeps_armed :=
  let H := fresh "H" in
  let Hs := fresh "Hs" in
  unfold armed; intros H; open_handlers; cases; intros Hs; try discriminate Hs;
  first [ exact (H Hs) | eexists; split; reflexivity ].

Lemma armed_perform a e : armed e -> armed (perform a e).
Proof. destruct a; cbn [perform]; keeps_armed. Qed.

Lemma armed_warningCallback a e : armed e -> armed (warningCallback a e).
Proof.
  intros H. unfold warningCallback. destruct (canAttack e); [|exact H].
  destruct a; [apply (armed_perform PendingPunch) | apply (armed_perform PendingSidekick)];
    exact H.
Qed.

Lemma armed_hideAttackWarning e : armed e -> armed (hideAttackWarning e).
Proof. unfold hideAttackWarning. cbv zeta. keeps_armed. Qed.

Lemma armed_showAttackWarning a now e : armed e -> armed (showAttackWarning a now e).
Proof.
  intros H. unfold showAttackWarning.
  destruct (negb (warningContainer e) || negb (warningGraphics e));
    [apply armed_warningCallback; exact H|].
  revert H. cbv zeta. keeps_armed.
Qed.

Lemma armed_request a now e : armed e -> armed (snd (request a now e)).
Proof.
  intros H. destruct a; cbn [request]; unfold punch, sidekick;
    destruct (negb (canAttack e) || isShowingWarning e); cbn [snd];
    try exact H; apply armed_showAttackWarning; exact H.
Qed.

Lemma armed_completeWarningTween e : armed e -> armed (completeWarningTween e).
Proof.
  intros H. unfold completeWarningTween. destruct (warningTween e) as [tw|]; [|exact H].
  apply armed_warningCallback, armed_hideAttackWarning, H.
Qed.

Lemma armed_stepTimer delta e : armed e -> armed (stepTimer delta e).
Proof. unfold stepTimer. cbv zeta. keeps_armed. Qed.

Lemma armed_handleAttack now inp e : armed e -> armed (handleAttack now inp e).
Proof.
  intros H. unfold handleAttack.
  destruct (_ || _ || _ || _); [exact H|].
  destruct (isEnemyPunchPressed inp); [apply (armed_request PendingPunch); exact H|].
  destruct (isEnemySidekickPressed inp); [apply (armed_request PendingSidekick); exact H|].
  exact H.
Qed.

Lemma armed_handleMovement inp e : armed e -> armed (handleMovement inp e).
Proof. keeps_armed. Qed.

Lemma armed_handleJump inp e : armed e -> armed (handleJump inp e).
Proof. keeps_armed. Qed.

Lemma armed_updateState e : armed e -> armed (updateState e).
Proof.
  intros H. unfold updateState.
  destruct (currentState e) eqn:Hs; cbn [EnemyState_eqb orb]; try exact H;
    unfold armed; cbv zeta; open_handlers; cases; intros Hx; discriminate Hx.
Qed.

Lemma armed_updateFacing e : armed e -> armed (updateFacing e).
Proof. keeps_armed. Qed.

Lemma armed_update delta now inp e : armed e -> armed (update delta now inp e).
Proof.
  intros H. rewrite update_unfold.
  destruct (currentHealth e <=? 0); [apply armed_stepTimer, H|].
  apply armed_updateFacing, armed_updateState, armed_handleJump,
    armed_handleMovement, armed_handleAttack, armed_stepTimer, H.
Qed.

Lemma armed_takeDamage amount attackerX ty e :
  armed e -> armed (takeDamage amount attackerX ty e).
Proof. keeps_armed. Qed.

Lemma armed_emitAnimationComplete e : armed e -> armed (emitAnimationComplete e).
Proof.
  intros H. unfold emitAnimationComplete.
  destruct (emit_fold (animationcomplete e) (e <| animationcomplete := [] |>))
    as (F1 & _ & F3).
  destruct (animationcomplete e) as [|cb l] eqn:E.
  - rewrite F3 by reflexivity. exact H.
  - destruct F1 as [F1 _]; [discriminate|]. unfold armed. rewrite F1. discriminate.
Qed.

Lemma armed_step ev e : armed e -> armed (step ev e).
Proof.
  intros H. destruct ev; cbn [step];
    first [ apply armed_completeWarningTween, H
          | apply armed_update, H
          | apply armed_emitAnimationComplete, H
          | apply armed_takeDamage, H
          | apply (armed_request PendingPunch), H
          | apply (armed_request PendingSidekick), H
          | revert H; keeps_armed ].
Qed.

Lemma armed_run evs : forall e, armed e -> armed (run evs e).
Proof.
  induction evs as [|ev evs IH]; intros e H; [exact H|].
  change (run (ev :: evs) e) with (run evs (step ev e)). apply IH, armed_step, H.
Qed.

(** *** The time of the attack while a warning runs *)

Lemma attackExecuteTime_step a ev e :
  tweenRuns ev -> warning a e ->
  attackExecuteTime (step ev e) = attackExecuteTime e.
Proof.
  intros Hr H. pose proof (warning_showing a e H) as Hs.
  assert (Hv : warningView (step ev e) = warningView e ->
               attackExecuteTime (step ev e) = attackExecuteTime e).
  { unfold warningView. intros E. injection E as _ _ E. exact E. }
  destruct ev; cbn [step tweenRuns] in *;
    try (apply Hv; solve [same_view]).
  - destruct Hr.
  - apply Hv. apply warningView_update. exact Hs.
  - apply Hv. unfold emitAnimationComplete.
    rewrite (enemy_keeps_fold_left warningView (fun q cb => runAnimCallback cb q)).
    + reflexivity.
    + intros cb. same_view.
  - pose proof (request_rejected PendingPunch now e (or_intror Hs)) as E.
    cbn [request] in E. rewrite E. reflexivity.
  - pose proof (request_rejected PendingSidekick now e (or_intror Hs)) as E.
    cbn [request] in E. rewrite E. reflexivity.
Qed.

Lemma attackExecuteTime_run evs : forall a e,
  Forall tweenRuns evs -> warning a e ->
  attackExecuteTime (run evs e) = attackExecuteTime e.
Proof.
  induction evs as [|ev evs IH]; intros a e Hr H; [reflexivity|].
  inversion Hr; subst.
  change (run (ev :: evs) e) with (run evs (step ev e)).
  rewrite (IH a (step ev e)); [| assumption |].
  - apply attackExecuteTime_step with a; assumption.
  - apply warning_step; assumption.
Qed.

(** *** Movement and jump requests through [update] *)

Lemma handleAttack_keys_up now inp e : attackKeysUp inp -> handleAttack now inp e = e.
Proof.
  intros [H1 H2]. unfold handleAttack. rewrite H1, H2.
  destruct (_ || _ || _ || _); reflexivity.
Qed.

Lemma stepTimer_views delta e :
  course (stepTimer delta e) = course e /\ leap (stepTimer delta e) = leap e /\
  currentState (stepTimer delta e) = currentState e /\
  currentAttackType (stepTimer delta e) = currentAttackType e /\
  x (stepTimer delta e) = x e /\
  currentHealth (stepTimer delta e) = currentHealth e.
Proof. unfold stepTimer, course, leap. cbv zeta. cases; repeat split; reflexivity. Qed.

(** handleMovement on an enemy that is free to move and has a target. *)
Lemma handleMovement_target inp q tx :
  currentState q <> HURT -> currentState q <> ATTACKING -> targetX q = Some tx ->
  (aiMovementDirection q = (-1)%Z ->
     (x q <= tx -> course (handleMovement inp q) = (0%Z, None, 0, 0)) /\
     (tx < x q ->
        course (handleMovement inp q)
        = ((-1)%Z, Some tx, - CONFIG.ACCELERATION, velocityX q))) /\
  (aiMovementDirection q = 1%Z ->
     (tx <= x q -> course (handleMovement inp q) = (0%Z, None, 0, 0)) /\
     (x q < tx ->
        course (handleMovement inp q)
        = (1%Z, Some tx,
           if isEnemyMovingLeft inp then - CONFIG.ACCELERATION else CONFIG.ACCELERATION,
           velocityX q))).
Proof.
  intros Hs1 Hs2 Ht.
  assert (Hlock : EnemyState_eqb (currentState q) HURT
                  || (EnemyState_eqb (currentState q) ATTACKING
                      && negb (isJumpSidekick q)) = false).
  { destruct (currentState q); try reflexivity; congruence. }
  unfold handleMovement, course. rewrite Hlock, Ht. cbv zeta.
  split; intros Hd; rewrite Hd; cbn [Z.eqb Pos.eqb andb orb]; split.
  - intros Hx. destruct (leb_spec (x q) tx); [|lra]. cbn [orb]. fields. reflexivity.
  - intros Hx. destruct (leb_spec (x q) tx); [lra|]. cbn [orb].
    rewrite orb_true_r. cases; fields; rewrite ?Hd, ?Ht; reflexivity.
  - intros Hx. destruct (geb_spec (x q) tx); [|lra]. fields. reflexivity.
  - intros Hx. destruct (geb_spec (x q) tx); [lra|].
    rewrite orb_true_r, orb_false_r.
    destruct (isEnemyMovingLeft inp); cases; fields; rewrite ?Hd, ?Ht; reflexivity.
Qed.

Lemma course_update delta now inp e :
  0 < currentHealth e -> attackKeysUp inp ->
  course (update delta now inp e) = course (handleMovement inp (stepTimer delta e)).
Proof.
  intros Hh Hk. rewrite update_unfold.
  destruct (leb_spec (currentHealth e) 0); [lra|].
  repeat peel. rewrite handleAttack_keys_up by assumption. reflexivity.
Qed.

Lemma leap_handleJump inp q q' :
  leap q = leap q' -> leap (handleJump inp q) = leap (handleJump inp q').
Proof.
  unfold leap. intros H. injection H as H1 H2 H3.
  unfold handleJump. cbv zeta. rewrite H2.
  destruct (aiJumpRequested q') eqn:Hj; fields; rewrite H1;
    destruct (_ && blockedDown q'); fields; rewrite ?H1, ?H2, ?H3, ?Hj; reflexivity.
Qed.

Lemma leap_update delta now inp e :
  0 < currentHealth e ->
  leap (update delta now inp e) = leap (handleJump inp (stepTimer delta e)).
Proof.
  intros Hh. rewrite update_unfold.
  destruct (leb_spec (currentHealth e) 0); [lra|].
  repeat peel. apply leap_handleJump.
  assert (Hm : forall q, leap (handleMovement inp q) = leap q) by same_view.
  assert (Ha : forall q, leap (handleAttack now inp q) = leap q) by same_view.
  rewrite Hm, Ha. reflexivity.
Qed.

End EnemyMore.

(** X4: a hit that lands makes the enemy invincible for
    INVINCIBILITY_DURATION = 800 ms of the time its [update()] sees, when
    the frame times are whole numbers of milliseconds.  The enemy is
    invincible and its health is frozen after every later event while less
    than 800 ms have passed, whatever the events are; and once 800 ms have
    passed with no further hit, it is no longer invincible. *)
Theorem X4_enemy_hit_invincibility_window :
  forall (e : Enemy.t) (amount attackerX : Q) (attackType : option string)
         (evs : list Enemy.Event),
    Enemy.isInvincible e = false ->
    0 < Enemy.currentHealth e ->
    Forall Enemy.forward evs ->
    Forall Enemy.wholeTimes evs ->
    let hit := Enemy.takeDamage amount attackerX attackType e in
    let later := Enemy.run evs hit in
    Enemy.isInvincible hit = true /\
    Enemy.invincibilityTimer hit = Enemy.CONFIG.INVINCIBILITY_DURATION /\
    (Enemy.updateTime evs < Enemy.CONFIG.INVINCIBILITY_DURATION ->
       Enemy.isInvincible later = true /\
       Enemy.currentHealth later = Enemy.currentHealth hit) /\
    (Enemy.CONFIG.INVINCIBILITY_DURATION <= Enemy.updateTime evs ->
       Forall Enemy.noDamage evs ->
       Enemy.isInvincible later = false).
Proof.
  intros e amount attackerX attackType evs Hi Hh Hf Hwh hit later.
  pose proof (EnemyMore.enemy_shield_takeDamage amount attackerX attackType e Hi Hh) as Hs.
  fold hit in Hs. unfold EnemyInvariants.shield in Hs. injection Hs as Hs1 Hs2.
  unfold Enemy.CONFIG.INVINCIBILITY_DURATION in *.
  assert (Hc : EnemyInvariants.hitShield 0 hit).
  { split; [intros _; split; [exact Hs1 | rewrite Hs2; lra] | lra]. }
  split; [exact Hs1|]. split; [exact Hs2|]. split.
  - intros He.
    destruct (EnemyMore.enemy_hitShield_protects evs 0 hit Hf) as [[H3 _] H2];
      [lra | lra | exact Hc |].
    split; [|exact H2]. apply H3. lra.
  - intros He Hn.
    destruct (EnemyMore.enemy_hitShield_run evs 0 hit Hf Hn Hc) as [_ H4].
    apply H4. lra.
Qed.

Lemma X4_enemy_hit_invincibility_window_witness :
  let hit := Enemy.takeDamage 10 100 (Some "uppercut"%string) (Enemy.new 1180 590) in
  let idle := {| Enemy.isEnemyMovingLeft := false; Enemy.isEnemyMovingRight := false;
                 Enemy.isEnemyJumpPressed := false; Enemy.isEnemyPunchPressed := false;
                 Enemy.isEnemySidekickPressed := false |} in
  let evs := [Enemy.Update 400 0 idle; Enemy.TakeDamage 20 100 (Some "uppercut"%string);
              Enemy.Update 300 400 idle] in
  Enemy.isInvincible hit = true /\
  Enemy.isInvincible (Enemy.run evs hit) = true /\
  Enemy.currentHealth (Enemy.run evs hit) = Enemy.currentHealth hit.
Proof.
  intros hit idle evs.
  destruct (X4_enemy_hit_invincibility_window (Enemy.new 1180 590) 10 100
              (Some "uppercut"%string) evs) as (H1 & _ & H3 & _).
  - reflexivity.
  - reflexivity.
  - unfold evs. repeat constructor; cbn; discriminate.
  - unfold evs. repeat constructor.
  - split; [exact H1|]. apply H3. vm_compute. reflexivity.
Defined.

(** X5: a dead enemy is inert.  [punch()], [sidekick()] and [jump()] are
    refused and change nothing, and [update()] changes nothing but the
    invincibility timer and its flag, whatever keys are pressed. *)
Theorem X5_dead_enemy_is_inert :
  forall (e : Enemy.t) (delta now : Q) (inp : Enemy.Input),
    Enemy.currentHealth e <= 0 ->
    Enemy.punch now e = (false, e) /\
    Enemy.sidekick now e = (false, e) /\
    Enemy.jump e = (false, e) /\
    (Enemy.update delta now inp e)
      <| Enemy.isInvincible := Enemy.isInvincible e |>
      <| Enemy.invincibilityTimer := Enemy.invincibilityTimer e |>
    = e.
Proof.
  intros e delta now inp Hd.
  assert (Ha : Enemy.canAttack e = false).
  { unfold Enemy.canAttack. destruct (gtb_spec (Enemy.currentHealth e) 0); [lra|].
    rewrite andb_false_r. reflexivity. }
  assert (Hj : Enemy.canJump e = false).
  { unfold Enemy.canJump. destruct (gtb_spec (Enemy.currentHealth e) 0); [lra|].
    apply andb_false_r. }
  repeat split.
  - unfold Enemy.punch. rewrite Ha. reflexivity.
  - unfold Enemy.sidekick. rewrite Ha. reflexivity.
  - unfold Enemy.jump. rewrite Hj. reflexivity.
  - rewrite EnemyFacts.update_unfold.
    destruct (leb_spec (Enemy.currentHealth e) 0); [|lra].
    unfold EnemyViews.stepTimer. cbv zeta. destruct e. EnemyFacts.cases; reflexivity.
Qed.

Lemma X5_dead_enemy_is_inert_witness :
  let e := Enemy.takeDamage 300 100 (Some "uppercut"%string) (Enemy.new 1180 590) in
  let keys := {| Enemy.isEnemyMovingLeft := true; Enemy.isEnemyMovingRight := false;
                 Enemy.isEnemyJumpPressed := true; Enemy.isEnemyPunchPressed := true;
                 Enemy.isEnemySidekickPressed := false |} in
  Enemy.punch 0 e = (false, e) /\
  Enemy.sidekick 0 e = (false, e) /\
  Enemy.jump e = (false, e) /\
  (Enemy.update 16 0 keys e)
    <| Enemy.isInvincible := Enemy.isInvincible e |>
    <| Enemy.invincibilityTimer := Enemy.invincibilityTimer e |>
  = e.
Proof.
  intros e keys. apply (X5_dead_enemy_is_inert e 16 0 keys). vm_compute. discriminate.
Defined.

(** X6: a move by pixels ends at its target.  For a live enemy that is
    neither hurt nor attacking, with the attack keys up and a target
    position set, [update()] stops the move (direction 0, target cleared,
    zero horizontal acceleration and velocity) as soon as the enemy is at
    or past the target in its direction of travel, and keeps the direction
    and the target while it is not.  On the way left it then accelerates at
    1200 to the left; on the way right it accelerates at 1200 to the right
    when the move-left key is up, and to the left when that key is held,
    the key winning over the direction of the move.  So a move by zero or
    fewer pixels stops at the next update. *)
Theorem X6_enemy_move_stops_at_target :
  forall (e : Enemy.t) (tx delta now : Q) (inp : Enemy.Input),
    0 < Enemy.currentHealth e ->
    Enemy.currentState e <> Enemy.HURT ->
    Enemy.currentState e <> Enemy.ATTACKING ->
    Enemy.attackKeysUp inp ->
    Enemy.targetX e = Some tx ->
    let after := Enemy.update delta now inp e in
    let stopped :=
      Enemy.aiMovementDirection after = 0%Z /\ Enemy.targetX after = None /\
      Enemy.accelerationX after = 0 /\ Enemy.velocityX after = 0 in
    (Enemy.aiMovementDirection e = (-1)%Z ->
       (Enemy.x e <= tx -> stopped) /\
       (tx < Enemy.x e ->
          Enemy.aiMovementDirection after = (-1)%Z /\ Enemy.targetX after = Some tx /\
          Enemy.accelerationX after = - Enemy.CONFIG.ACCELERATION)) /\
    (Enemy.aiMovementDirection e = 1%Z ->
       (tx <= Enemy.x e -> stopped) /\
       (Enemy.x e < tx ->
          Enemy.aiMovementDirection after = 1%Z /\ Enemy.targetX after = Some tx /\
          Enemy.accelerationX after
          = if Enemy.isEnemyMovingLeft inp
            then - Enemy.CONFIG.ACCELERATION else Enemy.CONFIG.ACCELERATION)).
Proof.
  intros e tx delta now inp Hh Hs1 Hs2 Hk Ht after stopped.
  pose proof (EnemyMore.course_update delta now inp e Hh Hk) as Hc. fold after in Hc.
  destruct (EnemyMore.stepTimer_views delta e) as (Sc & _ & Ss & _ & Sx & _).
  set (q := EnemyViews.stepTimer delta e) in *.
  unfold EnemyInvariants.course in Sc. injection Sc as Sc1 Sc2 _ _.
  destruct (EnemyMore.handleMovement_target inp q tx) as [L R];
    [congruence | congruence | congruence |].
  rewrite Sc1, Sx in L, R. unfold stopped, EnemyInvariants.course in *.
  split; intros Hd; [destruct (L Hd) as [A B] | destruct (R Hd) as [A B]]; split.
  - intros Hx. rewrite (A Hx) in Hc. injection Hc as -> -> -> ->.
    repeat split; reflexivity.
  - intros Hx. rewrite (B Hx) in Hc. injection Hc as -> -> -> _.
    repeat split; reflexivity.
  - intros Hx. rewrite (A Hx) in Hc. injection Hc as -> -> -> ->.
    repeat split; reflexivity.
  - intros Hx. rewrite (B Hx) in Hc. injection Hc as -> -> -> _.
    repeat split; reflexivity.
Qed.

Lemma X6_enemy_move_stops_at_target_witness :
  let idle := {| Enemy.isEnemyMovingLeft := false; Enemy.isEnemyMovingRight := false;
                 Enemy.isEnemyJumpPressed := false; Enemy.isEnemyPunchPressed := false;
                 Enemy.isEnemySidekickPressed := false |} in
  let away := Enemy.moveLeftBy 200 (Enemy.new 1180 590) in
  let there := Enemy.physicsStep
                 {| Enemy.new_x := 975; Enemy.new_y := 590; Enemy.new_velocityX := -250;
                    Enemy.new_velocityY := 0; Enemy.new_blockedDown := true |} away in
  Enemy.accelerationX (Enemy.update 16 0 idle away) = - Enemy.CONFIG.ACCELERATION /\
  Enemy.aiMovementDirection (Enemy.update 16 16 idle there) = 0%Z /\
  Enemy.targetX (Enemy.update 16 16 idle there) = None /\
  Enemy.velocityX (Enemy.update 16 16 idle there) = 0.
Proof.
  intros idle away there.
  assert (Hk : Enemy.attackKeysUp idle) by (split; reflexivity).
  destruct (X6_enemy_move_stops_at_target away 980 16 0 idle) as [[_ H1] _];
    [reflexivity | discriminate | discriminate | exact Hk | reflexivity | reflexivity |].
  destruct (X6_enemy_move_stops_at_target there 980 16 16 idle) as [[H2 _] _];
    [reflexivity | discriminate | discriminate | exact Hk | reflexivity | reflexivity |].
  destruct H1 as (_ & _ & H1); [vm_compute; reflexivity|].
  destruct H2 as (H2 & H3 & _ & H4); [vm_compute; discriminate|].
  repeat split; assumption.
Defined.

(** X7: a jump request is honoured once.  [jump()] is refused, changing
    nothing, unless the enemy is on the ground and alive; an accepted
    request makes the next [update()] start a jump (vertical velocity
    JUMP_VELOCITY = -650), whatever state the enemy is in and whatever keys
    are pressed; and every [update()] of a live enemy leaves no request
    behind, so one request starts at most one jump. *)
Theorem X7_enemy_jump_request :
  forall (e : Enemy.t) (delta now : Q) (inp : Enemy.Input),
    (Enemy.canJump e = false -> Enemy.jump e = (false, e)) /\
    (Enemy.canJump e = true ->
       fst (Enemy.jump e) = true /\
       Enemy.velocityY (Enemy.update delta now inp (snd (Enemy.jump e)))
       = Enemy.CONFIG.JUMP_VELOCITY) /\
    (0 < Enemy.currentHealth e ->
       Enemy.aiJumpRequested (Enemy.update delta now inp e) = false /\
       (Enemy.aiJumpRequested e = false -> Enemy.isEnemyJumpPressed inp = false ->
        Enemy.velocityY (Enemy.update delta now inp e) = Enemy.velocityY e)).
Proof.
  intros e delta now inp. split; [|split].
  - intros H. unfold Enemy.jump. rewrite H. reflexivity.
  - intros H. unfold Enemy.jump. rewrite H. cbn [negb fst snd]. split; [reflexivity|].
    unfold Enemy.canJump in H. apply andb_true_iff in H. destruct H as [Hg Hh].
    destruct (gtb_spec (Enemy.currentHealth e) 0); [|discriminate].
    set (e1 := e <| Enemy.aiJumpRequested := true |>).
    assert (Hh1 : 0 < Enemy.currentHealth e1) by assumption.
    pose proof (EnemyMore.leap_update delta now inp e1 Hh1) as L.
    destruct (EnemyMore.stepTimer_views delta e1) as (_ & Sl & _).
    unfold EnemyInvariants.leap in Sl. injection Sl as S1 S2 S3.
    unfold Enemy.handleJump in L. cbv zeta in L. rewrite S2 in L.
    change (Enemy.aiJumpRequested e1) with true in L. rewrite orb_true_r in L.
    revert L. EnemyFacts.fields. rewrite S1. change (Enemy.blockedDown e1) with (Enemy.blockedDown e).
    rewrite Hg. unfold EnemyInvariants.leap. EnemyFacts.fields. intros L. injection L as _ _ L. exact L.
  - intros Hh. pose proof (EnemyMore.leap_update delta now inp e Hh) as L.
    destruct (EnemyMore.stepTimer_views delta e) as (_ & Sl & _).
    unfold EnemyInvariants.leap in Sl. injection Sl as S1 S2 S3.
    unfold Enemy.handleJump in L. cbv zeta in L. rewrite S2 in L. split.
    + revert L. unfold EnemyInvariants.leap.
      destruct (Enemy.aiJumpRequested e) eqn:Hr; EnemyFacts.cases;
        rewrite ?S2, ?Hr; intros L; injection L as _ L _; exact L.
    + intros Hr Hk. rewrite Hr, Hk in L. cbn [orb andb] in L.
      unfold EnemyInvariants.leap in L. injection L as _ _ L. congruence.
Qed.

Lemma X7_enemy_jump_request_witness :
  let idle := {| Enemy.isEnemyMovingLeft := false; Enemy.isEnemyMovingRight := false;
                 Enemy.isEnemyJumpPressed := false; Enemy.isEnemyPunchPressed := false;
                 Enemy.isEnemySidekickPressed := false |} in
  let grounded := Enemy.physicsStep
                    {| Enemy.new_x := 1180; Enemy.new_y := 590; Enemy.new_velocityX := 0;
                       Enemy.new_velocityY := 0; Enemy.new_blockedDown := true |}
                    (Enemy.new 1180 590) in
  let hurt := Enemy.takeDamage 10 100 (Some "uppercut"%string) grounded in
  Enemy.jump (Enemy.new 1180 590) = (false, Enemy.new 1180 590) /\
  fst (Enemy.jump hurt) = true /\
  Enemy.velocityY (Enemy.update 16 0 idle (snd (Enemy.jump hurt)))
  = Enemy.CONFIG.JUMP_VELOCITY /\
  Enemy.aiJumpRequested (Enemy.update 16 0 idle (snd (Enemy.jump hurt))) = false.
Proof.
  intros idle grounded hurt.
  destruct (X7_enemy_jump_request (Enemy.new 1180 590) 16 0 idle) as (H1 & _ & _).
  destruct (X7_enemy_jump_request hurt 16 0 idle) as (_ & H2 & _).
  destruct (X7_enemy_jump_request (snd (Enemy.jump hurt)) 16 0 idle) as (_ & _ & H3).
  split; [apply H1; reflexivity|].
  destruct H2 as [H2 H2']; [reflexivity|].
  destruct H3 as [H3 _]; [reflexivity|].
  repeat split; assumption.
Defined.

(** X8: the countdown the enemy reports runs to the scheduled time of the
    attack.  After an accepted [punch()] or [sidekick()] at scene time
    [now], and until the warning tween completes, the warning shows and
    [getTimeUntilAttack()] read at scene time [t] is
    max(0, now + ATTACK_WARNING_DURATION - t), whatever else happens to the
    enemy in between: 500 ms at [now], [now + 500 - t] before [now + 500],
    and 0 from then on, also when the tween has not completed by then.
    Scene times are whole numbers of milliseconds. *)
Theorem X8_attack_countdown_runs_to_the_attack :
  forall (a : Enemy.PendingAttack) (now t : Q) (e : Enemy.t) (evs : list Enemy.Event),
    Enemy.warningContainer e = true ->
    Enemy.warningGraphics e = true ->
    Enemy.canAttack e = true ->
    Forall Enemy.tweenRuns evs ->
    Num.whole now = true ->
    Num.whole t = true ->
    let later := Enemy.run evs (snd (Enemy.request a now e)) in
    Enemy.isShowingWarning later = true /\
    Enemy.getTimeUntilAttack t later
    = Num.Math_max 0 (now + Enemy.CONFIG.ATTACK_WARNING_DURATION - t) /\
    (t < now + Enemy.CONFIG.ATTACK_WARNING_DURATION ->
       Enemy.getTimeUntilAttack t later
       == now + Enemy.CONFIG.ATTACK_WARNING_DURATION - t) /\
    (now + Enemy.CONFIG.ATTACK_WARNING_DURATION <= t ->
       Enemy.getTimeUntilAttack t later == 0).
Proof.
  intros a now t e evs Hc Hg Ha Hr Hwn Hwt later.
  destruct (EnemyFacts.request_accepted a now e Hc Hg Ha) as (_ & Hx & Hw).
  pose proof (EnemyFacts.warning_run evs a _ Hr Hw) as Hl. fold later in Hl.
  pose proof (EnemyMore.attackExecuteTime_run evs a _ Hr Hw) as He.
  fold later in He. rewrite Hx in He.
  pose proof (EnemyFacts.warning_showing _ _ Hl) as Hs.
  assert (G : Enemy.getTimeUntilAttack t later
              = Num.Math_max 0 (now + Enemy.CONFIG.ATTACK_WARNING_DURATION - t)).
  { unfold Enemy.getTimeUntilAttack. rewrite Hs, He. reflexivity. }
  split; [exact Hs|]. split; [exact G|].
  rewrite G. unfold Num.Math_max, Enemy.CONFIG.ATTACK_WARNING_DURATION.
  split; intros Hle; destruct (ltb_spec 0 (now + 500 - t)); lra.
Qed.

Lemma X8_attack_countdown_runs_to_the_attack_witness :
  let idle := {| Enemy.isEnemyMovingLeft := false; Enemy.isEnemyMovingRight := false;
                 Enemy.isEnemyJumpPressed := false; Enemy.isEnemyPunchPressed := false;
                 Enemy.isEnemySidekickPressed := false |} in
  let evs := [Enemy.Update 100 1100 idle; Enemy.CallPunch 1150;
              Enemy.TakeDamage 10 100 (Some "uppercut"%string);
              Enemy.Update 250 1350 idle] in
  let later :=
    Enemy.run evs (snd (Enemy.request Enemy.PendingPunch 1000 (Enemy.new 1180 590))) in
  Enemy.isShowingWarning later = true /\
  Enemy.getTimeUntilAttack 1350 later == 150 /\
  Enemy.getTimeUntilAttack 1600 later == 0.
Proof.
  intros idle evs later.
  assert (Hr : Forall Enemy.tweenRuns evs) by (unfold evs; repeat constructor).
  destruct (X8_attack_countdown_runs_to_the_attack Enemy.PendingPunch 1000 1350
              (Enemy.new 1180 590) evs eq_refl eq_refl eq_refl Hr eq_refl eq_refl)
    as (H1 & _ & H2 & _).
  destruct (X8_attack_countdown_runs_to_the_attack Enemy.PendingPunch 1000 1600
              (Enemy.new 1180 590) evs eq_refl eq_refl eq_refl Hr eq_refl eq_refl)
    as (_ & _ & _ & H3).
  split; [exact H1|]. split.
  - fold later in H2. rewrite H2; [reflexivity | reflexivity].
  - apply H3. vm_compute. discriminate.
Defined.

(** X9: a locked state of the enemy whose animation is loaded ends with
    that animation.  In every state a new enemy can reach, an enemy in HURT
    or ATTACKING whose current animation is one of those PreloadScene loads
    has a listener registered for the end of the animation, and when the
    animation completes the enemy is in IDLE with the idle animation and no
    attack type. *)
Theorem X9_enemy_locked_states_end :
  forall (evs : list Enemy.Event) (x0 y0 : Q),
    let e := Enemy.run evs (Enemy.new x0 y0) in
    let after := Enemy.step Enemy.AnimationComplete e in
    Enemy.currentState e = Enemy.HURT \/ Enemy.currentState e = Enemy.ATTACKING ->
    Enemy.loaded (Enemy.animKey e) = true ->
    Enemy.animationcomplete e <> [] /\
    Enemy.currentState after = Enemy.IDLE /\
    Enemy.animKey after = "enemy-idle"%string /\
    Enemy.currentAttackType after = None.
Proof.
  intros evs x0 y0 e after Hs Hl.
  assert (Hc : EnemyInvariants.closing e).
  { apply EnemyMore.enemy_closing_run. exact I. }
  unfold after. cbn [Enemy.step]. unfold Enemy.emitAnimationComplete.
  destruct (EnemyMore.emit_fold (Enemy.animationcomplete e)
              (e <| Enemy.animationcomplete := [] |>)) as (F1 & F2 & _).
  unfold EnemyInvariants.closing in Hc.
  destruct Hs as [Hs|Hs]; rewrite Hs in Hc.
  - destruct Hc as [Hn Ha]. specialize (Hn Hl). destruct (F1 Hn) as [G1 G2].
    split; [exact Hn|]. split; [exact G1|]. split; [exact G2|]. apply F2. left. exact Ha.
  - specialize (Hc Hl).
    assert (Hn : Enemy.animationcomplete e <> []).
    { intros E. rewrite E in Hc. destruct Hc. }
    destruct (F1 Hn) as [G1 G2].
    split; [exact Hn|]. split; [exact G1|]. split; [exact G2|]. apply F2. right. exact Hc.
Qed.

Lemma X9_enemy_locked_states_end_witness :
  let e := Enemy.run [Enemy.TakeDamage 10 100 (Some "uppercut"%string)]
                     (Enemy.new 1180 590) in
  let after := Enemy.step Enemy.AnimationComplete e in
  Enemy.currentState e = Enemy.HURT /\
  Enemy.currentState after = Enemy.IDLE /\
  Enemy.animKey after = "enemy-idle"%string /\
  Enemy.currentAttackType after = None.
Proof.
  intros e after.
  destruct (X9_enemy_locked_states_end
              [Enemy.TakeDamage 10 100 (Some "uppercut"%string)] 1180 590)
    as (_ & H); [left; reflexivity | reflexivity |].
  split; [reflexivity | exact H].
Defined.

(** X10: the damage of an enemy attack is that of the attack whose
    animation and hitbox show.  In every state a new enemy can reach, when
    [getAttackHitbox()] returns a hitbox the attack type is the one of the
    animation that plays: a punch with its hitbox of width 100 deals 10, a
    sidekick with width 120 deals 15, a jump sidekick with width 140 deals
    20. *)
Theorem X10_enemy_damage_matches_animation :
  forall (evs : list Enemy.Event) (x0 y0 : Q) (hitbox : Rectangle),
    let e := Enemy.run evs (Enemy.new x0 y0) in
    Enemy.getAttackHitbox e = Some hitbox ->
    (Enemy.animKey e = "enemy-punch"%string /\
     Enemy.currentAttackType e = Some Enemy.Punch /\
     Enemy.getAttackDamage e = 10 /\ rect_width hitbox = 100) \/
    (Enemy.animKey e = "enemy-sidekick"%string /\
     Enemy.currentAttackType e = Some Enemy.Sidekick /\
     Enemy.getAttackDamage e = 15 /\ rect_width hitbox = 120) \/
    (Enemy.animKey e = "enemy-jump-sidekick"%string /\
     Enemy.currentAttackType e = Some Enemy.JumpSidekick /\
     Enemy.getAttackDamage e = 20 /\ rect_width hitbox = 140).
Proof.
  intros evs x0 y0 hitbox e Hhb.
  assert (Ha : EnemyInvariants.armed e).
  { apply EnemyMore.armed_run. discriminate. }
  clearbody e. unfold Enemy.getAttackHitbox in Hhb.
  destruct (Enemy.currentState e) eqn:Hs; cbn [Enemy.EnemyState_eqb negb] in Hhb;
    try discriminate Hhb.
  destruct (Ha Hs) as (a & Hty & Hk).
  unfold Enemy.getAttackDamage. rewrite Hty in Hhb. rewrite Hty.
  destruct (Enemy.currentFrame e) as [frame|]; [|discriminate Hhb].
  unfold EnemyInvariants.attackOfAnimation in Hk.
  destruct (String.eqb (Enemy.animKey e) "enemy-punch") eqn:K1.
  - apply String.eqb_eq in K1. rewrite K1 in Hhb. rewrite K1. injection Hk as <-.
    cbn [andb String.eqb Ascii.eqb Bool.eqb] in Hhb.
    destruct (String.eqb (frame_name frame) "punch_extend"); [|discriminate Hhb].
    injection Hhb as <-. left. repeat split; reflexivity.
  - destruct (String.eqb (Enemy.animKey e) "enemy-sidekick") eqn:K2.
    + apply String.eqb_eq in K2. rewrite K2 in Hhb. rewrite K2. injection Hk as <-.
      cbn [andb String.eqb Ascii.eqb Bool.eqb] in Hhb.
      destruct (_ || _); [|discriminate Hhb].
      injection Hhb as <-. right. left. repeat split; reflexivity.
    + destruct (String.eqb (Enemy.animKey e) "enemy-jump-sidekick") eqn:K3;
        [|discriminate Hk].
      apply String.eqb_eq in K3. injection Hk as <-.
      cbn [andb] in Hhb. rewrite K3.
      destruct (String.eqb (frame_name frame) "jump_kick_extend"); [|discriminate Hhb].
      injection Hhb as <-. right. right. repeat split; reflexivity.
Qed.

Lemma X10_enemy_damage_matches_animation_witness :
  let grounded := {| Enemy.new_x := 1180; Enemy.new_y := 590; Enemy.new_velocityX := 0;
                     Enemy.new_velocityY := 0; Enemy.new_blockedDown := true |} in
  let evs := [Enemy.Physics grounded; Enemy.CallSidekick 0; Enemy.TweenComplete;
              Enemy.AnimationFrameChange {| index := 3; frame_name := "kick_extend" |}] in
  let e := Enemy.run evs (Enemy.new 1180 590) in
  Enemy.getAttackHitbox e
  = Some {| rect_x := 1180 + -90 - 120 / 2; rect_y := 590 + -40 - 80 / 2;
            rect_width := 120; rect_height := 80 |} /\
  Enemy.getAttackDamage e = 15.
Proof.
  intros grounded evs e.
  assert (Hhb : Enemy.getAttackHitbox e
                = Some {| rect_x := 1180 + -90 - 120 / 2; rect_y := 590 + -40 - 80 / 2;
                          rect_width := 120; rect_height := 80 |}) by reflexivity.
  split; [exact Hhb|].
  destruct (X10_enemy_damage_matches_animation evs 1180 590 _ Hhb)
    as [(K & _) | [(_ & _ & H & _) | (K & _)]];
    [discriminate K | exact H | discriminate K].
Defined.

Module SceneMore.
Import GameScene SceneViews.

(** *** Hit resolution *)

Lemma enemy_isInvincible_takeDamage amount attackerX ty e :
  Enemy.isDead e = false -> Enemy.isInvincible e = false ->
  Enemy.isInvincible (Enemy.takeDamage amount attackerX ty e) = true.
Proof.
  intros Hd Hi. unfold Enemy.isDead in Hd.
  destruct (leb_spec (Enemy.currentHealth e) 0); [discriminate|].
  pose proof (EnemyMore.enemy_shield_takeDamage amount attackerX ty e Hi ltac:(lra)) as H.
  unfold EnemyInvariants.shield in H. injection H as H _. exact H.
Qed.

Lemma player_isInvincible_takeDamage amount attackerX p :
  Player.isDead p = false -> Player.isInvincible p = false ->
  Player.isInvincible (Player.takeDamage amount attackerX p) = true.
Proof.
  intros Hd Hi. unfold Player.isDead in Hd.
  destruct (leb_spec (Player.currentHealth p) 0); [discriminate|].
  pose proof (PlayerMore.shield_takeDamage amount attackerX p Hi ltac:(lra)) as H.
  unfold PlayerViews.shield in H. injection H as H _. exact H.
Qed.

Lemma struck_cases player hb enemy :
  struck player hb enemy = enemy \/
  (Enemy.isDead enemy = false /\ Enemy.isInvincible enemy = false /\
   struck player hb enemy
   = Enemy.takeDamage (Player.getAttackDamage player) (Player.x player)
       (Player.getAttackType player) enemy /\
   Enemy.isInvincible (struck player hb enemy) = true).
Proof.
  unfold struck, Enemy.getIsInvincible.
  destruct (Enemy.isDead enemy) eqn:Hd; cbn [orb]; [left; reflexivity|].
  destruct (Enemy.isInvincible enemy) eqn:Hi; [left; reflexivity|].
  destruct (hitboxOverlapsBody _ _ _ _ _); [|left; reflexivity].
  right. repeat split. apply enemy_isInvincible_takeDamage; assumption.
Qed.

Lemma struck_twice player hb enemy :
  struck player hb (struck player hb enemy) = struck player hb enemy.
Proof.
  destruct (struck_cases player hb enemy) as [H|(_ & _ & _ & H)].
  - rewrite H. exact H.
  - set (e' := struck player hb enemy) in *. unfold struck, Enemy.getIsInvincible.
    rewrite H, orb_true_r. reflexivity.
Qed.

Lemma struck_playerHits player hb enemy :
  struck player hb enemy
  = if playerHits hb enemy
    then Enemy.takeDamage (Player.getAttackDamage player) (Player.x player)
           (Player.getAttackType player) enemy
    else enemy.
Proof.
  unfold struck, playerHits. destruct (_ || _); [reflexivity|].
  destruct (hitboxOverlapsBody _ _ _ _ _); reflexivity.
Qed.

Lemma checkPlayerAttacks_unfold player enemies :
  checkPlayerAttacks player enemies
  = match Player.getAttackHitbox player with
    | None => enemies
    | Some hb => strikeEnemies player hb enemies
    end.
Proof. reflexivity. Qed.

(** The loop that returns has looked at every enemy. *)
Lemma strikeEnemies_returns player hb enemies :
  strikeEnemiesThrows player hb enemies = false ->
  strikeEnemies player hb enemies = map (struck player hb) enemies.
Proof.
  induction enemies as [|e es IH]; intros H; [reflexivity|].
  cbn [strikeEnemies strikeEnemiesThrows map] in *. rewrite struck_playerHits.
  destruct (playerHits hb e).
  - apply orb_false_iff in H. destruct H as [H1 H2]. rewrite H1, IH by exact H2.
    reflexivity.
  - rewrite IH by exact H. reflexivity.
Qed.

(** The loop that throws has looked at the enemies up to the one on which
    [takeDamage] threw. *)
Lemma strikeEnemies_throws player hb enemies :
  strikeEnemiesThrows player hb enemies = true ->
  exists before enemy rest,
    enemies = before ++ enemy :: rest /\
    strikeEnemiesThrows player hb before = false /\
    playerHits hb enemy = true /\
    Enemy.takeDamageThrows (Player.getAttackType player) enemy = true /\
    strikeEnemies player hb enemies
    = strikeEnemies player hb before ++
      Enemy.takeDamage (Player.getAttackDamage player) (Player.x player)
        (Player.getAttackType player) enemy :: rest.
Proof.
  induction enemies as [|e es IH]; intros H; [discriminate H|].
  cbn [strikeEnemies strikeEnemiesThrows] in *.
  destruct (playerHits hb e) eqn:Hp.
  - destruct (Enemy.takeDamageThrows (Player.getAttackType player) e) eqn:Ht.
    + exists [], e, es. repeat split; assumption.
    + cbn [orb] in H. destruct (IH H) as (before & enemy & rest & E & B & P & T & S).
      exists (e :: before), enemy, rest. cbn [strikeEnemies strikeEnemiesThrows app].
      rewrite Hp, Ht, B, S, E. repeat split; assumption.
  - destruct (IH H) as (before & enemy & rest & E & B & P & T & S).
    exists (e :: before), enemy, rest. cbn [strikeEnemies strikeEnemiesThrows app].
    rewrite Hp, B, S, E. repeat split; assumption.
Qed.

Lemma strikeEnemies_each player hb enemies :
  Forall2 (fun enemy enemy' => enemy' = enemy \/ enemy' = struck player hb enemy)
          enemies (strikeEnemies player hb enemies).
Proof.
  induction enemies as [|e es IH]; [constructor|].
  cbn [strikeEnemies]. pose proof (struck_playerHits player hb e) as Hs.
  destruct (playerHits hb e).
  - destruct (Enemy.takeDamageThrows _ e).
    + constructor; [right; symmetry; exact Hs|].
      clear. induction es; constructor; [left; reflexivity | assumption].
    + constructor; [right; symmetry; exact Hs | exact IH].
  - constructor; [left; reflexivity | exact IH].
Qed.

Lemma strikeEnemies_miss player hb enemies :
  Forall (fun enemy => playerHits hb enemy = false) enemies ->
  strikeEnemies player hb enemies = enemies.
Proof.
  induction 1 as [|e es He _ IH]; [reflexivity|].
  cbn [strikeEnemies]. rewrite He, IH. reflexivity.
Qed.

Lemma strikeEnemies_length player hb enemies :
  List.length (strikeEnemies player hb enemies) = List.length enemies.
Proof.
  induction enemies as [|e es IH]; [reflexivity|].
  cbn [strikeEnemies]. destruct (playerHits hb e); [destruct (Enemy.takeDamageThrows _ e)|];
    cbn [List.length]; congruence.
Qed.

(** After a loop that returned, a second loop hits nothing. *)
Lemma strikeEnemies_again player hb enemies :
  Forall (fun enemy => playerHits hb enemy = false) (map (struck player hb) enemies).
Proof.
  induction enemies as [|e es IH]; [constructor|]. cbn [map]. constructor; [|exact IH].
  pose proof (struck_twice player hb e) as T. rewrite struck_playerHits in T.
  destruct (struck_cases player hb e) as [H|(_ & _ & _ & H)].
  - rewrite H in *. unfold playerHits, Enemy.getIsInvincible.
    unfold struck, Enemy.getIsInvincible in H.
    destruct (Enemy.isDead e || Enemy.isInvincible e) eqn:G; [reflexivity|].
    destruct (hitboxOverlapsBody _ _ _ _ _) eqn:O; [|reflexivity].
    apply orb_false_iff in G. destruct G as [G1 G2].
    pose proof (enemy_isInvincible_takeDamage (Player.getAttackDamage player)
                  (Player.x player) (Player.getAttackType player) e G1 G2) as I.
    rewrite H in I. congruence.
  - unfold playerHits, Enemy.getIsInvincible. rewrite H, orb_true_r. reflexivity.
Qed.

Lemma strikeEnemiesThrows_miss player hb enemies :
  Forall (fun enemy => playerHits hb enemy = false) enemies ->
  strikeEnemiesThrows player hb enemies = false.
Proof.
  induction 1 as [|e es He _ IH]; [reflexivity|].
  cbn [strikeEnemiesThrows]. rewrite He. exact IH.
Qed.

Lemma checkEnemyAttacks_fold player enemies :
  checkEnemyAttacks player enemies
  = if Player.isDead player || Player.getIsInvincible player then player
    else fold_left strike enemies player.
Proof. reflexivity. Qed.

Lemma strike_invincible player enemy :
  Player.isInvincible player = true -> strike player enemy = player.
Proof.
  intros Hi. unfold strike. destruct (Enemy.isDead enemy); [reflexivity|].
  destruct (Enemy.getAttackHitbox enemy); [|reflexivity].
  destruct (hitboxOverlapsBody _ _ _ _ _); [|reflexivity].
  apply PlayerFacts.takeDamage_guard. left. exact Hi.
Qed.

Lemma fold_strike_invincible enemies : forall player,
  Player.isInvincible player = true -> fold_left strike enemies player = player.
Proof.
  induction enemies as [|e es IH]; intros player Hi; [reflexivity|].
  cbn [fold_left]. rewrite strike_invincible by exact Hi. apply IH, Hi.
Qed.

Lemma strike_cases player enemy :
  strike player enemy = player \/
  (Enemy.isDead enemy = false /\
   exists hitbox, Enemy.getAttackHitbox enemy = Some hitbox /\
   strike player enemy
   = Player.takeDamage (Enemy.getAttackDamage enemy) (Enemy.x enemy) player).
Proof.
  unfold strike. destruct (Enemy.isDead enemy); [left; reflexivity|].
  destruct (Enemy.getAttackHitbox enemy) as [hb|]; [|left; reflexivity].
  destruct (hitboxOverlapsBody _ _ _ _ _); [|left; reflexivity].
  right. split; [reflexivity|]. exists hb. split; reflexivity.
Qed.

Lemma fold_strike_first enemies : forall player,
  Player.isDead player = false -> Player.isInvincible player = false ->
  fold_left strike enemies player = player \/
  exists enemy hitbox,
    In enemy enemies /\ Enemy.isDead enemy = false /\
    Enemy.getAttackHitbox enemy = Some hitbox /\
    fold_left strike enemies player
    = Player.takeDamage (Enemy.getAttackDamage enemy) (Enemy.x enemy) player.
Proof.
  induction enemies as [|e es IH]; intros player Hd Hi; [left; reflexivity|].
  cbn [fold_left].
  destruct (strike_cases player e) as [H|(He & hb & Hhb & H)]; rewrite H.
  - destruct (IH player Hd Hi) as [G|(enemy & hb & H1 & H2 & H3 & H4)];
      [left; exact G|]. right. exists enemy, hb. repeat split; try assumption.
    right. exact H1.
  - right. exists e, hb. repeat split; try assumption; [left; reflexivity|].
    apply fold_strike_invincible. apply player_isInvincible_takeDamage; assumption.
Qed.

Lemma enemy_damage_range e : 0 <= Enemy.getAttackDamage e <= 20.
Proof. unfold Enemy.getAttackDamage. destruct (Enemy.currentAttackType e) as [[]|]; lra. Qed.

(** *** The warning queries *)

Lemma least_fold now enemies : forall seen acc,
  least now seen acc -> least now (seen ++ enemies) (fold_left (pick now) enemies acc).
Proof.
  induction enemies as [|e es IH]; intros seen acc H.
  - rewrite app_nil_r. exact H.
  - cbn [fold_left]. replace (seen ++ e :: es) with ((seen ++ [e]) ++ es)
      by (rewrite <- app_assoc; reflexivity).
    apply IH. unfold pick. fold (warns e).
    destruct (warns e) eqn:Hw.
    + destruct acc as [m|]; cbn [least] in *.
      * destruct H as [(e0 & I0 & W0 & M0) Hle].
        destruct (ltb_spec (Enemy.getTimeUntilAttack now e) m) as [Hlt|Hge]; split.
        -- exists e. split; [apply in_or_app; right; left; reflexivity|]. auto.
        -- intros e1 I1 W1. apply in_app_or in I1. destruct I1 as [I1|[<-|[]]].
           ++ specialize (Hle e1 I1 W1). lra.
           ++ lra.
        -- exists e0. split; [apply in_or_app; left; exact I0|]. auto.
        -- intros e1 I1 W1. apply in_app_or in I1. destruct I1 as [I1|[<-|[]]].
           ++ apply Hle; assumption.
           ++ lra.
      * split.
        -- exists e. split; [apply in_or_app; right; left; reflexivity|]. auto.
        -- intros e1 I1 W1. apply in_app_or in I1. destruct I1 as [I1|[<-|[]]].
           ++ rewrite (H e1 I1) in W1. discriminate.
           ++ lra.
    + destruct acc as [m|]; cbn [least] in *.
      * destruct H as [(e0 & I0 & W0 & M0) Hle]. split.
        -- exists e0. split; [apply in_or_app; left; exact I0|]. auto.
        -- intros e1 I1 W1. apply in_app_or in I1. destruct I1 as [I1|[<-|[]]].
           ++ apply Hle; assumption.
           ++ rewrite Hw in W1. discriminate.
      * intros e1 I1. apply in_app_or in I1. destruct I1 as [I1|[<-|[]]];
          [apply H; exact I1 | exact Hw].
Qed.

Lemma getTimeUntilEnemyAttack_least now enemies :
  exists m, least now enemies m /\
            getTimeUntilEnemyAttack now enemies = match m with Some m => m | None => 0 end.
Proof.
  exists (fold_left (pick now) enemies None). split; [|reflexivity].
  apply (least_fold now enemies [] None). intros e [].
Qed.

Lemma isAnyEnemyShowingWarning_false enemies :
  isAnyEnemyShowingWarning enemies = false <->
  forall enemy, In enemy enemies -> warns enemy = false.
Proof.
  unfold isAnyEnemyShowingWarning. fold warns. induction enemies as [|e es IH]; cbn [existsb].
  - split; [intros _ e [] | reflexivity].
  - rewrite orb_false_iff, IH. split.
    + intros [H1 H2] e1 [<-|I1]; auto.
    + intros H. split; [apply H; left; reflexivity | intros e1 I1; apply H; right; exact I1].
Qed.

(** *** Where the hitboxes lie *)

(** Write the halves of the goal as products, for [lra]. *)
Ltac halves := unfold Qdiv in *; change (/ 2) with (1 # 2) in *.

Lemma player_hitbox_span p hb :
  Player.getAttackHitbox p = Some hb ->
  if Player.facingRight p
  then Player.x p < rect_x hb /\ rect_x hb + rect_width hb <= Player.x p + 110
  else Player.x p - 110 <= rect_x hb /\ rect_x hb + rect_width hb < Player.x p.
Proof.
  unfold Player.getAttackHitbox. intros H.
  destruct (negb _); [discriminate H|].
  destruct (Player.currentAttackType p) as [[]|]; [| | |discriminate H];
    (destruct (Player.currentFrame p) as [frame|]; [|discriminate H]);
    match type of H with (if ?c then _ else _) = _ => destruct c end;
    try discriminate H; injection H as <-; cbn [rect_x rect_width];
    destruct (Player.facingRight p); cbv beta iota; halves; lra.
Qed.

Lemma enemy_hitbox_span e hb :
  Enemy.getAttackHitbox e = Some hb ->
  if Enemy.facingRight e
  then Enemy.x e < rect_x hb /\ rect_x hb + rect_width hb <= Enemy.x e + 170
  else Enemy.x e - 170 <= rect_x hb /\ rect_x hb + rect_width hb < Enemy.x e.
Proof.
  unfold Enemy.getAttackHitbox. intros H.
  destruct (negb _); [discriminate H|].
  destruct (Enemy.currentAttackType e) as [a|]; [|discriminate H].
  destruct (Enemy.currentFrame e) as [frame|]; [|discriminate H].
  repeat match type of H with (if ?c then _ else _) = _ => destruct c end;
    try discriminate H; injection H as <-; cbn [rect_x rect_width];
    destruct (Enemy.facingRight e); cbv beta iota; halves; lra.
Qed.

Lemma outOfReach_no_overlap attackerX (facingRight : bool) reach hb defenderX defenderY
    width height :
  (if facingRight
   then attackerX < rect_x hb /\ rect_x hb + rect_width hb <= attackerX + reach
   else attackerX - reach <= rect_x hb /\ rect_x hb + rect_width hb < attackerX) ->
  outOfReach attackerX facingRight reach defenderX width ->
  hitboxOverlapsBody hb defenderX defenderY width height = false.
Proof.
  intros Hspan Hout.
  destruct (hitboxOverlapsBody hb defenderX defenderY width height) eqn:E; [|reflexivity].
  apply SceneFacts.overlap_iff in E. destruct E as (E1 & E2 & _).
  unfold outOfReach in Hout. destruct facingRight; destruct Hspan, Hout; lra.
Qed.

(** The hitbox of each enemy attack: how far in front of the enemy it
    starts, and where it lies about the enemy's feet. *)
Lemma enemy_hitbox_shape e hb :
  Enemy.getAttackHitbox e = Some hb ->
  (Enemy.animKey e = "enemy-punch"%string /\
   rect_x hb == Enemy.x e + (if Enemy.facingRight e then 20 else -120) /\
   rect_width hb == 100 /\ rect_y hb == Enemy.y e - 60 /\ rect_height hb == 60) \/
  (Enemy.animKey e <> "enemy-punch"%string /\
   rect_x hb == Enemy.x e + (if Enemy.facingRight e then 30 else -150) /\
   rect_width hb == 120 /\ rect_y hb == Enemy.y e - 80 /\ rect_height hb == 80) \/
  (Enemy.animKey e <> "enemy-punch"%string /\
   rect_x hb == Enemy.x e + (if Enemy.facingRight e then 30 else -170) /\
   rect_width hb == 140 /\ rect_y hb == Enemy.y e - 70 /\ rect_height hb == 100).
Proof.
  unfold Enemy.getAttackHitbox. intros H.
  destruct (negb _); [discriminate H|].
  destruct (Enemy.currentAttackType e) as [a|]; [|discriminate H].
  destruct (Enemy.currentFrame e) as [frame|]; [|discriminate H].
  destruct (String.eqb (Enemy.animKey e) "enemy-punch") eqn:K1.
  - apply String.eqb_eq in K1. rewrite K1 in H.
    cbn [andb String.eqb Ascii.eqb Bool.eqb] in H.
    destruct (String.eqb (frame_name frame) "punch_extend"); [|discriminate H].
    injection H as <-. left. cbn [rect_x rect_y rect_width rect_height].
    split; [exact K1|]. destruct (Enemy.facingRight e); halves; repeat split; lra.
  - apply String.eqb_neq in K1. cbn [andb] in H.
    destruct (_ && _).
    + injection H as <-. right. left. cbn [rect_x rect_y rect_width rect_height].
      split; [exact K1|]. destruct (Enemy.facingRight e); halves; repeat split; lra.
    + destruct (_ && _); [|discriminate H].
      injection H as <-. right. right. cbn [rect_x rect_y rect_width rect_height].
      split; [exact K1|]. destruct (Enemy.facingRight e); halves; repeat split; lra.
Qed.

(** *** The scene's [update()] *)

Lemma checkDeath_fighters s :
  player (checkDeath s) = player s /\ enemies (checkDeath s) = enemies s /\
  enemyAIControllers (checkDeath s) = enemyAIControllers s /\
  updateCounter (checkDeath s) = updateCounter s.
Proof.
  unfold checkDeath. destruct (gameEnded s); [repeat split|].
  destruct (Player.isDead (player s)); [repeat split|].
  cbv zeta. destruct (_ && _); repeat split.
Qed.

Lemma forEachIndexed_length {A : Type} (f : nat -> A -> A) l : forall index,
  List.length (forEachIndexed f index l) = List.length l.
Proof.
  induction l as [|a l IH]; intros index; [reflexivity|].
  cbn [forEachIndexed List.length]. rewrite IH. reflexivity.
Qed.

Lemma updateControllers_some delta now rnd p controllers : forall index enemies,
  (List.length controllers <= List.length enemies)%nat ->
  exists cs es,
    updateControllers delta now rnd p index controllers enemies = Some (cs, es) /\
    List.length cs = List.length controllers /\ List.length es = List.length enemies.
Proof.
  induction controllers as [|c cs IH]; intros index enemies Hl.
  - exists [], enemies. repeat split.
  - destruct enemies as [|e es]; [cbn in Hl; lia|].
    cbn [List.length] in Hl.
    destruct (IH (S index) es) as (cs' & es' & H1 & H2 & H3); [lia|].
    cbn [updateControllers]. rewrite H1. eexists. eexists.
    split; [reflexivity|]. cbn [List.length]. split; congruence.
Qed.

Lemma updateControllers_none delta now rnd p controllers : forall index enemies,
  (List.length enemies < List.length controllers)%nat ->
  updateControllers delta now rnd p index controllers enemies = None.
Proof.
  induction controllers as [|c cs IH]; intros index enemies Hl; [cbn in Hl; lia|].
  destruct enemies as [|e es]; [reflexivity|].
  cbn [List.length] in Hl. cbn [updateControllers].
  rewrite IH by lia. reflexivity.
Qed.

Lemma checkPlayerAttacks_length p es :
  List.length (checkPlayerAttacks p es) = List.length es.
Proof.
  rewrite checkPlayerAttacks_unfold. destruct (Player.getAttackHitbox p); [|reflexivity].
  apply strikeEnemies_length.
Qed.

Ltac fields := cbn [
  player enemies enemyAIControllers gameEnded updateCounter physicsPaused
  gameOverOverlay delta now pauseMenuVisible playerInput playerRandom enemyInput
  aiRandoms set const fst snd];
  cbv beta delta [const].

Lemma counted_fields s :
  player (counted s) = player s /\ enemies (counted s) = enemies s /\
  enemyAIControllers (counted s) = enemyAIControllers s /\
  gameEnded (counted s) = gameEnded s /\
  physicsPaused (counted s) = physicsPaused s /\
  gameOverOverlay (counted s) = gameOverOverlay s.
Proof. unfold counted. destruct (_ <? _)%Z; repeat split. Qed.

Lemma update_stopped f s :
  gameEnded s = true \/ pauseMenuVisible f = true -> update f s = Some (counted s).
Proof.
  intros H. unfold update. fold (counted s). cbv zeta.
  destruct (counted_fields s) as (_ & _ & _ & -> & _).
  destruct (gameEnded s); [reflexivity|].
  destruct H as [H|H]; [discriminate|]. rewrite H. reflexivity.
Qed.

(** [update()] while the game runs: it throws when a controller has no
    enemy or [takeDamage] throws in checkPlayerAttacks, and otherwise ends
    with checkDeath on a scene whose flags are still those of the start. *)
Lemma update_running f s :
  gameEnded s = false -> pauseMenuVisible f = false ->
  let player' :=
    Player.update (delta f) (playerInput f)
      (playerEnv (now f) (playerRandom f) (enemies s)) (player s) in
  let enemies' :=
    forEachIndexed
      (fun index enemy => Enemy.update (delta f) (now f) (enemyInput f index) enemy)
      0%nat (enemies s) in
  match updateControllers (delta f) (now f) (aiRandoms f) player' 0%nat
          (enemyAIControllers s) enemies' with
  | None =>
      (List.length (enemies s) < List.length (enemyAIControllers s))%nat /\
      update f s = None
  | Some (controllers2, enemies2) =>
      (List.length (enemyAIControllers s) <= List.length (enemies s))%nat /\
      List.length controllers2 = List.length (enemyAIControllers s) /\
      List.length enemies2 = List.length (enemies s) /\
      if checkPlayerAttacksThrows player' enemies2 then update f s = None
      else
        exists s1,
          update f s = Some (checkDeath s1) /\ gameEnded s1 = false /\
          physicsPaused s1 = physicsPaused s /\ gameOverOverlay s1 = gameOverOverlay s /\
          List.length (enemies s1) = List.length (enemies s) /\
          enemyAIControllers s1 = controllers2
  end.
Proof.
  intros He Hp player' enemies'. unfold update. fold (counted s). cbv zeta.
  destruct (counted_fields s) as (Cpl & Ce & Cc & Cg & Cp & Co).
  rewrite Cg, He, Hp. fields. rewrite Cpl, Ce, Cc. fold player' enemies'.
  pose proof (updateControllers_some (delta f) (now f) (aiRandoms f) player'
                (enemyAIControllers s) 0%nat enemies') as Hsome.
  pose proof (updateControllers_none (delta f) (now f) (aiRandoms f) player'
                (enemyAIControllers s) 0%nat enemies') as Hnone.
  assert (Hlen : List.length enemies' = List.length (enemies s))
    by apply forEachIndexed_length.
  rewrite Hlen in Hsome, Hnone.
  destruct (updateControllers (delta f) (now f) (aiRandoms f) player' 0%nat
              (enemyAIControllers s) enemies') as [[cs' es']|] eqn:E.
  - assert (Hl : (List.length (enemyAIControllers s) <= List.length (enemies s))%nat).
    { destruct (Nat.le_gt_cases (List.length (enemyAIControllers s))
                  (List.length (enemies s))) as [L|L]; [exact L|].
      specialize (Hnone L). discriminate. }
    split; [exact Hl|].
    destruct (Hsome Hl) as (cs2 & es2 & H1 & H2 & H3). injection H1 as <- <-.
    split; [exact H2|]. split; [exact H3|].
    destruct (checkPlayerAttacksThrows player' es'); [reflexivity|].
    eexists. split; [reflexivity|]. fields.
    rewrite checkPlayerAttacks_length. repeat split; congruence.
  - split; [|reflexivity].
    destruct (Nat.le_gt_cases (List.length (enemyAIControllers s))
                (List.length (enemies s))) as [L|L]; [|exact L].
    destruct (Hsome L) as (cs2 & es2 & H1 & _). discriminate.
Qed.

(** An enemy with its warning indicator starts no attack inside
    [update()]: a key press only starts the warning. *)
Lemma enemy_update_returns delta inp e :
  Enemy.warningContainer e = true -> Enemy.warningGraphics e = true ->
  Enemy.updateThrows delta inp e = false.
Proof.
  intros Hc Hg. unfold Enemy.updateThrows. cbv zeta.
  match goal with
  | |- (if Enemy.currentHealth ?q <=? 0 then _ else _) = _ =>
      assert (Hq : Enemy.warningContainer q = true /\ Enemy.warningGraphics q = true)
        by (EnemyFacts.cases; split; assumption);
      destruct (Enemy.currentHealth q <=? 0); [reflexivity|]; generalize dependent q
  end.
  intros q [Qc Qg]. unfold Enemy.handleAttackThrows, Enemy.punchThrows,
    Enemy.sidekickThrows, Enemy.showAttackWarningThrows.
  rewrite Qc, Qg. cbn [negb orb].
  repeat match goal with |- context [if ?c then _ else _] => destruct c end; reflexivity.
Qed.

Lemma checkDeath_verdict s :
  gameEnded s = false ->
  let playerDead := Player.isDead (player s) in
  let enemiesDead :=
    forallb Enemy.isDead (enemies s) && (0 <? List.length (enemies s))%nat in
  gameEnded (checkDeath s) = playerDead || enemiesDead /\
  physicsPaused (checkDeath s) = playerDead || enemiesDead || physicsPaused s /\
  gameOverOverlay (checkDeath s)
  = if playerDead then Some EnemyWins
    else if enemiesDead then Some PlayerWins
    else gameOverOverlay s.
Proof.
  intros He. unfold checkDeath. rewrite He. cbv zeta.
  destruct (Player.isDead (player s)); [repeat split|].
  destruct (_ && _); repeat split; try assumption.
Qed.

End SceneMore.

(** X11: one swing of the player hits each enemy at most once.  The check
    of the player's attack leaves every enemy as it was (dead, invincible,
    not overlapped, or not looked at) or has called [takeDamage] on it with
    the damage of the player's attack, after which it is invincible; the
    list keeps its length and order.  When the check returns, running it a
    second time in the same tick changes nothing and returns too.  When
    [takeDamage] throws, the check ends there: the enemies before that one
    have been checked and the enemies after it are as they were. *)
Theorem X11_player_swing_hits_once :
  forall (player : Player.t) (enemies : list Enemy.t),
    let after := GameScene.checkPlayerAttacks player enemies in
    let damaged := fun enemy =>
      Enemy.takeDamage (Player.getAttackDamage player) (Player.x player)
        (Player.getAttackType player) enemy in
    Forall2
      (fun enemy enemy' =>
         enemy' = enemy \/
         (Enemy.isDead enemy = false /\ Enemy.isInvincible enemy = false /\
          enemy' = damaged enemy /\ Enemy.isInvincible enemy' = true))
      enemies after /\
    (GameScene.checkPlayerAttacksThrows player enemies = false ->
       GameScene.checkPlayerAttacks player after = after /\
       GameScene.checkPlayerAttacksThrows player after = false) /\
    (GameScene.checkPlayerAttacksThrows player enemies = true ->
       exists before enemy rest,
         enemies = before ++ enemy :: rest /\
         GameScene.checkPlayerAttacksThrows player before = false /\
         Enemy.takeDamageThrows (Player.getAttackType player) enemy = true /\
         after = GameScene.checkPlayerAttacks player before ++ damaged enemy :: rest).
Proof.
  intros player enemies after damaged. unfold after, damaged.
  unfold GameScene.checkPlayerAttacksThrows. rewrite !SceneMore.checkPlayerAttacks_unfold.
  destruct (Player.getAttackHitbox player) as [hb|] eqn:Hhb.
  - split; [|split].
    + pose proof (SceneMore.strikeEnemies_each player hb enemies) as H.
      induction H as [|e e' es es' H _ IH]; constructor; [|exact IH].
      destruct H as [H|H]; [left; exact H|]. rewrite H.
      destruct (SceneMore.struck_cases player hb e) as [G|(G1 & G2 & G3 & G4)];
        [left; exact G | right; auto].
    + intros Hr. rewrite (SceneMore.strikeEnemies_returns player hb enemies Hr).
      pose proof (SceneMore.strikeEnemies_again player hb enemies) as Hm.
      split; [apply SceneMore.strikeEnemies_miss | apply SceneMore.strikeEnemiesThrows_miss];
        exact Hm.
    + intros Ht.
      destruct (SceneMore.strikeEnemies_throws player hb enemies Ht)
        as (before & enemy & rest & E & B & _ & T & S).
      exists before, enemy, rest. rewrite SceneMore.checkPlayerAttacks_unfold, Hhb.
      repeat split; assumption.
  - split; [|split].
    + induction enemies; constructor; auto.
    + intros _. split; reflexivity.
    + intros H. discriminate H.
Qed.

(** X12: however many enemies attack in the same tick, the player takes
    one hit at most.  The check of the enemies' attacks leaves the player as
    it was, or deals the damage of exactly one live enemy that shows a
    hitbox, after which the player is invincible; the player loses at most
    20 health and never gains any. *)
Theorem X12_one_hit_per_tick :
  forall (player : Player.t) (enemies : list Enemy.t),
    let after := GameScene.checkEnemyAttacks player enemies in
    (after = player \/
     exists enemy hitbox,
       In enemy enemies /\ Enemy.isDead enemy = false /\
       Enemy.getAttackHitbox enemy = Some hitbox /\
       after = Player.takeDamage (Enemy.getAttackDamage enemy) (Enemy.x enemy) player /\
       Player.isInvincible after = true) /\
    Player.currentHealth player - 20 <= Player.currentHealth after /\
    Player.currentHealth after <= Player.currentHealth player.
Proof.
  intros player enemies after. unfold after.
  rewrite SceneMore.checkEnemyAttacks_fold. unfold Player.getIsInvincible.
  destruct (Player.isDead player) eqn:Hd; cbn [orb];
    [split; [left; reflexivity | lra]|].
  destruct (Player.isInvincible player) eqn:Hi; [split; [left; reflexivity | lra]|].
  destruct (SceneMore.fold_strike_first enemies player Hd Hi)
    as [H|(enemy & hb & H1 & H2 & H3 & H4)]; rewrite H || rewrite H4.
  - split; [left; reflexivity | lra].
  - split.
    + right. exists enemy, hb. repeat split; try assumption.
      apply SceneMore.player_isInvincible_takeDamage; assumption.
    + pose proof (PlayerFacts.vitals_takeDamage (Enemy.getAttackDamage enemy)
                    (Enemy.x enemy) player) as V.
      rewrite Hi in V. unfold Player.isDead in Hd. rewrite Hd in V. cbn [orb] in V.
      unfold PlayerViews.vitals in V. injection V as V _. rewrite V.
      destruct (leb_spec (Player.currentHealth player) 0); [discriminate|].
      pose proof (SceneMore.enemy_damage_range enemy).
      unfold Num.Math_max.
      destruct (ltb_spec 0 (Player.currentHealth player - Enemy.getAttackDamage enemy)); lra.
Qed.

(** X13: the time GameScene reports to the player is the least time until
    attack among the live enemies that show a warning, and 0 when there is
    none: when [isAnyEnemyShowingWarning()] is false it is 0, and when it
    is true it is the time of one such enemy and at most the time of each
    of them. *)
Theorem X13_time_until_enemy_attack_is_least :
  forall (now : Q) (enemies : list Enemy.t),
    let counts := fun enemy =>
      Enemy.isDead enemy = false /\ Enemy.isShowingWarning enemy = true in
    let time := GameScene.getTimeUntilEnemyAttack now enemies in
    (GameScene.isAnyEnemyShowingWarning enemies = false -> time = 0) /\
    (GameScene.isAnyEnemyShowingWarning enemies = true ->
       (exists enemy, In enemy enemies /\ counts enemy /\
                      time = Enemy.getTimeUntilAttack now enemy) /\
       (forall enemy, In enemy enemies -> counts enemy ->
                      time <= Enemy.getTimeUntilAttack now enemy)).
Proof.
  intros now enemies counts time.
  assert (Hc : forall enemy, SceneViews.warns enemy = true <-> counts enemy).
  { intros enemy. unfold SceneViews.warns, counts.
    rewrite andb_true_iff, negb_true_iff. reflexivity. }
  destruct (SceneMore.getTimeUntilEnemyAttack_least now enemies) as (m & Hm & Ht).
  fold time in Ht. split; intros Hany.
  - destruct m as [m|]; [|exact Ht]. cbn [SceneViews.least] in Hm.
    destruct Hm as [(e & I0 & W0 & _) _].
    rewrite (proj1 (SceneMore.isAnyEnemyShowingWarning_false enemies) Hany e I0) in W0.
    discriminate.
  - destruct m as [m|]; cbn [SceneViews.least] in Hm.
    + destruct Hm as [(e & I0 & W0 & M0) Hle]. rewrite Ht. split.
      * exists e. split; [exact I0|]. split; [apply Hc; exact W0 | exact M0].
      * intros e1 I1 C1. apply Hle; [exact I1 | apply Hc; exact C1].
    + apply SceneMore.isAnyEnemyShowingWarning_false in Hm. congruence.
Qed.

(** X14: the game ends in the very tick in which a fighter dies, and
    nothing moves afterwards.  A call of [update()] on a scene whose game
    has ended, or while the pause menu shows, leaves player, enemies,
    controllers and the end-of-game state as they are.  Otherwise, after
    the call the game has ended exactly when the player is dead or there
    are enemies and all of them are dead; a dead player makes the enemy
    the winner even when every enemy is dead too, and the player wins only
    with at least one enemy, all dead.  So a scene in which a dead player
    means an ended game stays such a scene. *)
Theorem X14_game_over_verdict :
  forall (f : GameScene.Tick) (s s' : GameScene.t),
    GameScene.update f s = Some s' ->
    let playerDead := Player.isDead (GameScene.player s') in
    let enemiesDead :=
      forallb Enemy.isDead (GameScene.enemies s')
      && (0 <? List.length (GameScene.enemies s'))%nat in
    (GameScene.gameEnded s = true \/ GameScene.pauseMenuVisible f = true ->
       GameScene.player s' = GameScene.player s /\
       GameScene.enemies s' = GameScene.enemies s /\
       GameScene.enemyAIControllers s' = GameScene.enemyAIControllers s /\
       GameScene.gameEnded s' = GameScene.gameEnded s /\
       GameScene.physicsPaused s' = GameScene.physicsPaused s /\
       GameScene.gameOverOverlay s' = GameScene.gameOverOverlay s) /\
    (GameScene.gameEnded s = false -> GameScene.pauseMenuVisible f = false ->
       GameScene.gameEnded s' = playerDead || enemiesDead /\
       GameScene.gameOverOverlay s'
       = if playerDead then Some GameScene.EnemyWins
         else if enemiesDead then Some GameScene.PlayerWins
         else GameScene.gameOverOverlay s) /\
    ((Player.isDead (GameScene.player s) = true -> GameScene.gameEnded s = true) ->
     playerDead = true -> GameScene.gameEnded s' = true).
Proof.
  intros f s s' Hu playerDead enemiesDead.
  assert (Hstop : GameScene.gameEnded s = true \/ GameScene.pauseMenuVisible f = true ->
                  s' = SceneViews.counted s).
  { intros H. rewrite (SceneMore.update_stopped f s H) in Hu. injection Hu as <-.
    reflexivity. }
  assert (Hrun : GameScene.gameEnded s = false -> GameScene.pauseMenuVisible f = false ->
                 GameScene.gameEnded s' = playerDead || enemiesDead /\
                 GameScene.gameOverOverlay s'
                 = if playerDead then Some GameScene.EnemyWins
                   else if enemiesDead then Some GameScene.PlayerWins
                   else GameScene.gameOverOverlay s).
  { intros He Hp. pose proof (SceneMore.update_running f s He Hp) as R.
    cbv zeta in R.
    match type of R with
    | match ?u with _ => _ end => destruct u as [[cs2 es2]|]
    end; [|destruct R as [_ R]; congruence].
    destruct R as (_ & _ & _ & R).
    match type of R with
    | if ?b then _ else _ => destruct b
    end; [congruence|].
    destruct R as (s1 & R & G1 & _ & G3 & _). rewrite Hu in R. injection R as ->.
    unfold playerDead, enemiesDead.
    destruct (SceneMore.checkDeath_fighters s1) as (-> & -> & _).
    destruct (SceneMore.checkDeath_verdict s1 G1) as (V1 & _ & V3).
    rewrite V1, V3, G3. split; reflexivity. }
  split; [|split].
  - intros H. rewrite (Hstop H).
    destruct (SceneMore.counted_fields s) as (C1 & C2 & C3 & C4 & C5 & C6).
    repeat split; assumption.
  - exact Hrun.
  - intros Hset Hd.
    destruct (GameScene.gameEnded s) eqn:He.
    + rewrite (Hstop (or_introl eq_refl)).
      destruct (SceneMore.counted_fields s) as (_ & _ & _ & C4 & _). congruence.
    + destruct (GameScene.pauseMenuVisible f) eqn:Hp.
      * exfalso. unfold playerDead in Hd. rewrite (Hstop (or_intror eq_refl)) in Hd.
        destruct (SceneMore.counted_fields s) as (C1 & _). rewrite C1 in Hd.
        specialize (Hset Hd). discriminate.
      * destruct (Hrun eq_refl eq_refl) as [-> _]. rewrite Hd. reflexivity.
Qed.

(** X15: when [update()] completes.  The enemies have their warning
    indicator, as the constructor leaves them, so that no [update()] of an
    enemy throws.  On a scene whose game has ended, or while the pause menu
    shows, [update()] completes.  While the game runs it throws when a
    controller has no enemy at its index; when each controller has one, as
    in the scene [create()] builds, the loop over the controllers completes
    and keeps the number of enemies and of controllers, and [update()] then
    throws exactly when [takeDamage] throws in the check of the player's
    attack, that is when the attack lands on an enemy whose hurt animation
    is not loaded.  So it completes whenever the player shows no hitbox
    after its own update.  A call that completes keeps the number of
    enemies and of controllers. *)
Theorem X15_update_completes :
  forall (f : GameScene.Tick) (s : GameScene.t),
    Forall (fun enemy => Enemy.warningContainer enemy = true /\
                         Enemy.warningGraphics enemy = true)
           (GameScene.enemies s) ->
    let player' :=
      Player.update (GameScene.delta f) (GameScene.playerInput f)
        (GameScene.playerEnv (GameScene.now f) (GameScene.playerRandom f)
           (GameScene.enemies s))
        (GameScene.player s) in
    let enemies' :=
      GameScene.forEachIndexed
        (fun index enemy =>
           Enemy.update (GameScene.delta f) (GameScene.now f)
             (GameScene.enemyInput f index) enemy)
        0%nat (GameScene.enemies s) in
    let controlled :=
      GameScene.updateControllers (GameScene.delta f) (GameScene.now f)
        (GameScene.aiRandoms f) player' 0%nat (GameScene.enemyAIControllers s) enemies' in
    (forall index enemy, In enemy (GameScene.enemies s) ->
       Enemy.updateThrows (GameScene.delta f) (GameScene.enemyInput f index) enemy
       = false) /\
    (GameScene.gameEnded s = true \/ GameScene.pauseMenuVisible f = true ->
       GameScene.update f s <> None) /\
    (GameScene.gameEnded s = false -> GameScene.pauseMenuVisible f = false ->
       ((List.length (GameScene.enemies s)
         < List.length (GameScene.enemyAIControllers s))%nat ->
        GameScene.update f s = None) /\
       ((List.length (GameScene.enemyAIControllers s)
         <= List.length (GameScene.enemies s))%nat ->
        exists controllers2 enemies2,
          controlled = Some (controllers2, enemies2) /\
          List.length controllers2 = List.length (GameScene.enemyAIControllers s) /\
          List.length enemies2 = List.length (GameScene.enemies s) /\
          (GameScene.update f s = None <->
           GameScene.checkPlayerAttacksThrows player' enemies2 = true) /\
          (Player.getAttackHitbox player' = None -> GameScene.update f s <> None))) /\
    (forall s', GameScene.update f s = Some s' ->
       List.length (GameScene.enemies s') = List.length (GameScene.enemies s) /\
       List.length (GameScene.enemyAIControllers s')
       = List.length (GameScene.enemyAIControllers s)).
Proof.
  intros f s Hind player' enemies' controlled.
  assert (Hstop : GameScene.gameEnded s = true \/ GameScene.pauseMenuVisible f = true ->
                  GameScene.update f s = Some (SceneViews.counted s)).
  { intros H. apply SceneMore.update_stopped, H. }
  split; [|split; [|split]].
  - intros index enemy Hin. rewrite Forall_forall in Hind.
    destruct (Hind enemy Hin) as [Hc Hg]. apply SceneMore.enemy_update_returns; assumption.
  - intros H. rewrite (Hstop H). discriminate.
  - intros He Hp. pose proof (SceneMore.update_running f s He Hp) as R.
    cbv zeta in R. fold player' enemies' in R. fold controlled in R.
    split.
    + intros Hl. destruct controlled as [[cs2 es2]|]; [|apply R].
      destruct R as [R _]. lia.
    + intros Hl. destruct controlled as [[cs2 es2]|]; [|destruct R as [R _]; lia].
      destruct R as (_ & L1 & L2 & R). exists cs2, es2.
      split; [reflexivity|]. split; [exact L1|]. split; [exact L2|].
      unfold GameScene.checkPlayerAttacksThrows in *.
      destruct (Player.getAttackHitbox player') as [hb|].
      * destruct (GameScene.strikeEnemiesThrows player' hb es2).
        -- split; [split; [reflexivity | intros _; exact R] | discriminate].
        -- destruct R as (s1 & R & _). rewrite R.
           split; [split; discriminate | discriminate].
      * destruct R as (s1 & R & _). rewrite R.
        split; [split; discriminate | discriminate].
  - intros s' Hu.
    destruct (GameScene.gameEnded s) eqn:He.
    { rewrite (Hstop (or_introl eq_refl)) in Hu. injection Hu as <-.
      destruct (SceneMore.counted_fields s) as (_ & -> & -> & _). split; reflexivity. }
    destruct (GameScene.pauseMenuVisible f) eqn:Hp.
    { rewrite (Hstop (or_intror eq_refl)) in Hu. injection Hu as <-.
      destruct (SceneMore.counted_fields s) as (_ & -> & -> & _). split; reflexivity. }
    pose proof (SceneMore.update_running f s He Hp) as R.
    cbv zeta in R. fold player' enemies' in R. fold controlled in R.
    destruct controlled as [[cs2 es2]|]; [|destruct R as [_ R]; congruence].
    destruct R as (_ & L1 & _ & R).
    destruct (GameScene.checkPlayerAttacksThrows player' es2); [congruence|].
    destruct R as (s1 & R & _ & _ & _ & L3 & L4). rewrite Hu in R. injection R as ->.
    destruct (SceneMore.checkDeath_fighters s1) as (_ & -> & -> & _).
    split; congruence.
Qed.

Lemma X14_game_over_verdict_witness :
  let idle := {| Enemy.isEnemyMovingLeft := false; Enemy.isEnemyMovingRight := false;
                 Enemy.isEnemyJumpPressed := false; Enemy.isEnemyPunchPressed := false;
                 Enemy.isEnemySidekickPressed := false |} in
  let rnd := {| EnemyAIController.varianceRandom := 1 # 2;
                EnemyAIController.jumpRandom := 1 # 2;
                EnemyAIController.pauseRandom := 1 # 2;
                EnemyAIController.pauseDurationRandom := 1 # 2;
                EnemyAIController.attackChoiceRandom := 1 # 2;
                EnemyAIController.retreatRandom := 1 # 2 |} in
  let tick := {| GameScene.delta := 16; GameScene.now := 1000;
                 GameScene.pauseMenuVisible := false;
                 GameScene.playerInput := Player.noInput; GameScene.playerRandom := 0;
                 GameScene.enemyInput := fun _ => idle;
                 GameScene.aiRandoms := fun _ => rnd |} in
  let attacker :=
    Enemy.run [Enemy.Physics {| Enemy.new_x := 200; Enemy.new_y := 590;
                                Enemy.new_velocityX := 0; Enemy.new_velocityY := 0;
                                Enemy.new_blockedDown := true |};
               Enemy.CallPunch 0; Enemy.TweenComplete;
               Enemy.AnimationFrameChange {| index := 3; frame_name := "punch_extend" |}]
              (Enemy.new 200 590) in
  let s := GameScene.create
             <| GameScene.player := (Player.new 100 590) <| Player.currentHealth := 5 |> |>
             <| GameScene.enemies := [attacker] |> in
  let s' := match GameScene.update tick s with Some s' => s' | None => s end in
  GameScene.update tick s = Some s' /\
  GameScene.gameEnded s' = true /\
  GameScene.gameOverOverlay s' = Some GameScene.EnemyWins.
Proof.
  intros idle rnd tick attacker s s'.
  assert (Hu : GameScene.update tick s = Some s') by (vm_compute; reflexivity).
  split; [exact Hu|].
  destruct (X14_game_over_verdict tick s s' Hu) as (_ & H & _).
  destruct H as [H1 H2]; [reflexivity | reflexivity |].
  rewrite H1, H2. split; vm_compute; reflexivity.
Defined.

Lemma X15_update_completes_witness :
  let idle := {| Enemy.isEnemyMovingLeft := false; Enemy.isEnemyMovingRight := false;
                 Enemy.isEnemyJumpPressed := false; Enemy.isEnemyPunchPressed := false;
                 Enemy.isEnemySidekickPressed := false |} in
  let rnd := {| EnemyAIController.varianceRandom := 1 # 2;
                EnemyAIController.jumpRandom := 1 # 2;
                EnemyAIController.pauseRandom := 1 # 2;
                EnemyAIController.pauseDurationRandom := 1 # 2;
                EnemyAIController.attackChoiceRandom := 1 # 2;
                EnemyAIController.retreatRandom := 1 # 2 |} in
  let tick := {| GameScene.delta := 16; GameScene.now := 1000;
                 GameScene.pauseMenuVisible := false;
                 GameScene.playerInput := Player.noInput; GameScene.playerRandom := 0;
                 GameScene.enemyInput := fun _ => idle;
                 GameScene.aiRandoms := fun _ => rnd |} in
  let punching :=
    Player.run [Player.Physics (Player.standing 100 590);
                Player.Frame 16 Player.punchKey Player.calm 0;
                Player.AnimationFrameChange {| index := 3; frame_name := "2" |}]
               (Player.new 100 590) in
  let close := GameScene.create
                 <| GameScene.player := punching |>
                 <| GameScene.enemies := [Enemy.new 200 590] |> in
  GameScene.update tick GameScene.create <> None /\
  GameScene.update tick close = None.
Proof.
  intros idle rnd tick punching close.
  assert (Hind : Forall (fun enemy => Enemy.warningContainer enemy = true /\
                                      Enemy.warningGraphics enemy = true)
                        (GameScene.enemies GameScene.create))
    by (repeat constructor).
  destruct (X15_update_completes tick GameScene.create Hind) as (_ & _ & H & _).
  destruct (H eq_refl eq_refl) as [_ H1].
  destruct H1 as (cs2 & es2 & _ & _ & _ & _ & H1); [cbn; lia|].
  split; [apply H1; reflexivity|].
  assert (Hind' : Forall (fun enemy => Enemy.warningContainer enemy = true /\
                                       Enemy.warningGraphics enemy = true)
                         (GameScene.enemies close))
    by (repeat constructor).
  destruct (X15_update_completes tick close Hind') as (_ & _ & G & _).
  destruct (G eq_refl eq_refl) as [_ G1].
  destruct G1 as (cs2' & es2' & E & _ & _ & G1 & _); [cbn; lia|].
  apply G1. vm_compute in E. injection E as <- <-. vm_compute. reflexivity.
Defined.

(** X16: an attack launched from the AI's attack range connects.  Let a
    live enemy show a hitbox while it faces the player as facePlayer leaves
    it, on the level of the player, at a distance of at most
    ATTACK_DISTANCE + 20 = 140, the largest at which the controller stays
    in ATTACK.  Then a player of the size the constructor gives, alive and
    not invincible, is hit by a punch at every such distance and by a
    sidekick or jump sidekick at every such distance above 4: the check of
    the enemies' attacks calls [takeDamage] with the damage of the attack.
    (The kicks' hitboxes start 30 ahead of the enemy and the player's body
    is 26 to each side.) *)
Theorem X16_attack_from_range_connects :
  forall (player : Player.t) (enemy : Enemy.t) (hitbox : Rectangle),
    Player.isDead player = false ->
    Player.isInvincible player = false ->
    Player.bodyWidth player == Player.CONFIG.BODY_WIDTH * Player.CONFIG.SCALE ->
    Player.bodyHeight player == Player.CONFIG.BODY_HEIGHT * Player.CONFIG.SCALE ->
    Enemy.isDead enemy = false ->
    Enemy.getAttackHitbox enemy = Some hitbox ->
    Enemy.facingRight enemy = (Player.x player >? Enemy.x enemy) ->
    Player.y player == Enemy.y enemy ->
    Num.Math_abs (Player.x player - Enemy.x enemy)
    <= EnemyAIController.AI_CONFIG.ATTACK_DISTANCE + 20 ->
    Enemy.animKey enemy = "enemy-punch"%string \/
    4 < Num.Math_abs (Player.x player - Enemy.x enemy) ->
    GameScene.checkEnemyAttacks player [enemy]
    = Player.takeDamage (Enemy.getAttackDamage enemy) (Enemy.x enemy) player.
Proof.
  intros player enemy hitbox Hd Hi Hw Hh He Hhb Hf Hy Hdist Hnear.
  rewrite SceneMore.checkEnemyAttacks_fold. unfold Player.getIsInvincible.
  rewrite Hd, Hi. cbn [orb fold_left]. unfold SceneViews.strike. rewrite He, Hhb.
  assert (Ho : GameScene.hitboxOverlapsBody hitbox (Player.x player) (Player.y player)
                 (Player.bodyWidth player) (Player.bodyHeight player) = true);
    [|rewrite Ho; reflexivity].
  apply SceneFacts.overlap_iff.
  unfold Player.CONFIG.BODY_WIDTH, Player.CONFIG.BODY_HEIGHT, Player.CONFIG.SCALE,
    EnemyAIController.AI_CONFIG.ATTACK_DISTANCE, Num.Math_abs in *.
  apply Qabs_Qle_condition in Hdist.
  assert (Hn : Enemy.animKey enemy = "enemy-punch"%string \/
               4 < Player.x player - Enemy.x enemy \/
               4 < Enemy.x enemy - Player.x player).
  { destruct Hnear as [H|H]; [left; exact H|]. right.
    destruct (Qlt_le_dec (Player.x player - Enemy.x enemy) 0) as [L|L].
    - rewrite Qabs_neg in H by lra. right. lra.
    - rewrite Qabs_pos in H by lra. left. exact H. }
  clear Hnear.
  SceneMore.halves.
  destruct (SceneMore.enemy_hitbox_shape enemy hitbox Hhb)
    as [(K & X & W & Y & H) | [(K & X & W & Y & H) | (K & X & W & Y & H)]];
    rewrite Hf in X;
    destruct (gtb_spec (Player.x player) (Enemy.x enemy));
    destruct Hn as [Hn | [Hn | Hn]]; try contradiction;
    repeat split; lra.
Qed.

Lemma X16_attack_from_range_connects_witness :
  let attacker :=
    Enemy.run [Enemy.Physics {| Enemy.new_x := 200; Enemy.new_y := 590;
                                Enemy.new_velocityX := 0; Enemy.new_velocityY := 0;
                                Enemy.new_blockedDown := true |};
               Enemy.CallPunch 0; Enemy.TweenComplete;
               Enemy.AnimationFrameChange {| index := 3; frame_name := "punch_extend" |}]
              (Enemy.new 200 590) in
  GameScene.checkEnemyAttacks (Player.new 100 590) [attacker]
  = Player.takeDamage 10 200 (Player.new 100 590).
Proof.
  intros attacker.
  apply (X16_attack_from_range_connects (Player.new 100 590) attacker
           {| rect_x := 200 + -70 - 100 / 2; rect_y := 590 + -30 - 60 / 2;
              rect_width := 100; rect_height := 60 |}).
  - reflexivity.
  - reflexivity.
  - reflexivity.
  - reflexivity.
  - reflexivity.
  - reflexivity.
  - reflexivity.
  - reflexivity.
  - vm_compute. discriminate.
  - left. reflexivity.
Defined.

(** X17: no attack reaches behind the attacker or beyond its reach.  The
    hitboxes of the player lie in front of the player's centre and end at
    most 110 from it, those of the enemy end at most 170 from the enemy's
    centre.  So the check of the player's attack leaves every enemy alone
    whose body is behind the player's centre or starts 110 or more in front
    of it, and the check of the enemies' attacks leaves the player alone
    when, for every enemy, the player's body is behind that enemy's centre
    or starts 170 or more in front of it. *)
Theorem X17_no_hit_out_of_reach :
  forall (player : Player.t) (enemies : list Enemy.t),
    (Forall (fun enemy =>
               SceneViews.outOfReach (Player.x player) (Player.facingRight player) 110
                 (Enemy.x enemy) (Enemy.bodyWidth enemy)) enemies ->
     GameScene.checkPlayerAttacks player enemies = enemies) /\
    (Forall (fun enemy =>
               SceneViews.outOfReach (Enemy.x enemy) (Enemy.facingRight enemy) 170
                 (Player.x player) (Player.bodyWidth player)) enemies ->
     GameScene.checkEnemyAttacks player enemies = player).
Proof.
  intros player enemies. split; intros Hall.
  - rewrite SceneMore.checkPlayerAttacks_unfold.
    destruct (Player.getAttackHitbox player) as [hb|] eqn:Hhb; [|reflexivity].
    pose proof (SceneMore.player_hitbox_span player hb Hhb) as Hspan.
    apply SceneMore.strikeEnemies_miss.
    induction Hall as [|e es He _ IH]; constructor; [|exact IH].
    unfold GameScene.playerHits.
    rewrite (SceneMore.outOfReach_no_overlap _ _ _ _ _ _ _ _ Hspan He).
    destruct (_ || _); reflexivity.
  - rewrite SceneMore.checkEnemyAttacks_fold.
    destruct (_ || _); [reflexivity|].
    induction Hall as [|e es He _ IH]; [reflexivity|].
    cbn [fold_left].
    assert (Hs : SceneViews.strike player e = player); [|rewrite Hs; exact IH].
    unfold SceneViews.strike. destruct (Enemy.isDead e); [reflexivity|].
    destruct (Enemy.getAttackHitbox e) as [hb|] eqn:Hhb; [|reflexivity].
    pose proof (SceneMore.enemy_hitbox_span e hb Hhb) as Hspan.
    rewrite (SceneMore.outOfReach_no_overlap _ _ _ _ _ _ _ _ Hspan He). reflexivity.
Qed.

Lemma X17_no_hit_out_of_reach_witness :
  let swinging :=
    Player.run [Player.Physics (Player.standing 100 590);
                Player.Frame 16 Player.punchKey Player.calm 0;
                Player.AnimationFrameChange {| index := 2; frame_name := "1" |}]
               (Player.new 100 590) in
  let behind := Enemy.new 20 590 in
  let far := Enemy.new 250 590 in
  Player.getAttackHitbox swinging <> None /\
  GameScene.checkPlayerAttacks swinging [behind; far] = [behind; far].
Proof.
  intros swinging behind far. split; [vm_compute; discriminate|].
  apply (proj1 (X17_no_hit_out_of_reach swinging [behind; far])).
  apply Forall_cons; [|apply Forall_cons; [|apply Forall_nil]].
  - vm_compute. left. discriminate.
  - vm_compute. right. discriminate.
Defined.

Module AIMore.
Import EnemyAIController AIViews AIFacts.

Ltac enemy_view :=
  intros; EnemyFacts.open_handlers; EnemyFacts.cases; reflexivity.

Lemma steer_request a now e : steer (snd (Enemy.request a now e)) = steer e.
Proof. unfold steer. destruct a; cbn [Enemy.request]; enemy_view. Qed.

Lemma steer_jump e : steer (snd (Enemy.jump e)) = steer e.
Proof. unfold steer. enemy_view. Qed.

Lemma attackView_stopMoving e : attackView (Enemy.stopMoving e) = attackView e.
Proof. reflexivity. Qed.

Lemma attackView_facePlayer player e : attackView (facePlayer player e) = attackView e.
Proof. reflexivity. Qed.

Lemma attackView_jump e : attackView (snd (Enemy.jump e)) = attackView e.
Proof. unfold attackView. enemy_view. Qed.

Lemma performAttack_enemy now rnd ai e :
  exists a, snd (performAttack now rnd (ai, e)) = snd (Enemy.request a now e).
Proof.
  unfold performAttack.
  destruct (attackChoiceRandom rnd <? 1 # 2).
  - exists Enemy.PendingPunch. cbn [Enemy.request].
    destruct (Enemy.punch now e) as [[] e']; cbn [snd]; [|reflexivity].
    destruct (retreatRandom rnd <? _); reflexivity.
  - exists Enemy.PendingSidekick. cbn [Enemy.request].
    destruct (Enemy.sidekick now e) as [[] e']; cbn [snd]; [|reflexivity].
    destruct (retreatRandom rnd <? _); reflexivity.
Qed.

(** performAttack either leaves the pair alone or restarts the cooldown
    clock; it never leaves the controller waiting. *)
Lemma performAttack_clock now rnd ai e :
  isWaitingToAttack ai = false ->
  let w' := performAttack now rnd (ai, e) in
  isWaitingToAttack (fst w') = false /\
  attackCooldown (fst w') = attackCooldown ai /\
  (w' = (ai, e) \/ lastAttackTime (fst w') = 0).
Proof.
  intros Hw. unfold performAttack.
  destruct (attackChoiceRandom rnd <? 1 # 2).
  - pose proof (EnemyFacts.request_rejected Enemy.PendingPunch now e) as Hr.
    cbn [Enemy.request] in Hr. unfold Enemy.punch in *.
    destruct (negb (Enemy.canAttack e) || Enemy.isShowingWarning e) eqn:G; cbv zeta.
    + repeat split; auto.
    + destruct (retreatRandom rnd <? _); cbn [fst]; repeat split; auto.
  - pose proof (EnemyFacts.request_rejected Enemy.PendingSidekick now e) as Hr.
    cbn [Enemy.request] in Hr. unfold Enemy.sidekick in *.
    destruct (negb (Enemy.canAttack e) || Enemy.isShowingWarning e) eqn:G; cbv zeta.
    + repeat split; auto.
    + destruct (retreatRandom rnd <? _); cbn [fst]; repeat split; auto.
Qed.

Lemma transition_fields distance rnd ai e :
  let w := checkStateTransitions distance rnd (ai, e) in
  (snd w = e \/ snd w = Enemy.stopMoving e) /\
  attackCooldown (fst w) = attackCooldown ai /\
  lastAttackTime (fst w) = lastAttackTime ai /\
  attackPauseTimer (fst w) = attackPauseTimer ai /\
  (isWaitingToAttack (fst w) = true -> isWaitingToAttack ai = true).
Proof.
  unfold checkStateTransitions. cbv zeta. cbn [fst].
  destruct (currentState ai);
    repeat match goal with |- context [if ?c then _ else _] => destruct c end;
    cbn [transitionTo fst snd]; repeat split; auto; try discriminate.
Qed.

Lemma executeAttackBehavior_steer now rnd player ai e :
  steer (snd (executeAttackBehavior now rnd player (ai, e)))
  = steer (Enemy.stopMoving (facePlayer player e)).
Proof.
  unfold executeAttackBehavior. cbv zeta.
  set (e1 := Enemy.stopMoving (facePlayer player e)).
  destruct (isWaitingToAttack ai).
  - destruct (attackPauseTimer ai <=? 0); [|reflexivity].
    destruct (performAttack_enemy now rnd (ai <| isWaitingToAttack := false |>) e1)
      as [a ->]. apply steer_request.
  - destruct (_ && _); [|reflexivity].
    destruct (pauseRandom rnd <? _); [reflexivity|].
    destruct (performAttack_enemy now rnd ai e1) as [a ->]. apply steer_request.
Qed.

(** The attack behaviour: what it does to the enemy's attack state and to
    the clock of the cooldown. *)
Lemma executeAttackBehavior_clock now rnd player ai e :
  rested ai ->
  let w' := executeAttackBehavior now rnd player (ai, e) in
  rested (fst w') /\
  attackCooldown (fst w') = attackCooldown ai /\
  (attackView (snd w') = attackView e \/ lastAttackTime (fst w') = 0) /\
  (lastAttackTime ai < attackCooldown ai ->
   attackView (snd w') = attackView e /\ lastAttackTime (fst w') = lastAttackTime ai).
Proof.
  intros Hr. unfold executeAttackBehavior. cbv zeta.
  set (e1 := Enemy.stopMoving (facePlayer player e)).
  assert (He1 : attackView e1 = attackView e) by reflexivity.
  destruct (isWaitingToAttack ai) eqn:Hw.
  - specialize (Hr Hw).
    destruct (attackPauseTimer ai <=? 0).
    + assert (Hf : isWaitingToAttack (ai <| isWaitingToAttack := false |>) = false)
        by reflexivity.
      destruct (performAttack_clock now rnd (ai <| isWaitingToAttack := false |>) e1 Hf)
        as (P1 & P2 & P3).
      split; [intros H; rewrite P1 in H; discriminate|].
      split; [exact P2|]. split; [|lra].
      destruct P3 as [-> | P3]; [left; exact He1 | right; exact P3].
    + cbn [fst snd]. split; [intros _; exact Hr|]. split; [reflexivity|].
      split; [left; exact He1 | lra].
  - destruct (geb_spec (lastAttackTime ai) (attackCooldown ai)) as [Hc|Hc]; cbn [andb].
    + destruct (Enemy.canAttack e1).
      * destruct (pauseRandom rnd <? _).
        -- cbn [fst snd]. unfold rested. AIFacts.fields.
           split; [intros _; exact Hc|]. split; [reflexivity|].
           split; [left; exact He1 | lra].
        -- destruct (performAttack_clock now rnd ai e1 Hw) as (P1 & P2 & P3).
           split; [intros H; rewrite P1 in H; discriminate|].
           split; [exact P2|]. split; [|lra].
           destruct P3 as [-> | P3]; [left; exact He1 | right; exact P3].
      * cbn [fst snd]. split; [intros H; rewrite Hw in H; discriminate|].
        split; [reflexivity|]. split; [left; exact He1 | lra].
    + cbn [fst snd]. split; [intros H; rewrite Hw in H; discriminate|].
      split; [reflexivity|]. split; [left; exact He1|].
      intros _. split; [exact He1 | reflexivity].
Qed.

End AIMore.

(** X18: what the controller asks of the enemy, by the state it ends the
    update in.  With enemy and player alive, after [update(delta)] the
    enemy is where it was, and: in IDLE and ATTACK it is asked to stand
    still (direction 0, no target) and faces the player; in CHASE it is
    asked to move toward the player, to the left when the player is to its
    left and to the right otherwise; in RETREAT it is asked to move the
    other way and faces the player.  Facing the player is facing right
    exactly when the player's x is greater. *)
Theorem X18_ai_intent_by_state :
  forall (delta now : Q) (rnd : EnemyAIController.Randoms) (player : Player.t)
         (w : EnemyAIController.world),
    Enemy.isDead (snd w) = false ->
    Player.isDead player = false ->
    let w' := EnemyAIController.update delta now rnd player w in
    let playerToTheLeft := Player.x player <? Enemy.x (snd w) in
    let facesPlayer :=
      Enemy.facingRight (snd w') = (Player.x player >? Enemy.x (snd w)) /\
      Enemy.flipX (snd w') = negb (Player.x player >? Enemy.x (snd w)) in
    Enemy.x (snd w') = Enemy.x (snd w) /\
    match EnemyAIController.currentState (fst w') with
    | EnemyAIController.IDLE | EnemyAIController.ATTACK =>
        Enemy.aiMovementDirection (snd w') = 0%Z /\ Enemy.targetX (snd w') = None /\
        facesPlayer
    | EnemyAIController.CHASE =>
        Enemy.aiMovementDirection (snd w') = if playerToTheLeft then (-1)%Z else 1%Z
    | EnemyAIController.RETREAT =>
        Enemy.aiMovementDirection (snd w') = (if playerToTheLeft then 1%Z else (-1)%Z) /\
        facesPlayer
    end.
Proof.
  intros delta now rnd player [ai e] He Hp w' left facesPlayer.
  unfold facesPlayer. clear facesPlayer.
  cbn [snd] in *. unfold w', EnemyAIController.update. clear w'.
  rewrite He, Hp. cbv zeta.
  match goal with |- context [EnemyAIController.checkStateTransitions ?d ?r (?a, e)] =>
    destruct (AIMore.transition_fields d r a e) as (T1 & _);
    set (w1 := EnemyAIController.checkStateTransitions d r (a, e)) in *
  end.
  assert (Hx : Enemy.x (snd w1) = Enemy.x e) by (destruct T1 as [-> | ->]; reflexivity).
  rewrite AIFacts.executeStateBehavior_state.
  unfold EnemyAIController.executeStateBehavior.
  destruct w1 as [ai2 e2]. cbn [fst snd] in *.
  destruct (EnemyAIController.currentState ai2).
  - unfold EnemyAIController.executeIdleBehavior, EnemyAIController.facePlayer,
      Enemy.setFacing, Enemy.stopMoving, Enemy.getX.
    EnemyFacts.fields. rewrite Hx. repeat split; reflexivity.
  - unfold EnemyAIController.executeChaseBehavior. cbv zeta. cbn [snd].
    unfold Enemy.getX. rewrite Hx. fold left.
    match goal with |- context [if ?c then snd (Enemy.jump ?q) else ?q] =>
      assert (Hj : AIViews.steer (if c then snd (Enemy.jump q) else q) = AIViews.steer q)
        by (destruct c; [apply AIMore.steer_jump | reflexivity]);
      set (r := if c then snd (Enemy.jump q) else q) in *
    end.
    unfold AIViews.steer in Hj. injection Hj as -> _ _ _ ->.
    destruct left; unfold Enemy.startMovingLeft, Enemy.startMovingRight;
      EnemyFacts.fields; rewrite Hx; split; reflexivity.
  - pose proof (AIMore.executeAttackBehavior_steer now rnd player ai2 e2) as Hs.
    set (r := snd (EnemyAIController.executeAttackBehavior now rnd player (ai2, e2))) in *.
    unfold AIViews.steer in Hs. injection Hs as -> -> -> -> ->.
    unfold EnemyAIController.facePlayer, Enemy.setFacing, Enemy.stopMoving, Enemy.getX.
    EnemyFacts.fields. rewrite Hx. repeat split; reflexivity.
  - unfold EnemyAIController.executeRetreatBehavior. cbv zeta. cbn [snd].
    unfold Enemy.getX. rewrite Hx. fold left.
    destruct left;
      unfold EnemyAIController.facePlayer, Enemy.setFacing, Enemy.startMovingLeft,
        Enemy.startMovingRight, Enemy.getX;
      EnemyFacts.fields; rewrite Hx; repeat split; reflexivity.
Qed.

Lemma X18_ai_intent_by_state_witness :
  let rnd := {| EnemyAIController.varianceRandom := 1 # 2;
                EnemyAIController.jumpRandom := 1 # 2;
                EnemyAIController.pauseRandom := 1 # 2;
                EnemyAIController.pauseDurationRandom := 1 # 2;
                EnemyAIController.attackChoiceRandom := 1 # 2;
                EnemyAIController.retreatRandom := 1 # 2 |} in
  let w' := EnemyAIController.update 16 0 rnd (Player.new 100 590)
              (EnemyAIController.new, Enemy.new 1180 590) in
  EnemyAIController.currentState (fst w') = EnemyAIController.CHASE /\
  Enemy.aiMovementDirection (snd w') = (-1)%Z.
Proof.
  intros rnd w'.
  destruct (X18_ai_intent_by_state 16 0 rnd (Player.new 100 590)
              (EnemyAIController.new, Enemy.new 1180 590)) as [_ H];
    [reflexivity | reflexivity |].
  fold w' in H.
  assert (Hs : EnemyAIController.currentState (fst w') = EnemyAIController.CHASE)
    by (vm_compute; reflexivity).
  rewrite Hs in H. split; [exact Hs | exact H].
Defined.

(** X19: the controller keeps its attack cooldown.  A controller that is
    waiting to attack has waited out its cooldown: this holds of a new
    controller and is kept by [update(delta)], for [delta >= 0], and by the
    timeouts.  For such a controller, an update either leaves the attack
    state of the enemy (warning, state, attack type, animation) as it is or
    restarts the clock of the cooldown at 0; and while the time since the
    last attack, [lastAttackTime + delta], is below [attackCooldown], the
    update starts no attack.  [update] never changes the cooldown. *)
Theorem X19_ai_attack_cooldown :
  forall (delta now : Q) (rnd : EnemyAIController.Randoms) (player : Player.t)
         (w : EnemyAIController.world),
    0 <= delta ->
    (EnemyAIController.isWaitingToAttack (fst w) = true ->
     EnemyAIController.attackCooldown (fst w) <= EnemyAIController.lastAttackTime (fst w)) ->
    let w' := EnemyAIController.update delta now rnd player w in
    let sameAttackState :=
      Enemy.pendingAttack (snd w') = Enemy.pendingAttack (snd w) /\
      Enemy.warningTween (snd w') = Enemy.warningTween (snd w) /\
      Enemy.currentState (snd w') = Enemy.currentState (snd w) /\
      Enemy.currentAttackType (snd w') = Enemy.currentAttackType (snd w) /\
      Enemy.animKey (snd w') = Enemy.animKey (snd w) in
    (EnemyAIController.isWaitingToAttack (fst w') = true ->
     EnemyAIController.attackCooldown (fst w') <= EnemyAIController.lastAttackTime (fst w')) /\
    EnemyAIController.attackCooldown (fst w') = EnemyAIController.attackCooldown (fst w) /\
    (sameAttackState \/ EnemyAIController.lastAttackTime (fst w') = 0) /\
    (EnemyAIController.lastAttackTime (fst w) + delta
     < EnemyAIController.attackCooldown (fst w) -> sameAttackState) /\
    (forall elapsed,
       let late := EnemyAIController.advanceTimeouts elapsed w in
       (EnemyAIController.isWaitingToAttack (fst late) = true ->
        EnemyAIController.attackCooldown (fst late)
        <= EnemyAIController.lastAttackTime (fst late))).
Proof.
  intros delta now rnd player [ai e] Hd Hr w' sameAttackState. cbn [fst snd] in *.
  assert (Hview : forall e', AIViews.attackView e' = AIViews.attackView e ->
                             Enemy.pendingAttack e' = Enemy.pendingAttack e /\
                             Enemy.warningTween e' = Enemy.warningTween e /\
                             Enemy.currentState e' = Enemy.currentState e /\
                             Enemy.currentAttackType e' = Enemy.currentAttackType e /\
                             Enemy.animKey e' = Enemy.animKey e).
  { unfold AIViews.attackView. intros e' H. injection H as -> -> _ _ -> -> -> _.
    repeat split. }
  assert (Hmain :
    AIViews.rested (fst w') /\
    EnemyAIController.attackCooldown (fst w') = EnemyAIController.attackCooldown ai /\
    (AIViews.attackView (snd w') = AIViews.attackView e \/
     EnemyAIController.lastAttackTime (fst w') = 0) /\
    (EnemyAIController.lastAttackTime ai + delta < EnemyAIController.attackCooldown ai ->
     AIViews.attackView (snd w') = AIViews.attackView e)).
  { unfold w', EnemyAIController.update.
    destruct (Enemy.isDead e);
      [cbn [fst snd]; repeat split; auto; try (left; reflexivity)|].
    destruct (Player.isDead player).
    { cbn [fst snd]. unfold AIViews.rested. AIFacts.fields.
      repeat split; auto; try (left; reflexivity). }
    cbv zeta.
    match goal with |- context [EnemyAIController.checkStateTransitions ?d ?r (?a, e)] =>
      destruct (AIMore.transition_fields d r a e) as (T1 & T2 & T3 & T4 & T5);
      set (w1 := EnemyAIController.checkStateTransitions d r (a, e)) in *;
      set (ai1 := a) in *
    end.
    assert (A1 : EnemyAIController.attackCooldown ai1 = EnemyAIController.attackCooldown ai
                 /\ EnemyAIController.lastAttackTime ai1
                    = EnemyAIController.lastAttackTime ai + delta
                 /\ EnemyAIController.isWaitingToAttack ai1
                    = EnemyAIController.isWaitingToAttack ai).
    { unfold ai1. destruct (_ >? 0); repeat split. }
    destruct A1 as (A1 & A2 & A3).
    destruct w1 as [ai2 e2]. cbn [fst snd] in *.
    assert (Hr2 : AIViews.rested ai2).
    { intros H. rewrite T2, T3, A1, A2. specialize (Hr (eq_trans (eq_sym A3) (T5 H))).
      lra. }
    assert (He2 : AIViews.attackView e2 = AIViews.attackView e)
      by (destruct T1 as [-> | ->]; reflexivity).
    unfold EnemyAIController.executeStateBehavior. cbn [fst].
    destruct (EnemyAIController.currentState ai2).
    - cbn [EnemyAIController.executeIdleBehavior fst snd].
      split; [exact Hr2|]. split; [congruence|]. split; [left; exact He2 | intros _; exact He2].
    - unfold EnemyAIController.executeChaseBehavior. cbv zeta. cbn [fst snd].
      match goal with |- context [if ?c then snd (Enemy.jump ?q) else ?q] =>
        assert (Hq : AIViews.attackView q = AIViews.attackView e)
          by (destruct (Player.x player <? Enemy.getX e2); exact He2);
        assert (Hj : AIViews.attackView (if c then snd (Enemy.jump q) else q)
                     = AIViews.attackView e)
          by (destruct c; [rewrite AIMore.attackView_jump|]; exact Hq)
      end.
      split; [exact Hr2|]. split; [congruence|].
      split; [left; exact Hj | intros _; exact Hj].
    - destruct (AIMore.executeAttackBehavior_clock now rnd player ai2 e2 Hr2)
        as (C1 & C2 & C3 & C4).
      split; [exact C1|]. split; [congruence|]. split.
      + destruct C3 as [C3|C3]; [left; congruence | right; exact C3].
      + intros Hlt. destruct C4 as [C4 _]; [rewrite T2, T3, A1, A2; exact Hlt|]. congruence.
    - unfold EnemyAIController.executeRetreatBehavior. cbv zeta. cbn [fst snd].
      assert (Hq : AIViews.attackView
                     (EnemyAIController.facePlayer player
                        (if Player.x player <? Enemy.getX e2
                         then Enemy.startMovingRight e2
                         else Enemy.startMovingLeft e2)) = AIViews.attackView e)
        by (destruct (Player.x player <? Enemy.getX e2); exact He2).
      split; [exact Hr2|]. split; [congruence|].
      split; [left; exact Hq | intros _; exact Hq]. }
  destruct Hmain as (M1 & M2 & M3 & M4).
  split; [exact M1|]. split; [exact M2|]. split; [|split].
  - destruct M3 as [M3|M3]; [left; apply Hview; exact M3 | right; exact M3].
  - intros Hlt. apply Hview, M4, Hlt.
  - intros elapsed. cbv zeta.
    change (AIViews.rested (fst (EnemyAIController.advanceTimeouts elapsed (ai, e)))).
    unfold EnemyAIController.advanceTimeouts.
    set (due := filter _ _). set (waiting := filter _ _).
    assert (G : forall l q, AIViews.rested (fst q) ->
                  AIViews.rested
                    (fst (fold_left
                            (fun q (tc : Q * EnemyAIController.TimeoutCallback) =>
                               EnemyAIController.runTimeoutCallback (snd tc) q) l q))).
    { induction l as [|[r cb] l IH]; intros q Hq; [exact Hq|].
      cbn [fold_left]. apply IH. cbn [snd]. unfold EnemyAIController.runTimeoutCallback.
      destruct cb; destruct (EnemyAIController.AIState_eqb _ _); try exact Hq;
        destruct q; intros H; discriminate H. }
    apply G. exact Hr.
Qed.

Lemma X19_ai_attack_cooldown_witness :
  let rnd := {| EnemyAIController.varianceRandom := 1 # 2;
                EnemyAIController.jumpRandom := 1 # 2;
                EnemyAIController.pauseRandom := 1 # 2;
                EnemyAIController.pauseDurationRandom := 1 # 2;
                EnemyAIController.attackChoiceRandom := 1 # 4;
                EnemyAIController.retreatRandom := 1 # 2 |} in
  let grounded := Enemy.physicsStep
                    {| Enemy.new_x := 200; Enemy.new_y := 590; Enemy.new_velocityX := 0;
                       Enemy.new_velocityY := 0; Enemy.new_blockedDown := true |}
                    (Enemy.new 200 590) in
  let attacking := fst (EnemyAIController.forceState EnemyAIController.ATTACK
                          (EnemyAIController.new, grounded)) in
  let early := EnemyAIController.update 500 0 rnd (Player.new 100 590)
                 (attacking, grounded) in
  let late := EnemyAIController.update 300 500 rnd (Player.new 100 590) early in
  Enemy.pendingAttack (snd early) = None /\
  Enemy.pendingAttack (snd late) = Some Enemy.PendingPunch /\
  EnemyAIController.lastAttackTime (fst late) = 0.
Proof.
  intros rnd grounded attacking early late.
  destruct (X19_ai_attack_cooldown 500 0 rnd (Player.new 100 590) (attacking, grounded))
    as (_ & _ & _ & H1 & _); [discriminate | discriminate |].
  destruct (X19_ai_attack_cooldown 300 500 rnd (Player.new 100 590) early)
    as (_ & _ & H2 & _); [discriminate | discriminate |].
  fold early in H1. fold late in H2.
  destruct H1 as (H1 & _); [reflexivity|].
  split; [rewrite H1; reflexivity|].
  assert (Hp : Enemy.pendingAttack (snd late) = Some Enemy.PendingPunch)
    by (vm_compute; reflexivity).
  split; [exact Hp|].
  destruct H2 as [(H2 & _) | H2]; [|exact H2].
  rewrite Hp, H1 in H2. discriminate H2.
Defined.

Module BarFacts.
Import HealthBar BarViews.

Ltac fields := cbn [
  currentProgress targetProgress maxHealth currentHealth characterName headOffset
  hpText hpTextColor labelColor containerX containerY fillBar glowEffect
  set const fst snd];
  cbv beta delta [const].

Lemma updateHealth_fields h b :
  currentHealth (updateHealth h b) = Num.Math_max 0 (Num.Math_min h (maxHealth b)) /\
  maxHealth (updateHealth h b) = maxHealth b /\
  targetProgress (updateHealth h b)
  = Num.Math_max 0 (Num.Math_min h (maxHealth b)) / maxHealth b /\
  currentProgress (updateHealth h b) = currentProgress b.
Proof.
  unfold updateHealth. cbv zeta. fields.
  destruct (_ <=? 3 # 10); [|destruct (_ <=? 6 # 10)]; fields; repeat split.
Qed.

Lemma clamp_inside h m : 0 <= h <= m -> Num.Math_max 0 (Num.Math_min h m) == h.
Proof.
  intros H. unfold Num.Math_max, Num.Math_min.
  destruct (ltb_spec m h); [lra|]. destruct (ltb_spec 0 h); lra.
Qed.

Lemma clamp_range h m : 0 <= m ->
  0 <= Num.Math_max 0 (Num.Math_min h m) <= m.
Proof.
  intros H. unfold Num.Math_max, Num.Math_min.
  destruct (ltb_spec m h);
    match goal with |- context [Num.ltb 0 ?a] => destruct (ltb_spec 0 a) end; lra.
Qed.

Lemma combatant_takeDamage_vitals amount attackerX ty c :
  Combatant.isInvincible c || (Combatant.health c <=? 0) = false ->
  Combatant.health (Combatant.takeDamage amount attackerX ty c)
  = Num.Math_max 0 (Combatant.health c - amount) /\
  Combatant.maxHealth (Combatant.takeDamage amount attackerX ty c)
  = Combatant.maxHealth c.
Proof.
  destruct c as [p|e]; cbn [Combatant.isInvincible Combatant.health Combatant.maxHealth
                            Combatant.takeDamage];
    unfold Player.getIsInvincible, Player.getCurrentHealth, Player.getMaxHealth,
      Enemy.getIsInvincible, Enemy.getCurrentHealth, Enemy.getMaxHealth; intros G.
  - pose proof (PlayerFacts.vitals_takeDamage amount attackerX p) as V.
    rewrite G in V. unfold PlayerViews.vitals in V. injection V as -> ->. split; reflexivity.
  - pose proof (CombatantFacts.enemy_vitals_takeDamage amount attackerX ty e) as V.
    rewrite G in V. unfold EnemyViews.vitals in V. injection V as -> ->. split; reflexivity.
Qed.

Lemma tracks_takeDamage amount attackerX ty c bar :
  0 <= amount -> 0 < Combatant.maxHealth c ->
  0 <= Combatant.health c <= Combatant.maxHealth c ->
  tracks c bar ->
  let w := takeDamage amount attackerX ty (c, Some bar) in
  Combatant.maxHealth (fst w) = Combatant.maxHealth c /\
  0 <= Combatant.health (fst w) <= Combatant.health c /\
  exists bar', snd w = Some bar' /\ tracks (fst w) bar'.
Proof.
  intros Ha Hm Hh Ht. unfold takeDamage.
  destruct (Combatant.isInvincible c || (Combatant.health c <=? 0)) eqn:G.
  - cbn [fst snd]. split; [reflexivity|]. split; [lra|]. exists bar. split; [reflexivity|exact Ht].
  - cbv zeta. cbn [fst snd option_map].
    destruct (combatant_takeDamage_vitals amount attackerX ty c G) as [V1 V2].
    set (c' := Combatant.takeDamage amount attackerX ty c) in *.
    assert (Hh' : 0 <= Combatant.health c' <= Combatant.health c).
    { rewrite V1. unfold Num.Math_max.
      destruct (ltb_spec 0 (Combatant.health c - amount)); lra. }
    split; [exact V2|]. split; [exact Hh'|].
    eexists. split; [reflexivity|].
    destruct Ht as (T1 & T2 & T3).
    destruct (updateHealth_fields (Combatant.health c') bar) as (U1 & U2 & U3 & _).
    assert (Hc : Num.Math_max 0 (Num.Math_min (Combatant.health c') (maxHealth bar))
                 == Combatant.health c') by (apply clamp_inside; lra).
    unfold tracks. rewrite U1, U2, U3, V2. split; [exact T1|]. split; [exact Hc|].
    rewrite Hc, T1. reflexivity.
Qed.

Lemma tracks_takeDamages hits : forall c bar,
  Forall (fun hit : Q * Q * option string => 0 <= fst (fst hit)) hits ->
  0 < Combatant.maxHealth c ->
  0 <= Combatant.health c <= Combatant.maxHealth c ->
  tracks c bar ->
  let w := takeDamages hits (c, Some bar) in
  Combatant.maxHealth (fst w) = Combatant.maxHealth c /\
  0 <= Combatant.health (fst w) <= Combatant.health c /\
  exists bar', snd w = Some bar' /\ tracks (fst w) bar'.
Proof.
  induction hits as [|[[amount attackerX] ty] hits IH]; intros c bar Hf Hm Hh Ht.
  - cbn. split; [reflexivity|]. split; [lra|]. exists bar. split; [reflexivity | exact Ht].
  - inversion Hf; subst. cbn [fst snd] in *.
    unfold takeDamages. cbn [fold_left fst snd].
    destruct (tracks_takeDamage amount attackerX ty c bar H1 Hm Hh Ht)
      as (S1 & S2 & bar1 & S3 & S4).
    destruct (takeDamage amount attackerX ty (c, Some bar)) as [c1 b1].
    cbn [fst snd] in *. subst b1.
    destruct (IH c1 bar1 H2) as (R1 & R2 & bar2 & R3 & R4);
      [rewrite S1; exact Hm | rewrite S1; lra | exact S4 |].
    unfold takeDamages in *. split; [congruence|]. split; [lra|].
    exists bar2. split; assumption.
Qed.

End BarFacts.

(** X20: the health bar shows the health of its combatant.  Let a bar
    agree with a player or an enemy on the maximum and on the current
    health, the health lying between 0 and a positive maximum.  Then after
    any run of [takeDamage] calls with amounts that are not negative the
    bar still agrees: its health is the health of the combatant, never
    cut by the bar's own clamp, and its target progress is health over
    maximum, between 0 and 1. *)
Theorem X20_health_bar_tracks_health :
  forall (c : Combatant.t) (bar : HealthBar.t) (hits : list (Q * Q * option string)),
    0 < Combatant.maxHealth c ->
    0 <= Combatant.health c <= Combatant.maxHealth c ->
    HealthBar.maxHealth bar == Combatant.maxHealth c ->
    HealthBar.currentHealth bar == Combatant.health c ->
    HealthBar.targetProgress bar == Combatant.health c / Combatant.maxHealth c ->
    Forall (fun hit : Q * Q * option string => 0 <= fst (fst hit)) hits ->
    let w := HealthBar.takeDamages hits (c, Some bar) in
    exists bar',
      snd w = Some bar' /\
      HealthBar.maxHealth bar' == Combatant.maxHealth (fst w) /\
      HealthBar.currentHealth bar' == Combatant.health (fst w) /\
      HealthBar.targetProgress bar'
      == Combatant.health (fst w) / Combatant.maxHealth (fst w) /\
      0 <= HealthBar.targetProgress bar' <= 1.
Proof.
  intros c bar hits Hm Hh B1 B2 B3 Hf w.
  destruct (BarFacts.tracks_takeDamages hits c bar Hf Hm Hh (conj B1 (conj B2 B3)))
    as (R1 & R2 & bar' & R3 & T1 & T2 & T3).
  fold w in R1, R2, R3, T1, T2, T3.
  exists bar'. split; [exact R3|]. split; [exact T1|]. split; [exact T2|].
  split; [exact T3|]. rewrite T3, R1. split.
  - apply Qle_shift_div_l; [exact Hm | lra].
  - apply Qle_shift_div_r; [exact Hm | lra].
Qed.

Lemma X20_health_bar_tracks_health_witness :
  let c := Combatant.OfPlayer (Player.new 100 590) in
  let bar := HealthBar.new 100 "JUAN" 117 in
  let w := HealthBar.takeDamages
             [(10, 1180, None); (20, 1180, None); (15, 1180, Some "punch"%string)]
             (c, Some bar) in
  exists bar',
    snd w = Some bar' /\
    HealthBar.maxHealth bar' == Combatant.maxHealth (fst w) /\
    HealthBar.currentHealth bar' == Combatant.health (fst w) /\
    HealthBar.targetProgress bar'
    == Combatant.health (fst w) / Combatant.maxHealth (fst w) /\
    0 <= HealthBar.targetProgress bar' <= 1.
Proof.
  apply (X20_health_bar_tracks_health (Combatant.OfPlayer (Player.new 100 590))
           (HealthBar.new 100 "JUAN" 117)
           [(10, 1180, None); (20, 1180, None); (15, 1180, Some "punch"%string)]).
  - reflexivity.
  - split; discriminate.
  - reflexivity.
  - reflexivity.
  - reflexivity.
  - repeat (apply Forall_cons; [discriminate|]). apply Forall_nil.
Defined.
